(** * StreamSource: the Postgres stream store

    A shallow embedding of [src/postgres/pg-stream-store.ts] (the newer of
    the two revisions of that file) together with the error classes of
    [errors/errors.ts], and the properties of the store that the
    specification states about appending, reading, metadata streams and
    the notifier cache.

    Conventions of the embedding:
    - a JavaScript value whose shape the code inspects is a [JsVal];
    - a JavaScript number that holds a stream version or a count is a [Z];
    - a global position is a decimal [string], as in the source;
    - the closure state of [createPostgresStreamStore] ([disposing],
      [writeLatch], [notifier], [subscriptions]) is the record [Store],
      threaded through a state-and-exception monad [M];
    - the storage pool is an oracle [Driver]: the answer to a query may
      depend on how many queries were issued before it;
    - every latch operation, query and notifier construction is appended to
      [trace], so that "before any I/O" is a statement about the trace.

    The bootstrapper of the database ([createPostgresStreamStoreBootstrapper])
    and the management tool that drives it from the command line are
    embedded in the modules [Bootstrapper] and [Cli], over a trace of the
    pools made, the statements sent and the lines logged. *)

From Stdlib Require Import ZArith String Ascii List Lia Bool QArith.
From Stdlib Require Import DecimalString DecimalZ DecimalPos Decimal DecimalNat.
Import ListNotations.

Set Warnings "-register-all".

Local Open Scope string_scope.
Local Open Scope Z_scope.

(* ===================================================================== *)
(** ** JavaScript values and strings *)
(* ===================================================================== *)

Module Js.

(** The values that reach the store through its untyped boundary. *)
Inductive JsVal : Type :=
| JUndefined
| JNull
| JBool (b : bool)
| JNum (n : Z)
| JStr (s : string)
| JObj (fields : list (string * JsVal)).

(** [!!v] *)
Definition truthy (v : JsVal) : bool :=
  match v with
  | JUndefined | JNull => false
  | JBool b => b
  | JNum n => negb (n =? 0)
  | JStr s => negb (String.eqb s "")
  | JObj _ => true
  end.

(** [a || b] *)
Definition or (a b : JsVal) : JsVal := if truthy a then a else b.

(** [obj.key]; a missing property and a property of a primitive read as
    [undefined]. *)
Fixpoint assoc (key : string) (fields : list (string * JsVal)) : JsVal :=
  match fields with
  | [] => JUndefined
  | (k, v) :: rest => if String.eqb k key then v else assoc key rest
  end.

Definition get (v : JsVal) (key : string) : JsVal :=
  match v with
  | JObj fields => assoc key fields
  | _ => JUndefined
  end.

(** The double quote character, which the constraint names are wrapped in. *)
Definition dquote : ascii := "034"%char.

Definition quoted (name : string) : string :=
  String dquote (name ++ String dquote "").

(** [s.startsWith(p)] *)
Definition startsWith (s p : string) : bool := String.prefix p s.

(** [s.endsWith(suffix)] *)
Fixpoint endsWith (s suffix : string) : bool :=
  if String.eqb s suffix then true
  else match s with
       | EmptyString => false
       | String _ rest => endsWith rest suffix
       end.

(** Decimal rendering of an integer: [n.toString()] and
    [BigInteger.prototype.toString]. *)
Definition Z_toString (z : Z) : string :=
  NilZero.string_of_int (Z.to_int z).

(** Decimal rendering of an array index inside a template literal. *)
Definition nat_toString (n : nat) : string :=
  NilZero.string_of_uint (Nat.to_uint n).

(** [String(v)], the conversion applied by template literals and by
    [RegExp.prototype.exec] to its argument. *)
Definition toString (v : JsVal) : string :=
  match v with
  | JUndefined => "undefined"
  | JNull => "null"
  | JBool true => "true"
  | JBool false => "false"
  | JNum n => Z_toString n
  | JStr s => s
  | JObj _ => "[object Object]"
  end.

(** [a === b] against a number. *)
Definition strictEqNum (v : JsVal) (n : Z) : bool :=
  match v with
  | JNum m => m =? n
  | _ => false
  end.

(** [Number.MAX_SAFE_INTEGER] *)
Definition MAX_SAFE_INTEGER : Z := 9007199254740991.

End Js.
Import Js.

(* ===================================================================== *)
(** ** big-integer *)
(* ===================================================================== *)

Module BigInteger.

(** The library [big-integer] is an external dependency.  Positions
    reach it as the decimal text of a 64-bit column, so parsing is the
    reading of an optionally signed decimal numeral; anything else is
    rejected ([None], an exception in the library). *)
Definition parse (s : string) : option Z :=
  option_map Z.of_int (NilZero.int_of_string s).

Definition toString (z : Z) : string := Z_toString z.

Definition one : Z := 1.
Definition zero : Z := 0.
Definition plus (a b : Z) : Z := a + b.
Definition minus (a b : Z) : Z := a - b.
Definition max (a b : Z) : Z := Z.max a b.

End BigInteger.

(* ===================================================================== *)
(** ** Errors ([errors/errors.ts]) *)
(* ===================================================================== *)

Module Errors.

(** The error classes of the store, the error objects the Postgres
    driver raises ([message] and [detail] are the two fields the store
    reads), any other exception of the runtime or of a library, and the
    marker that [again] wraps around an error to ask [retry] for another
    attempt. *)
Inductive Error : Type :=
| ConcurrencyError
| DuplicateMessageError (id : string)
| InconsistentStreamTypeError
| DisposedError (message : string)
| InvalidParameterError (message : string)
| DriverError (message : string) (detail : JsVal)
| RuntimeError (message : string)
| Again (cause : Error).

(** [err.message]: the default message of each class made by
    [MakeErrorClass], or the one given to the constructor. *)
Fixpoint message (e : Error) : string :=
  match e with
  | ConcurrencyError =>
      "The expected version did not match that of the event store."
  | DuplicateMessageError id =>
      "Cannot insert message with duplicate ID " ++ quoted id
  | InconsistentStreamTypeError =>
      "Attempted to write to a stream, but the stream type did not match."
  | DisposedError m => m
  | InvalidParameterError m => m
  | DriverError m _ => m
  | RuntimeError m => m
  | Again cause => message cause
  end.

(** [err.detail]: only driver errors carry one. *)
Definition detail (e : Error) : JsVal :=
  match e with
  | DriverError _ d => d
  | _ => JUndefined
  end.

End Errors.
Import Errors.

(* ===================================================================== *)
(** ** Sentinels and operational names *)
(* ===================================================================== *)

Module ExpectedVersion.
(** Modelled from the spec: the enum [ExpectedVersion] is declared in
    [types/stream-store.ts], which is not among the sources; the
    specification gives [Any = -2] and [Empty = -1]. *)
Definition Any : Z := -2.
Definition Empty : Z := -1.
End ExpectedVersion.

Module AppendResultCodes.
Definition ConcurrencyIssue : Z := -9.
End AppendResultCodes.

Module OperationalMessageType.
(** Modelled from the spec: declared in [types/messages.ts]; the
    specification names the two operational message types. *)
Definition Metadata : string := "$streamMetadata".
Definition StreamDeleted : string := "$streamDeleted".
End OperationalMessageType.

Module OperationalStream.
(** Modelled from the spec: declared in [types/messages.ts]; the global
    deletion log. *)
Definition Deleted : string := "$deleted".
End OperationalStream.

(* ===================================================================== *)
(** ** Outcomes and parameter checks ([utils/invariant.ts]) *)
(* ===================================================================== *)

(** A call either returns or throws. *)
Inductive Outcome (A : Type) : Type :=
| Returned (a : A)
| Thrown (e : Error).
Arguments Returned {A} a.
Arguments Thrown {A} e.

Module Invariant.

(** [InvalidParameterError.assert(cond, message)] *)
Definition assert (cond : bool) (message : string) : Outcome unit :=
  if cond then Returned tt else Thrown (InvalidParameterError message).

(** Modelled from the spec: [utils/invariant.ts] is not among the
    sources.  The specification asks for a value that is present, not
    null and not empty, and for the message [<field> is required]. *)
Definition required (name : string) (value : JsVal) : Outcome unit :=
  assert
    (match value with
     | JUndefined | JNull => false
     | JStr s => negb (String.eqb s "")
     | _ => true
     end)
    (name ++ " is required").

(** Modelled from the spec: a required value that is a non-empty
    string; the append test expects [streamId is required] for a value
    that is no string. *)
Definition requiredString (name : string) (value : JsVal) : Outcome unit :=
  assert
    (match value with
     | JStr s => negb (String.eqb s "")
     | _ => false
     end)
    (name ++ " is required").

(** Modelled from the spec: stream ids that begin with [$] are reserved
    for operational streams and are refused. *)
Definition notOperationalStream (name : string) (value : JsVal)
  : Outcome unit :=
  assert
    (match value with
     | JStr s => negb (startsWith s "$")
     | _ => true
     end)
    (name ++ " must not be an operational stream").

Definition isHexDigit (c : ascii) : bool :=
  let n := nat_of_ascii c in
  ((48 <=? n) && (n <=? 57) || (97 <=? n) && (n <=? 102)
   || (65 <=? n) && (n <=? 70))%nat.

Fixpoint hexRun (n : nat) (s : string) : option string :=
  match n with
  | O => Some s
  | S k =>
      match s with
      | String c rest => if isHexDigit c then hexRun k rest else None
      | EmptyString => None
      end
  end.

Fixpoint hexGroups (groups : list nat) (s : string) : bool :=
  match groups with
  | [] => false
  | [g] =>
      match hexRun g s with
      | Some EmptyString => true
      | _ => false
      end
  | g :: more =>
      match hexRun g s with
      | Some (String "-" rest) => hexGroups more rest
      | _ => false
      end
  end.

(** Modelled from the spec: a UUID in its textual form, five groups of
    8, 4, 4, 4 and 12 hexadecimal digits separated by hyphens. *)
Definition isUuid (s : string) : bool := hexGroups [8; 4; 4; 4; 12]%nat s.

(** Modelled from the spec: the message is [<field> must be a UUID]. *)
Definition uuid (name : string) (value : JsVal) : Outcome unit :=
  assert
    (match value with
     | JStr s => isUuid s
     | _ => false
     end)
    (name ++ " must be a UUID").

End Invariant.

(* ===================================================================== *)
(** ** Data carried by the store *)
(* ===================================================================== *)

Module NewStreamMessage.
Record t : Type := make
  { messageId : JsVal; type : JsVal; data : JsVal; meta : JsVal }.
End NewStreamMessage.

(** A row of the [message] table as the driver returns it. *)
Module MessageRow.
Record t : Type := make
  { stream_id : string;
    message_id : string;
    data : JsVal;
    meta : JsVal;
    created_at : JsVal;
    type : string;
    position : string;
    stream_version : Z }.
End MessageRow.

Module StreamMessage.
Record t : Type := make
  { streamId : string;
    messageId : string;
    data : JsVal;
    meta : JsVal;
    createdAt : JsVal;
    type : string;
    position : string;
    streamVersion : Z }.
End StreamMessage.

(** The row of the [stream] table read by [readStreamInfo]. *)
Module StreamInfoRow.
Record t : Type := make
  { id : string;
    stream_version : Z;
    position : string;
    max_age : JsVal;
    max_count : JsVal;
    stream_type : JsVal }.
End StreamInfoRow.

Module InsertResult.
Record t : Type := make
  { current_version : Z;
    current_position : string;
    max_count : JsVal;
    max_age : JsVal }.
End InsertResult.

Module AppendToStreamResult.
Record t : Type := make { streamPosition : string; streamVersion : Z }.
End AppendToStreamResult.

Module ReadStreamResult.
Record t : Type := make
  { streamId : JsVal;
    streamVersion : Z;
    streamPosition : string;
    maxAge : JsVal;
    maxCount : JsVal;
    streamType : JsVal;
    nextVersion : Z;
    isEnd : bool;
    messages : list StreamMessage.t }.
End ReadStreamResult.

Module ReadAllResult.
Record t : Type := make
  { isEnd : bool; nextPosition : string; messages : list StreamMessage.t }.
End ReadAllResult.

Module StreamMetadataResult.
Record t : Type := make
  { streamId : JsVal;
    metadata : JsVal;
    metadataStreamVersion : Z;
    maxAge : JsVal;
    maxCount : JsVal }.
End StreamMetadataResult.

Module SetStreamMetadataOptions.
Record t : Type := make
  { metadata : JsVal; maxAge : JsVal; maxCount : JsVal }.
End SetStreamMetadataOptions.

Inductive ReadDirection : Type := Forward | Backward.

Definition isForward (d : ReadDirection) : bool :=
  match d with Forward => true | Backward => false end.

Module RetryOptions.
Record t : Type := make
  { factor : Q; tries : nat; minTimeout : Q; maxTimeout : Q }.
End RetryOptions.

(* ===================================================================== *)
(** ** Configuration, notifiers and subscriptions *)
(* ===================================================================== *)

Module NotifierConfig.
Record t : Type := make
  { type : string;
    pollingInterval : option Z;
    keepAliveInterval : option Z }.
End NotifierConfig.

Module PgStreamStoreConfig.
Record t : Type := make
  { notifierConfig : option NotifierConfig.t;
    scavengeSynchronously : bool;
    gapReloadDelay : option Z;
    gapReloadTimes : option nat;
    getCurrentTime : option (nat -> JsVal) }.
End PgStreamStoreConfig.

(** What [createPollingNotifier] and [createPostgresNotifier] were called
    with. *)
Inductive NotifierKind : Type :=
| PollingNotifier (pollingInterval : Z)
| PostgresNotifier (keepAliveInterval : option Z).

(** A notifier object.  [notifier_ref] stands for the identity of the
    object: it is the number of notifiers the store had constructed
    before this one. *)
Record StreamStoreNotifier : Type :=
  { notifier_ref : nat; notifier_kind : NotifierKind }.

(** A subscription object: its identity, the stream it tails ([None] for
    the all-stream) and the notifier it was handed. *)
Record Subscription : Type :=
  { subscription_ref : nat;
    subscription_stream : option JsVal;
    subscription_notifier : StreamStoreNotifier }.

(* ===================================================================== *)
(** ** Queries and the storage driver *)
(* ===================================================================== *)

(** The statements built by [scripts] with their arguments. *)
Inductive Query : Type :=
| QAppend (streamId : JsVal) (metaStreamId : string)
    (expectedVersion : JsVal) (now : JsVal)
    (newMessages : list NewStreamMessage.t)
| QReadHeadPosition
| QReadStream (streamId : JsVal) (fromVersion : Z) (count : Z)
    (forward : bool)
| QReadAllMessages (count : Z) (fromPosition : JsVal) (forward : bool)
| QSetStreamMetadata (streamId : JsVal) (metaStreamId : string)
    (expectedVersion : JsVal) (maxAge maxCount : JsVal) (now : JsVal)
    (message : NewStreamMessage.t)
| QDeleteStream (streamId : JsVal) (deletedStreamId : string)
    (expectedVersion : JsVal) (now : JsVal) (message : NewStreamMessage.t)
| QDeleteMessages (streamId : JsVal) (messageIds : list JsVal).

(** The pool.  Each field answers one kind of statement; the first
    argument is the number of statements issued before this one, so that a
    driver may answer the same statement differently on a later attempt.
    [QReadStream] stands for the round trip that sends the messages query
    and the info query together. *)
Record Driver : Type :=
  { run_append : nat -> Query -> Outcome InsertResult.t;
    run_readHeadPosition : nat -> Query -> Outcome JsVal;
    run_readStream :
      nat -> Query -> Outcome (list MessageRow.t * option StreamInfoRow.t);
    run_readAllMessages : nat -> Query -> Outcome (list MessageRow.t);
    run_setStreamMetadata : nat -> Query -> Outcome Z;
    run_deleteStream : nat -> Query -> Outcome Z;
    run_deleteMessages : nat -> Query -> Outcome unit }.

(* ===================================================================== *)
(** ** The store's state and its monad *)
(* ===================================================================== *)

Inductive Event : Type :=
| LatchEnter
| LatchExit
| LatchWait
| Issued (q : Query)
| Backoff (attempt : nat) (opts : RetryOptions.t)
| GapReloadDelay (ms : Z)
| NotifierCreated (n : StreamStoreNotifier)
| NotifierDisposed (n : StreamStoreNotifier)
| SubscriptionCreated (s : Subscription)
| SubscriptionDisposed (s : Subscription)
| PoolEnded.

(** The variables closed over by the functions of the store. *)
Record Store : Type :=
  { disposing : bool;
    writeLatch : nat;
    notifier : option StreamStoreNotifier;
    subscriptions : list Subscription;
    trace : list Event }.

Definition isIssued (e : Event) : bool :=
  match e with Issued _ => true | _ => false end.

Definition isNotifierCreated (e : Event) : bool :=
  match e with NotifierCreated _ => true | _ => false end.

Definition isSubscriptionCreated (e : Event) : bool :=
  match e with SubscriptionCreated _ => true | _ => false end.

(** The statements issued so far, oldest first. *)
Fixpoint issued (t : list Event) : list Query :=
  match t with
  | [] => []
  | Issued q :: rest => q :: issued rest
  | _ :: rest => issued rest
  end.

(** The notifiers constructed so far, oldest first. *)
Fixpoint notifiersCreated (t : list Event) : list StreamStoreNotifier :=
  match t with
  | [] => []
  | NotifierCreated n :: rest => n :: notifiersCreated rest
  | _ :: rest => notifiersCreated rest
  end.

(** The subscriptions constructed so far, oldest first. *)
Fixpoint subscriptionsCreated (t : list Event) : list Subscription :=
  match t with
  | [] => []
  | SubscriptionCreated s :: rest => s :: subscriptionsCreated rest
  | _ :: rest => subscriptionsCreated rest
  end.

Definition M (A : Type) : Type := Store -> Outcome A * Store.

Definition ret {A} (a : A) : M A := fun s => (Returned a, s).

Definition throw {A} (e : Error) : M A := fun s => (Thrown e, s).

Definition bind {A B} (m : M A) (k : A -> M B) : M B :=
  fun s =>
    match m s with
    | (Returned a, s') => k a s'
    | (Thrown e, s') => (Thrown e, s')
    end.

Declare Scope store_scope.
Delimit Scope store_scope with store.
Notation "x <- c ;; k" := (bind c (fun x => k))
  (at level 61, c at next level, right associativity) : store_scope.
Notation "c ;; k" := (bind c (fun _ => k))
  (at level 61, right associativity) : store_scope.
Local Open Scope store_scope.

(** A synchronous check that may throw. *)
Definition lift {A} (o : Outcome A) : M A := fun s => (o, s).

(** [try { body } catch (error) { handler(error) }] *)
Definition tryCatch {A} (body : M A) (handler : Error -> M A) : M A :=
  fun s =>
    match body s with
    | (Thrown e, s') => handler e s'
    | r => r
    end.

(** [try { body } finally { cleanup }], for a cleanup that cannot throw. *)
Definition tryFinally {A} (body : M A) (cleanup : Store -> Store) : M A :=
  fun s => let (r, s') := body s in (r, cleanup s').

Definition gets {A} (f : Store -> A) : M A := fun s => (Returned (f s), s).

Definition modify (f : Store -> Store) : M unit :=
  fun s => (Returned tt, f s).

Definition record (e : Event) (s : Store) : Store :=
  {| disposing := disposing s;
     writeLatch := writeLatch s;
     notifier := notifier s;
     subscriptions := subscriptions s;
     trace := trace s ++ [e] |}.

Definition emit (e : Event) : M unit := modify (record e).

(** Modelled from the spec: [utils/latch.ts] is not among the sources.
    The duplex latch counts the sections that were entered and not yet
    left; [writeLatch.enter()] and [writeLatch.exit()] move the count and
    never block. *)
Definition latchEnter (s : Store) : Store :=
  {| disposing := disposing s;
     writeLatch := S (writeLatch s);
     notifier := notifier s;
     subscriptions := subscriptions s;
     trace := trace s ++ [LatchEnter] |}.

Definition latchExit (s : Store) : Store :=
  {| disposing := disposing s;
     writeLatch := Nat.pred (writeLatch s);
     notifier := notifier s;
     subscriptions := subscriptions s;
     trace := trace s ++ [LatchExit] |}.

(** One round trip to the pool, be it [pool.query] or a statement run by
    [runInTransaction]: the statement is logged and the driver answers. *)
Definition query {A} (run : nat -> Query -> Outcome A) (q : Query) : M A :=
  fun s => (run (length (issued (trace s))) q, record (Issued q) s).

(** Runs a throwing action on each element with its index, as
    [Array.prototype.forEach] does. *)
Fixpoint forEachFrom {A} (i : nat) (f : A -> nat -> Outcome unit)
  (l : list A) : Outcome unit :=
  match l with
  | [] => Returned tt
  | x :: rest =>
      match f x i with
      | Returned _ => forEachFrom (S i) f rest
      | Thrown e => Thrown e
      end
  end.

Definition forEach {A} (l : list A) (f : A -> nat -> Outcome unit)
  : Outcome unit := forEachFrom 0 f l.

Definition andThenWith {A B} (a : Outcome A) (k : A -> Outcome B)
  : Outcome B :=
  match a with
  | Returned x => k x
  | Thrown e => Thrown e
  end.

Definition andThen {B} (a : Outcome unit) (b : Outcome B) : Outcome B :=
  andThenWith a (fun _ => b).

(* ===================================================================== *)
(** ** [retry] of the library fejl *)
(* ===================================================================== *)

Module Fejl.

Fixpoint retryLoop {A} (fn : (Error -> Error) -> M A)
  (opts : RetryOptions.t) (retriesLeft attempt : nat) : M A :=
  fun s =>
    match fn Again s with
    | (Thrown (Again cause), s') =>
        match retriesLeft with
        | O => (Thrown cause, s')
        | S k =>
            (* the pause before the next attempt, whose length the
               library derives from the number of the attempt and from
               the factor and the two bounds in [opts] *)
            retryLoop fn opts k (S attempt)
              (record (Backoff attempt opts) s')
        end
    | settled => settled
    end.

(** Modelled from the spec: [retry] belongs to the library fejl, an
    external dependency.  It runs [fn] up to [tries] times; an attempt is
    repeated only when it rejects with the value that [again] returned,
    and when the attempts are used up the error given to [again] is the
    one that is thrown.  Any other rejection, and any result, settles the
    call at once. *)
Definition retry {A} (fn : (Error -> Error) -> M A) (opts : RetryOptions.t)
  : M A :=
  retryLoop fn opts (Nat.pred (RetryOptions.tries opts)) 0.

End Fejl.

(* ===================================================================== *)
(** ** Module-level functions of [pg-stream-store.ts] *)
(* ===================================================================== *)

(** [MAX_BIG_VALUE] *)
Definition MAX_BIG_VALUE : string :=
  BigInteger.toString 9223372036854775807.

Definition isConcurrencyUniqueConstraintViolation (err : Error) : bool :=
  endsWith (message err) (quoted "stream_id_key")
  || endsWith (message err)
       (quoted "message_stream_id_internal_stream_version_unique").

Definition isDuplicateMessageIdUniqueConstraintViolation (err : Error)
  : bool :=
  endsWith (message err) (quoted "message_message_id_key").

(** [.] in a regular expression matches any character but a line
    terminator.  Line feed and carriage return are the line terminators
    that a string of single-byte characters can hold. *)
Definition isLineTerminator (c : ascii) : bool :=
  (c =? "010")%char || (c =? "013")%char.

(** The tail [(.*?)\)] of the pattern, tried at the start of [s]: the
    shortest run of characters that is followed by a closing parenthesis. *)
Fixpoint lazyUntilClose (s : string) : option string :=
  match s with
  | EmptyString => None
  | String c rest =>
      if (c =? ")")%char then Some EmptyString
      else if isLineTerminator c then None
      else option_map (String c) (lazyUntilClose rest)
  end.

(** [/=\((.*?)\)/g.exec(s)]: the capture group of the leftmost match. *)
Fixpoint execKeyPattern (s : string) : option string :=
  match s with
  | EmptyString => None
  | String c rest =>
      match
        (if (c =? "=")%char
         then match rest with
              | String "(" body => lazyUntilClose body
              | _ => None
              end
         else None)
      with
      | Some captured => Some captured
      | None => execKeyPattern rest
      end
  end.

Definition extractUuidKeyFromConstraintViolationError (err : Error)
  : string :=
  match execKeyPattern (Js.toString (detail err)) with
  | Some key => key
  | None => "[unable to parse]"
  end.

(** The value this function returns is thrown by its caller. *)
Definition handlePotentialConcurrencyError (error : Error)
  (expectedVersion : JsVal) (again : Error -> Error) : Error :=
  if isConcurrencyUniqueConstraintViolation error then
    if strictEqNum expectedVersion ExpectedVersion.Any then again error
    else ConcurrencyError
  else if isDuplicateMessageIdUniqueConstraintViolation error then
    DuplicateMessageError (extractUuidKeyFromConstraintViolationError error)
  else error.

Definition throwIfErrorCode (version : Z) : Outcome unit :=
  if version =? AppendResultCodes.ConcurrencyIssue
  then Thrown ConcurrencyError
  else Returned tt.

Definition mapMessageResult (message : MessageRow.t) : StreamMessage.t :=
  {| StreamMessage.streamId := MessageRow.stream_id message;
     StreamMessage.messageId := MessageRow.message_id message;
     StreamMessage.data := MessageRow.data message;
     StreamMessage.meta := MessageRow.meta message;
     StreamMessage.createdAt := MessageRow.created_at message;
     StreamMessage.type := MessageRow.type message;
     StreamMessage.position := MessageRow.position message;
     StreamMessage.streamVersion := MessageRow.stream_version message |}.

(** [messages.length > 0 ? messages[messages.length - 1] : null] *)
Definition lastOf {A} (l : list A) : option A := List.last (map Some l) None.

Definition mapReadStreamResult (messages : list MessageRow.t)
  (streamInfo : StreamInfoRow.t) (isEnd forward : bool)
  : Outcome ReadStreamResult.t :=
  let lastMessage := lastOf messages in
  andThenWith
    (if forward then
       Returned
         (match lastMessage with
          | Some m =>
              if isEnd then StreamInfoRow.stream_version streamInfo
              else MessageRow.stream_version m
          | None => StreamInfoRow.stream_version streamInfo
          end + 1)
     else
       andThenWith
         (if isEnd then Returned 0
          else match lastMessage with
               | Some m => Returned (MessageRow.stream_version m)
               | None =>
                   Thrown
                     (RuntimeError
                        "Cannot read property 'stream_version' of null")
               end)
         (fun v => Returned (Z.max 0 (v - 1))))
    (fun nextVersion =>
       Returned
         {| ReadStreamResult.streamId := JStr (StreamInfoRow.id streamInfo);
            ReadStreamResult.streamVersion :=
              StreamInfoRow.stream_version streamInfo;
            ReadStreamResult.streamPosition :=
              StreamInfoRow.position streamInfo;
            ReadStreamResult.maxAge :=
              Js.or (StreamInfoRow.max_age streamInfo) JNull;
            ReadStreamResult.maxCount :=
              Js.or (StreamInfoRow.max_count streamInfo) JNull;
            ReadStreamResult.streamType :=
              StreamInfoRow.stream_type streamInfo;
            ReadStreamResult.nextVersion := nextVersion;
            ReadStreamResult.isEnd := isEnd;
            ReadStreamResult.messages := map mapMessageResult messages |}).

Definition createStreamDeletedPayload (streamId : JsVal) : JsVal :=
  JObj [("streamId", streamId)].

(** The template literal [`$$${streamId}`]. *)
Definition toMetadataStreamId (streamId : JsVal) : string :=
  "$$" ++ Js.toString streamId.

Definition isMetaStream (streamId : string) : bool :=
  startsWith streamId "$".

(** The older revision of the file used another scheme. *)
Module Legacy.
Definition toMetadataStreamId (streamId : JsVal) : string :=
  "$$ meta-" ++ Js.toString streamId ++ " $$".
End Legacy.

(* ===================================================================== *)
(** ** Gap detection ([utils/gap-detection.ts]) *)
(* ===================================================================== *)

Module GapDetection.

(** Some adjacent pair of positions is more than one apart. *)
Fixpoint hasGap (positions : list Z) : bool :=
  match positions with
  | a :: ((b :: _) as rest) => (1 <? b - a) || hasGap rest
  | _ => false
  end.

Fixpoint parsedPositions (messages : list StreamMessage.t) : list Z :=
  match messages with
  | [] => []
  | m :: rest =>
      match BigInteger.parse (StreamMessage.position m) with
      | Some p => p :: parsedPositions rest
      | None => parsedPositions rest
      end
  end.

(** Modelled from the spec: [detectGapsAndReloadAll] lives in
    [utils/gap-detection.ts], which is not among the sources.  It performs
    one raw forward read; the page is returned as it is when [count] is
    zero, when fewer than [count] rows came back, or when no adjacent
    positions are more than one apart; otherwise it waits and reads again,
    up to [reloadTimes] times, and then returns the page with its gap. *)
Fixpoint detectGapsAndReloadAll (reloadDelay : Z) (reloadTimes : nat)
  (fromPositionInclusive : JsVal) (count : Z)
  (readAll : JsVal -> Z -> ReadDirection -> M ReadAllResult.t)
  : M ReadAllResult.t :=
  result <- readAll fromPositionInclusive count Forward ;;
  let messages := ReadAllResult.messages result in
  if (count =? 0) || (Z.of_nat (length messages) <? count)
     || negb (hasGap (parsedPositions messages))
  then ret result
  else
    match reloadTimes with
    | O => ret result
    | S fewer =>
        emit (GapReloadDelay reloadDelay) ;;
        detectGapsAndReloadAll reloadDelay fewer fromPositionInclusive count
          readAll
    end.

End GapDetection.

(* ===================================================================== *)
(** ** [createPostgresStreamStore] *)
(* ===================================================================== *)

Section StreamStore.

(** [Position.End] is declared in [types/messages.ts], which is not among
    the sources; the store only compares against it. *)
Variable Position_End : Z.

Variable config : PgStreamStoreConfig.t.
Variable pool : Driver.

(** [v4()] of the library uuid; the argument is the length of the trace
    at the time of the call. *)
Variable v4 : nat -> string.

Definition gapReloadDelay : Z :=
  match PgStreamStoreConfig.gapReloadDelay config with
  | Some d => if d =? 0 then 5000 else d
  | None => 5000
  end.

Definition gapReloadTimes : nat :=
  match PgStreamStoreConfig.gapReloadTimes config with
  | Some O | None => 1%nat
  | Some n => n
  end.

Definition notifierConfig : NotifierConfig.t :=
  match PgStreamStoreConfig.notifierConfig config with
  | Some c => c
  | None =>
      {| NotifierConfig.type := "poll";
         NotifierConfig.pollingInterval := None;
         NotifierConfig.keepAliveInterval := None |}
  end.

Definition scavengeSynchronously : bool :=
  PgStreamStoreConfig.scavengeSynchronously config.

(** [config.getCurrentTime || (() => null)] *)
Definition getCurrentTime : M JsVal :=
  fun s =>
    (Returned
       match PgStreamStoreConfig.getCurrentTime config with
       | Some clock => clock (length (trace s))
       | None => JNull
       end, s).

Definition uuidV4 : M JsVal :=
  fun s => (Returned (JStr (v4 (length (trace s)))), s).

(** The state of a store that was just created. *)
Definition createPostgresStreamStore : Store :=
  {| disposing := false;
     writeLatch := 0;
     notifier := None;
     subscriptions := [];
     trace := [] |}.

Definition retryOpts : RetryOptions.t :=
  {| RetryOptions.factor := 1.05;
     RetryOptions.tries := 200;
     RetryOptions.minTimeout := 0;
     RetryOptions.maxTimeout := 50 |}.

Definition insertMessages (streamId expectedVersion : JsVal)
  (newMessages : list NewStreamMessage.t) : M InsertResult.t :=
  now <- getCurrentTime ;;
  query (run_append pool)
    (QAppend streamId (toMetadataStreamId streamId) expectedVersion now
       newMessages).

(** The body is a stub in the source: it returns for an operational
    stream and does nothing otherwise. *)
Definition maybeScavenge (streamId maxAge maxCount : JsVal) : M unit :=
  match streamId with
  | JStr id => if startsWith id "$" then ret tt else ret tt
  | _ => ret tt
  end.

(** The checks at the head of [appendToStream].  [newMessages] is a list
    here, so the check that it is present always passes. *)
Definition checkAppendArguments (streamId expectedVersion : JsVal)
  (newMessages : list NewStreamMessage.t) : Outcome unit :=
  andThen (Invariant.requiredString "streamId" streamId)
  (andThen (Invariant.notOperationalStream "streamId" streamId)
  (andThen (Invariant.required "expectedVersion" expectedVersion)
  (forEach newMessages (fun m i =>
     let field := "newMessages[" ++ nat_toString i ++ "]." in
     andThen
       (Invariant.required (field ++ "messageId")
          (NewStreamMessage.messageId m))
     (andThen
       (Invariant.uuid (field ++ "messageId")
          (NewStreamMessage.messageId m))
     (andThen
       (Invariant.required (field ++ "type") (NewStreamMessage.type m))
       (Invariant.required (field ++ "data")
          (NewStreamMessage.data m)))))))).

(** One attempt of the append; [retry] hands it [again]. *)
Definition retryableAppendToStream (streamId expectedVersion : JsVal)
  (newMessages : list NewStreamMessage.t) (again : Error -> Error)
  : M InsertResult.t :=
  tryCatch
    (row <- insertMessages streamId expectedVersion newMessages ;;
     lift (throwIfErrorCode (InsertResult.current_version row)) ;;
     ret row)
    (fun error =>
       throw (handlePotentialConcurrencyError error expectedVersion again)).

Definition appendToStream (streamId expectedVersion : JsVal)
  (newMessages : list NewStreamMessage.t) : M AppendToStreamResult.t :=
  lift (checkAppendArguments streamId expectedVersion newMessages) ;;
  isDisposing <- gets disposing ;;
  if isDisposing : bool then
    throw
      (DisposedError
         "The stream store has been disposed and is not accepting writes.")
  else
    modify latchEnter ;;
    tryFinally
      (row <- Fejl.retry
                (retryableAppendToStream streamId expectedVersion newMessages)
                retryOpts ;;
       maybeScavenge streamId (InsertResult.max_age row)
         (InsertResult.max_count row) ;;
       stillDisposing <- gets disposing ;;
       (if scavengeSynchronously || stillDisposing
        then ret tt (* await scavengePromise *)
        else ret tt) ;;
       ret {| AppendToStreamResult.streamPosition :=
                InsertResult.current_position row;
              AppendToStreamResult.streamVersion :=
                InsertResult.current_version row |})
      latchExit.

Definition readHeadPosition : M JsVal :=
  pos <- query (run_readHeadPosition pool) QReadHeadPosition ;;
  ret (Js.or pos (JStr "0")).

Definition readStream (streamId : JsVal) (fromVersionInclusive : Z)
  (count : Z) (direction : ReadDirection) : M ReadStreamResult.t :=
  lift (Invariant.requiredString "streamId" streamId) ;;
  lift (Invariant.required "afterVersion" (JNum fromVersionInclusive)) ;;
  lift (Invariant.required "count" (JNum count)) ;;
  lift (Invariant.assert (0 <? count) "count must be greater than zero") ;;
  let fromVersionInclusive :=
    if fromVersionInclusive =? Position_End then MAX_SAFE_INTEGER
    else fromVersionInclusive in
  let forward := isForward direction in
  result <- query (run_readStream pool)
              (QReadStream streamId (Z.max 0 fromVersionInclusive)
                 (count + 1) forward) ;;
  let (rows, infoRow) :=
    result : list MessageRow.t * option StreamInfoRow.t in
  match infoRow with
  | None =>
      ret {| ReadStreamResult.nextVersion := 0;
             ReadStreamResult.streamId := streamId;
             ReadStreamResult.streamPosition := "0";
             ReadStreamResult.streamVersion := 0;
             ReadStreamResult.maxAge := JNum 0;
             ReadStreamResult.maxCount := JNum 0;
             ReadStreamResult.streamType := JUndefined;
             ReadStreamResult.isEnd := true;
             ReadStreamResult.messages := [] |}
  | Some streamInfo =>
      if Z.of_nat (length rows) =? count + 1 then
        (* Remove the extra end-check probe message *)
        lift (mapReadStreamResult (removelast rows) streamInfo false forward)
      else
        lift (mapReadStreamResult rows streamInfo true forward)
  end.

Definition readAllInternal (fromPositionInclusive : JsVal) (count : Z)
  (direction : ReadDirection) : M ReadAllResult.t :=
  let fromPositionInclusive :=
    if String.eqb (Js.toString fromPositionInclusive)
         (Z_toString Position_End)
    then JStr MAX_BIG_VALUE
    else fromPositionInclusive in
  let forward := isForward direction in
  rows <- query (run_readAllMessages pool)
            (QReadAllMessages (count + 1) fromPositionInclusive forward) ;;
  let messages := map mapMessageResult rows in
  match messages with
  | [] =>
      ret {| ReadAllResult.isEnd := true;
             ReadAllResult.messages := [];
             ReadAllResult.nextPosition :=
               if forward then Js.toString fromPositionInclusive else "0" |}
  | _ :: _ =>
      let probe := Z.of_nat (length messages) =? count + 1 in
      let isEnd := negb probe in
      let messages := if probe then removelast messages else messages in
      match lastOf messages with
      | None =>
          throw (RuntimeError "Cannot read property 'position' of undefined")
      | Some lastMessage =>
          match BigInteger.parse (StreamMessage.position lastMessage) with
          | None => throw (RuntimeError "Invalid integer")
          | Some position =>
              let nextPosition :=
                if forward then
                  BigInteger.toString (BigInteger.plus position BigInteger.one)
                else
                  BigInteger.toString
                    (BigInteger.max
                       (BigInteger.minus position BigInteger.one)
                       BigInteger.zero) in
              ret {| ReadAllResult.isEnd := isEnd;
                     ReadAllResult.nextPosition := nextPosition;
                     ReadAllResult.messages := messages |}
          end
      end
  end.

Definition readAll (fromPositionInclusive : JsVal) (count : Z)
  (direction : ReadDirection) : M ReadAllResult.t :=
  lift (Invariant.required "fromPositionInclusive" fromPositionInclusive) ;;
  lift (Invariant.required "count" (JNum count)) ;;
  lift (Invariant.assert (0 <? count) "count should be greater than zero") ;;
  match direction with
  | Forward =>
      (* This function reloads the page if gaps are detected. *)
      GapDetection.detectGapsAndReloadAll gapReloadDelay gapReloadTimes
        fromPositionInclusive count readAllInternal
  | Backward => readAllInternal fromPositionInclusive count Backward
  end.

Definition getStreamMetadata (streamId : JsVal)
  : M StreamMetadataResult.t :=
  lift (Invariant.requiredString "streamId" streamId) ;;
  result <- readStream (JStr (toMetadataStreamId streamId)) Position_End 1
              Backward ;;
  match ReadStreamResult.messages result with
  | [message] =>
      match StreamMessage.data message with
      | JUndefined | JNull =>
          (* [message.data.metadata] on a payload that is no object *)
          throw (RuntimeError "Cannot read property 'metadata' of null")
      | data =>
          ret {| StreamMetadataResult.metadata := Js.get data "metadata";
                 StreamMetadataResult.metadataStreamVersion :=
                   ReadStreamResult.streamVersion result;
                 StreamMetadataResult.streamId := streamId;
                 StreamMetadataResult.maxAge :=
                   Js.or (Js.get data "maxAge") JNull;
                 StreamMetadataResult.maxCount :=
                   Js.or (Js.get data "maxCount") JNull |}
      end
  | _ =>
      ret {| StreamMetadataResult.streamId := streamId;
             StreamMetadataResult.metadata := JNull;
             StreamMetadataResult.metadataStreamVersion := -1;
             StreamMetadataResult.maxAge := JNull;
             StreamMetadataResult.maxCount := JNull |}
  end.

Definition setStreamMetadata (streamId expectedVersion opts : JsVal)
  : M Z :=
  lift (Invariant.requiredString "streamId" streamId) ;;
  lift (Invariant.required "expectedVersion" expectedVersion) ;;
  lift (Invariant.required "opts" opts) ;;
  let metaStreamId := toMetadataStreamId streamId in
  modify latchEnter ;;
  tryFinally
    (let maxAge := Js.or (Js.get opts "maxAge") JNull in
     let maxCount := Js.or (Js.get opts "maxCount") JNull in
     let data :=
       JObj [("metadata", Js.or (Js.get opts "metadata") (JObj []));
             ("maxAge", maxAge);
             ("maxCount", maxCount)] in
     now <- getCurrentTime ;;
     messageId <- uuidV4 ;;
     current_version <-
       query (run_setStreamMetadata pool)
         (QSetStreamMetadata streamId metaStreamId expectedVersion
            maxAge maxCount now
            {| NewStreamMessage.data := data;
               NewStreamMessage.messageId := messageId;
               NewStreamMessage.type := JStr OperationalMessageType.Metadata;
               NewStreamMessage.meta := JUndefined |}) ;;
     lift (throwIfErrorCode current_version) ;;
     maybeScavenge streamId maxAge maxCount ;;
     ret current_version)
    latchExit.

(** One attempt of the deletion. *)
Definition retryableDeleteStream (streamId expectedVersion : JsVal)
  (again : Error -> Error) : M unit :=
  tryCatch
    (now <- getCurrentTime ;;
     messageId <- uuidV4 ;;
     result <-
       query (run_deleteStream pool)
         (QDeleteStream streamId OperationalStream.Deleted expectedVersion
            now
            {| NewStreamMessage.type :=
                 JStr OperationalMessageType.StreamDeleted;
               NewStreamMessage.messageId := messageId;
               NewStreamMessage.data := createStreamDeletedPayload streamId;
               NewStreamMessage.meta := JUndefined |}) ;;
     lift (throwIfErrorCode result))
    (fun error =>
       throw (handlePotentialConcurrencyError error expectedVersion again)).

(** The promise made by [retry] is returned from inside the [try] block
    without being awaited, and a transaction first has to obtain a
    connection: the [finally] clause leaves the latch before the statement
    reaches the pool. *)
Definition deleteStream (streamId expectedVersion : JsVal) : M unit :=
  lift (Invariant.requiredString "streamId" streamId) ;;
  lift (Invariant.notOperationalStream "streamId" streamId) ;;
  lift (Invariant.required "expectedVersion" expectedVersion) ;;
  modify latchEnter ;;
  pending <-
    tryFinally
      (ret (Fejl.retry (retryableDeleteStream streamId expectedVersion)
              retryOpts))
      latchExit ;;
  pending.

Definition deleteMessages (streamId : JsVal) (messageIds : list JsVal)
  : M unit :=
  modify latchEnter ;;
  tryFinally
    (query (run_deleteMessages pool) (QDeleteMessages streamId messageIds))
    latchExit.

Definition deleteMessage (streamId messageId : JsVal) : M unit :=
  deleteMessages streamId [messageId].

(** Modelled from the spec: [createPollingNotifier] and
    [createPostgresNotifier] are not among the sources.  Each call makes a
    new notifier object, so its reference is fresh. *)
Definition createNotifier (kind : NotifierKind) : M StreamStoreNotifier :=
  fun s =>
    let made :=
      {| notifier_ref := length (notifiersCreated (trace s));
         notifier_kind := kind |} in
    (Returned made, record (NotifierCreated made) s).

Definition setNotifier (n : StreamStoreNotifier) (s : Store) : Store :=
  {| disposing := disposing s;
     writeLatch := writeLatch s;
     notifier := Some n;
     subscriptions := subscriptions s;
     trace := trace s |}.

(** Gets or initializes a notifier. *)
Definition getNotifier : M StreamStoreNotifier :=
  cached <- gets notifier ;;
  match cached with
  | Some n => ret n
  | None =>
      made <-
        (if String.eqb (NotifierConfig.type notifierConfig) "pg-notify"
         then
           createNotifier
             (PostgresNotifier
                (NotifierConfig.keepAliveInterval notifierConfig))
         else
           createNotifier
             (PollingNotifier
                match NotifierConfig.pollingInterval notifierConfig with
                | Some interval => if interval =? 0 then 500 else interval
                | None => 500
                end)) ;;
      modify (setNotifier made) ;;
      ret made
  end.

(** Modelled from the spec: [createStreamSubscription] and
    [createAllSubscription] are not among the sources.  Each call makes a
    new subscription object around the notifier it is given. *)
Definition createSubscription (stream : option JsVal)
  (n : StreamStoreNotifier) : M Subscription :=
  fun s =>
    let made :=
      {| subscription_ref := length (subscriptionsCreated (trace s));
         subscription_stream := stream;
         subscription_notifier := n |} in
    (Returned made, record (SubscriptionCreated made) s).

Definition setSubscriptions (l : list Subscription) (s : Store) : Store :=
  {| disposing := disposing s;
     writeLatch := writeLatch s;
     notifier := notifier s;
     subscriptions := l;
     trace := trace s |}.

(** [subscriptions.push(subscription)] *)
Definition pushSubscription (sub : Subscription) : M unit :=
  modify (fun s => setSubscriptions (subscriptions s ++ [sub]) s).

(** The message processor and the caller's options are callbacks of the
    subscription driver and play no part in the state of the store. *)
Definition subscribeToStream (streamId : JsVal) : M Subscription :=
  n <- getNotifier ;;
  subscription <- createSubscription (Some streamId) n ;;
  pushSubscription subscription ;;
  ret subscription.

Definition subscribeToAll : M Subscription :=
  n <- getNotifier ;;
  subscription <- createSubscription None n ;;
  pushSubscription subscription ;;
  ret subscription.

(** [array.indexOf(x)], comparing objects by identity; [-1] when absent. *)
Fixpoint indexOfFrom (i : Z) (sub : Subscription) (l : list Subscription)
  : Z :=
  match l with
  | [] => -1
  | x :: rest =>
      if Nat.eqb (subscription_ref x) (subscription_ref sub) then i
      else indexOfFrom (i + 1) sub rest
  end.

Fixpoint removeAt {A} (i : nat) (l : list A) : list A :=
  match l, i with
  | [], _ => []
  | _ :: rest, O => rest
  | x :: rest, S j => x :: removeAt j rest
  end.

(** [array.splice(start, 1)]: a negative [start] counts from the end. *)
Definition spliceOne {A} (start : Z) (l : list A) : list A :=
  let len := Z.of_nat (length l) in
  let from := if start <? 0 then Z.max (len + start) 0 else Z.min start len in
  removeAt (Z.to_nat from) l.

(** The [dispose] option that the store hands to each subscription, which
    the subscription calls when it is disposed: the subscription is taken
    out of the tracked list. *)
Definition disposeSubscription (sub : Subscription) : M unit :=
  emit (SubscriptionDisposed sub) ;;
  modify (fun s =>
            setSubscriptions
              (spliceOne (indexOfFrom 0 sub (subscriptions s))
                 (subscriptions s)) s).

Fixpoint forEachM {A} (l : list A) (f : A -> M unit) : M unit :=
  match l with
  | [] => ret tt
  | x :: rest => f x ;; forEachM rest f
  end.

Definition setDisposing (s : Store) : Store :=
  {| disposing := true;
     writeLatch := writeLatch s;
     notifier := notifier s;
     subscriptions := subscriptions s;
     trace := trace s |}.

(** Modelled from the spec: [subscription.dispose()] belongs to the
    subscription drivers made by [createStreamSubscription] and
    [createAllSubscription], which are not among the sources.  The
    specification has a subscription that shuts down call the [dispose]
    callback it was configured with, by which the store takes it out of
    the tracked set; the call is taken to succeed. *)
Definition subscriptionDispose : Subscription -> M unit :=
  disposeSubscription.

(** Modelled from the spec: what
    [await Promise.all(subscriptions.map(s => s.dispose()))] comes to.
    The source makes the calls in the order of the registry as it is when
    [map] starts; what a driver does once it is called is not among the
    sources, and the drivers are taken to settle one after the other in
    that order. *)
Definition disposeAll (tracked : list Subscription) : M unit :=
  forEachM tracked subscriptionDispose.

(** The body of [dispose] around the disposal of the subscriptions:
    [awaitAll] stands for
    [await Promise.all(subscriptions.map(s => s.dispose()))]. *)
Definition disposeWith (awaitAll : list Subscription -> M unit) : M unit :=
  modify setDisposing ;;
  tracked <- gets subscriptions ;;
  awaitAll tracked ;;
  cached <- gets notifier ;;
  match cached with
  | Some n => emit (NotifierDisposed n)
  | None => ret tt
  end ;;
  emit LatchWait ;;
  emit PoolEnded.

(** [dispose], with the subscription drivers as [disposeAll] has them. *)
Definition dispose : M unit := disposeWith disposeAll.

End StreamStore.

(* ===================================================================== *)
(** * Vocabulary of the statements *)
(* ===================================================================== *)

Fixpoint allChars (p : ascii -> bool) (s : string) : bool :=
  match s with
  | EmptyString => true
  | String c rest => p c && allChars p rest
  end.

(** A character that may occur inside the captured key. *)
Definition keyChar (c : ascii) : bool :=
  negb (c =? ")")%char && negb (isLineTerminator c).

(** The statement [readStream] sends to the pool. *)
Definition readStreamQuery (Position_End : Z) (streamId : JsVal)
  (fromVersionInclusive count : Z) (direction : ReadDirection) : Query :=
  QReadStream streamId
    (Z.max 0
       (if fromVersionInclusive =? Position_End then MAX_SAFE_INTEGER
        else fromVersionInclusive))
    (count + 1) (isForward direction).

(** The result [readStream] returns for a stream that has no info row. *)
Definition zeroReadStreamResult (streamId : JsVal) : ReadStreamResult.t :=
  {| ReadStreamResult.nextVersion := 0;
     ReadStreamResult.streamId := streamId;
     ReadStreamResult.streamPosition := "0";
     ReadStreamResult.streamVersion := 0;
     ReadStreamResult.maxAge := JNum 0;
     ReadStreamResult.maxCount := JNum 0;
     ReadStreamResult.streamType := JUndefined;
     ReadStreamResult.isEnd := true;
     ReadStreamResult.messages := [] |}.

(** The answer of the pool to the next statement, were it [q]. *)
Definition nextAnswer {A} (run : nat -> Query -> Outcome A) (s : Store)
  (q : Query) : Outcome A :=
  run (length (issued (trace s))) q.

(** The position [readAllInternal] reads from once the sentinel has been
    replaced. *)
Definition readAllFrom (Position_End : Z) (fromPositionInclusive : JsVal)
  : JsVal :=
  if String.eqb (Js.toString fromPositionInclusive) (Z_toString Position_End)
  then JStr MAX_BIG_VALUE
  else fromPositionInclusive.

(** The statement [readAllInternal] sends to the pool. *)
Definition readAllQuery (Position_End : Z) (fromPositionInclusive : JsVal)
  (count : Z) (direction : ReadDirection) : Query :=
  QReadAllMessages (count + 1)
    (readAllFrom Position_End fromPositionInclusive) (isForward direction).

(** The rows of an answer that make up the page: the probe row, when it
    came back, is dropped. *)
Definition pageOf {A} (count : Z) (rows : list A) : list A :=
  if Z.of_nat (length rows) =? count + 1 then removelast rows else rows.

(** Running [m] takes every state to a state related to it by [R]. *)
Definition steps (R : Store -> Store -> Prop) {A} (m : M A) : Prop :=
  forall s, R s (snd (m s)).

(** [s'] extends the trace of [s] by events that all satisfy [P]. *)
Definition emitsOnly (P : Event -> Prop) (s s' : Store) : Prop :=
  exists t, trace s' = (trace s ++ t)%list /\ Forall P t.

(** The statements that running [m] from [s] sends to the pool. *)
Definition issuedBy {A} (m : M A) (s : Store) : list Query :=
  skipn (length (issued (trace s))) (issued (trace (snd (m s)))).


(** The value of [getCurrentTime()] when the trace has [n] events. *)
Definition timeAt (config : PgStreamStoreConfig.t) (n : nat) : JsVal :=
  match PgStreamStoreConfig.getCurrentTime config with
  | Some clock => clock n
  | None => JNull
  end.

(** The statement that an attempt of [appendToStream] sends when it
    starts in state [s]. *)
Definition appendQuery (config : PgStreamStoreConfig.t)
  (streamId expectedVersion : JsVal)
  (newMessages : list NewStreamMessage.t) (s : Store) : Query :=
  QAppend streamId (toMetadataStreamId streamId) expectedVersion
    (timeAt config (length (trace s))) newMessages.

(** What an attempt of [appendToStream] throws or returns for an answer
    of the pool. *)
Definition attemptOutcome (expectedVersion : JsVal)
  (answer : Outcome InsertResult.t) : Outcome InsertResult.t :=
  match answer with
  | Returned row =>
      if InsertResult.current_version row
         =? AppendResultCodes.ConcurrencyIssue
      then Thrown ConcurrencyError
      else Returned row
  | Thrown e => Thrown (handlePotentialConcurrencyError e expectedVersion Again)
  end.

(** The state in which an attempt starts when the [retries] attempts
    before it, the first of them numbered [attempt] and started in [st],
    all asked to be run again: each of them issued its statement and was
    followed by a pause. *)
Fixpoint retried (config : PgStreamStoreConfig.t)
  (streamId expectedVersion : JsVal)
  (newMessages : list NewStreamMessage.t) (attempt : nat) (st : Store)
  (retries : nat) : Store :=
  match retries with
  | O => st
  | S fewer =>
      retried config streamId expectedVersion newMessages (S attempt)
        (record (Backoff attempt retryOpts)
           (record
              (Issued
                 (appendQuery config streamId expectedVersion newMessages st))
              st))
        fewer
  end.

(** The state in which attempt [i] of an [appendToStream] call made in
    state [s] starts. *)
Definition attemptState (config : PgStreamStoreConfig.t)
  (streamId expectedVersion : JsVal)
  (newMessages : list NewStreamMessage.t) (s : Store) (i : nat) : Store :=
  retried config streamId expectedVersion newMessages 0 (latchEnter s) i.

(** The answer of the pool to attempt [i]. *)
Definition attemptAnswer (config : PgStreamStoreConfig.t) (pool : Driver)
  (streamId expectedVersion : JsVal)
  (newMessages : list NewStreamMessage.t) (s : Store) (i : nat)
  : Outcome InsertResult.t :=
  let st := attemptState config streamId expectedVersion newMessages s i in
  nextAnswer (run_append pool) st
    (appendQuery config streamId expectedVersion newMessages st).

(** The state an [appendToStream] call made in [s] ends in when attempt
    [i] was its last. *)
Definition settledAfter (config : PgStreamStoreConfig.t)
  (streamId expectedVersion : JsVal)
  (newMessages : list NewStreamMessage.t) (s : Store) (i : nat) : Store :=
  let st := attemptState config streamId expectedVersion newMessages s i in
  latchExit
    (record
       (Issued (appendQuery config streamId expectedVersion newMessages st))
       st).

(** Attempt [i] hits a unique-constraint violation that signals a
    concurrency conflict. *)
Definition conflictAt (config : PgStreamStoreConfig.t) (pool : Driver)
  (streamId expectedVersion : JsVal)
  (newMessages : list NewStreamMessage.t) (s : Store) (i : nat) : Prop :=
  exists e,
    attemptAnswer config pool streamId expectedVersion newMessages s i
    = Thrown e
    /\ isConcurrencyUniqueConstraintViolation e = true.

(** The pauses between attempts among the events, oldest first: for each
    of them the number of the attempt that asked to be run again and the
    options under which the pause was taken. *)
Fixpoint backoffs (t : list Event) : list (nat * RetryOptions.t) :=
  match t with
  | [] => []
  | Backoff attempt opts :: rest => (attempt, opts) :: backoffs rest
  | _ :: rest => backoffs rest
  end.

(** A value is present: neither [undefined] nor [null]. *)
Definition present (v : JsVal) : Prop := v <> JUndefined /\ v <> JNull.

(** A stream id that callers may write to: a non-empty string that does
    not begin with [$]. *)
Definition writableStreamId (v : JsVal) : Prop :=
  exists sid, v = JStr sid /\ sid <> "" /\ startsWith sid "$" = false.

(** A message that may be appended: its [messageId] is a UUID, its [type]
    is present and not empty, its [data] is present. *)
Definition wellFormedMessage (m : NewStreamMessage.t) : Prop :=
  (exists u, NewStreamMessage.messageId m = JStr u
             /\ Invariant.isUuid u = true)
  /\ (present (NewStreamMessage.type m)
      /\ NewStreamMessage.type m <> JStr "")
  /\ present (NewStreamMessage.data m).

(** The message of the error thrown at the dispose gate. *)
Definition disposedMessage : string :=
  "The stream store has been disposed and is not accepting writes.".

(** A call on the public surface of the store, or the disposal of one of
    its subscriptions. *)
Inductive Call : Type :=
| CallAppendToStream (streamId expectedVersion : JsVal)
    (newMessages : list NewStreamMessage.t)
| CallReadHeadPosition
| CallReadAll (fromPositionInclusive : JsVal) (count : Z)
    (direction : ReadDirection)
| CallReadStream (streamId : JsVal) (fromVersionInclusive count : Z)
    (direction : ReadDirection)
| CallGetStreamMetadata (streamId : JsVal)
| CallSetStreamMetadata (streamId expectedVersion opts : JsVal)
| CallSubscribeToStream (streamId : JsVal)
| CallSubscribeToAll
| CallDeleteMessage (streamId messageId : JsVal)
| CallDeleteStream (streamId expectedVersion : JsVal)
| CallDispose
| CallDisposeSubscription (subscription : Subscription).

Definition isSubscribe (c : Call) : bool :=
  match c with
  | CallSubscribeToStream _ | CallSubscribeToAll => true
  | _ => false
  end.

(** The state after a call has settled, whatever it returned or threw. *)
Definition perform (Position_End : Z) (config : PgStreamStoreConfig.t)
  (pool : Driver) (v4 : nat -> string) (c : Call) (s : Store) : Store :=
  match c with
  | CallAppendToStream streamId expectedVersion newMessages =>
      snd (appendToStream config pool streamId expectedVersion newMessages s)
  | CallReadHeadPosition => snd (readHeadPosition pool s)
  | CallReadAll fromPositionInclusive count direction =>
      snd (readAll Position_End config pool fromPositionInclusive count
             direction s)
  | CallReadStream streamId fromVersionInclusive count direction =>
      snd (readStream Position_End pool streamId fromVersionInclusive count
             direction s)
  | CallGetStreamMetadata streamId =>
      snd (getStreamMetadata Position_End pool streamId s)
  | CallSetStreamMetadata streamId expectedVersion opts =>
      snd (setStreamMetadata config pool v4 streamId expectedVersion opts s)
  | CallSubscribeToStream streamId => snd (subscribeToStream config streamId s)
  | CallSubscribeToAll => snd (subscribeToAll config s)
  | CallDeleteMessage streamId messageId =>
      snd (deleteMessage pool streamId messageId s)
  | CallDeleteStream streamId expectedVersion =>
      snd (deleteStream config pool v4 streamId expectedVersion s)
  | CallDispose => snd (dispose s)
  | CallDisposeSubscription subscription =>
      snd (disposeSubscription subscription s)
  end.

(** The state of a store after a sequence of calls. *)
Definition runCalls (Position_End : Z) (config : PgStreamStoreConfig.t)
  (pool : Driver) (v4 : nat -> string) (calls : list Call) (s : Store)
  : Store :=
  fold_left (fun st c => perform Position_End config pool v4 c st) calls s.

(** Nothing about notifiers changed between two states: the cached
    notifier is the same one, and no notifier or subscription was
    constructed. *)
Definition sameNotifiers (s s' : Store) : Prop :=
  notifier s' = notifier s
  /\ notifiersCreated (trace s') = notifiersCreated (trace s)
  /\ subscriptionsCreated (trace s') = subscriptionsCreated (trace s).

(** The notifier cache is consistent with the history of the store: with
    an empty cache nothing was constructed yet; otherwise the cached
    notifier is the only one ever constructed and every subscription
    constructed so far was handed that very notifier. *)
Definition notifierCached (s : Store) : Prop :=
  match notifier s with
  | None =>
      notifiersCreated (trace s) = []
      /\ subscriptionsCreated (trace s) = []
  | Some n =>
      notifiersCreated (trace s) = [n]
      /\ Forall (fun sub => subscription_notifier sub = n)
           (subscriptionsCreated (trace s))
  end.

(** The notifier that the configuration asks for. *)
Definition configuredNotifier (config : PgStreamStoreConfig.t)
  : NotifierKind :=
  match PgStreamStoreConfig.notifierConfig config with
  | None => PollingNotifier 500
  | Some c =>
      if String.eqb (NotifierConfig.type c) "pg-notify"
      then PostgresNotifier (NotifierConfig.keepAliveInterval c)
      else
        PollingNotifier
          match NotifierConfig.pollingInterval c with
          | Some 0 | None => 500
          | Some interval => interval
          end
  end.

(** ** Concrete pools, rows and messages on which the statements are run *)

Module Sample.

Definition uuid : string := "123e4567-e89b-12d3-a456-426614174000".

Definition message : NewStreamMessage.t :=
  {| NewStreamMessage.messageId := JStr uuid;
     NewStreamMessage.type := JStr "greeting";
     NewStreamMessage.data := JObj [("hello", JStr "world")];
     NewStreamMessage.meta := JUndefined |}.

Definition config : PgStreamStoreConfig.t :=
  {| PgStreamStoreConfig.notifierConfig := None;
     PgStreamStoreConfig.scavengeSynchronously := false;
     PgStreamStoreConfig.gapReloadDelay := None;
     PgStreamStoreConfig.gapReloadTimes := None;
     PgStreamStoreConfig.getCurrentTime := None |}.

Definition row (version : Z) (position : string) : MessageRow.t :=
  {| MessageRow.stream_id := "orders";
     MessageRow.message_id := uuid;
     MessageRow.data := JObj [("hello", JStr "world")];
     MessageRow.meta := JNull;
     MessageRow.created_at := JNull;
     MessageRow.type := "greeting";
     MessageRow.position := position;
     MessageRow.stream_version := version |}.

Definition info : StreamInfoRow.t :=
  {| StreamInfoRow.id := "orders";
     StreamInfoRow.stream_version := 6;
     StreamInfoRow.position := "17";
     StreamInfoRow.max_age := JNull;
     StreamInfoRow.max_count := JNull;
     StreamInfoRow.stream_type := JUndefined |}.

(** A pool over an empty database. *)
Definition emptyPool : Driver :=
  {| run_append :=
       fun _ _ =>
         Returned
           {| InsertResult.current_version := 0;
              InsertResult.current_position := "1";
              InsertResult.max_count := JNull;
              InsertResult.max_age := JNull |};
     run_readHeadPosition := fun _ _ => Returned JNull;
     run_readStream := fun _ _ => Returned ([], None);
     run_readAllMessages := fun _ _ => Returned [];
     run_setStreamMetadata := fun _ _ => Returned 0;
     run_deleteStream := fun _ _ => Returned 0;
     run_deleteMessages := fun _ _ => Returned tt |}.

(** A pool whose stream [orders] holds versions 0 to 6; every read
    answers with the three rows 3, 4 and 5. *)
Definition ordersPool : Driver :=
  {| run_append := run_append emptyPool;
     run_readHeadPosition := fun _ _ => Returned (JStr "17");
     run_readStream :=
       fun _ _ => Returned ([row 3 "9"; row 4 "12"; row 5 "13"], Some info);
     run_readAllMessages :=
       fun _ _ => Returned [row 3 "9"; row 4 "12"; row 5 "13"];
     run_setStreamMetadata := fun _ _ => Returned 0;
     run_deleteStream := fun _ _ => Returned 0;
     run_deleteMessages := fun _ _ => Returned tt |}.

(** The error the driver raises for a violated unique constraint. *)
Definition uniqueViolation (constraint key : string) : Error :=
  DriverError
    ("duplicate key value violates unique constraint " ++ quoted constraint)
    (JStr ("Key (message_id)=(" ++ key ++ ") already exists.")).

(** The row by which the append procedure reports a version conflict. *)
Definition conflictRow : InsertResult.t :=
  {| InsertResult.current_version := AppendResultCodes.ConcurrencyIssue;
     InsertResult.current_position := "0";
     InsertResult.max_count := JNull;
     InsertResult.max_age := JNull |}.

(** A pool whose append always answers with the given outcome. *)
Definition appendAnswers (answer : Outcome InsertResult.t) : Driver :=
  {| run_append := fun _ _ => answer;
     run_readHeadPosition := run_readHeadPosition emptyPool;
     run_readStream := run_readStream emptyPool;
     run_readAllMessages := run_readAllMessages emptyPool;
     run_setStreamMetadata := run_setStreamMetadata emptyPool;
     run_deleteStream := run_deleteStream emptyPool;
     run_deleteMessages := run_deleteMessages emptyPool |}.

(** A pool whose append hits the given error on the first [failures]
    statements and succeeds afterwards. *)
Definition appendFailsFirst (failures : nat) (e : Error) : Driver :=
  {| run_append :=
       fun n q => if (n <? failures)%nat then Thrown e
                  else run_append emptyPool n q;
     run_readHeadPosition := run_readHeadPosition emptyPool;
     run_readStream := run_readStream emptyPool;
     run_readAllMessages := run_readAllMessages emptyPool;
     run_setStreamMetadata := run_setStreamMetadata emptyPool;
     run_deleteStream := run_deleteStream emptyPool;
     run_deleteMessages := run_deleteMessages emptyPool |}.

End Sample.

(** ** Vocabulary of the further properties *)

(** What an attempt of [deleteStream] throws or returns for an answer of
    the pool. *)
Definition deleteAttemptOutcome (expectedVersion : JsVal)
  (answer : Outcome Z) : Outcome unit :=
  match answer with
  | Returned code =>
      if code =? AppendResultCodes.ConcurrencyIssue
      then Thrown ConcurrencyError
      else Returned tt
  | Thrown e => Thrown (handlePotentialConcurrencyError e expectedVersion Again)
  end.

(** The statement that an attempt of [deleteStream] sends when it starts
    in state [s]. *)
Definition deleteQuery (config : PgStreamStoreConfig.t) (v4 : nat -> string)
  (streamId expectedVersion : JsVal) (s : Store) : Query :=
  QDeleteStream streamId OperationalStream.Deleted expectedVersion
    (timeAt config (length (trace s)))
    {| NewStreamMessage.type := JStr OperationalMessageType.StreamDeleted;
       NewStreamMessage.messageId := JStr (v4 (length (trace s)));
       NewStreamMessage.data := createStreamDeletedPayload streamId;
       NewStreamMessage.meta := JUndefined |}.

(** The payload of the metadata message that [setStreamMetadata] writes
    for the options [opts]. *)
Definition metadataPayload (opts : JsVal) : JsVal :=
  JObj [("metadata", Js.or (Js.get opts "metadata") (JObj []));
        ("maxAge", Js.or (Js.get opts "maxAge") JNull);
        ("maxCount", Js.or (Js.get opts "maxCount") JNull)].

(** The statement that [setStreamMetadata] sends when it is called in
    state [s]. *)
Definition setMetadataQuery (config : PgStreamStoreConfig.t)
  (v4 : nat -> string) (streamId expectedVersion opts : JsVal) (s : Store)
  : Query :=
  QSetStreamMetadata streamId (toMetadataStreamId streamId) expectedVersion
    (Js.or (Js.get opts "maxAge") JNull)
    (Js.or (Js.get opts "maxCount") JNull)
    (timeAt config (S (length (trace s))))
    {| NewStreamMessage.data := metadataPayload opts;
       NewStreamMessage.messageId := JStr (v4 (S (length (trace s))));
       NewStreamMessage.type := JStr OperationalMessageType.Metadata;
       NewStreamMessage.meta := JUndefined |}.

(** Two states agree on the count of the write latch. *)
Definition sameLatch (s s' : Store) : Prop := writeLatch s' = writeLatch s.

(** A store that is being disposed stays so. *)
Definition staysDisposing (s s' : Store) : Prop :=
  disposing s = true -> disposing s' = true.

(** The result of [getStreamMetadata] for a stream without metadata. *)
Definition noMetadata (streamId : JsVal) : StreamMetadataResult.t :=
  {| StreamMetadataResult.streamId := streamId;
     StreamMetadataResult.metadata := JNull;
     StreamMetadataResult.metadataStreamVersion := -1;
     StreamMetadataResult.maxAge := JNull;
     StreamMetadataResult.maxCount := JNull |}.

(** No tracked subscription is the object [sub]. *)
Definition untracked (sub : Subscription) (l : list Subscription) : Prop :=
  Forall
    (fun x => Nat.eqb (subscription_ref x) (subscription_ref sub) = false) l.

(** The states in which an attempt of [deleteStream] starts and in which
    it ends. *)
Definition deleteStart (s : Store) : Store := latchExit (latchEnter s).

(** Pools and rows for running the further properties. *)
Module Fixture.

(** A pool whose metadata and deletion procedures answer with the given
    outcomes, and whose stream reads answer with the given rows. *)
Definition pool (setAnswer deleteAnswer : Outcome Z)
  (rows : list MessageRow.t) (streamInfo : option StreamInfoRow.t)
  : Driver :=
  {| run_append := run_append Sample.emptyPool;
     run_readHeadPosition := run_readHeadPosition Sample.emptyPool;
     run_readStream := fun _ _ => Returned (rows, streamInfo);
     run_readAllMessages := run_readAllMessages Sample.emptyPool;
     run_setStreamMetadata := fun _ _ => setAnswer;
     run_deleteStream := fun _ _ => deleteAnswer;
     run_deleteMessages := run_deleteMessages Sample.emptyPool |}.

(** The options of a [setStreamMetadata] call that sets a maximum age. *)
Definition opts : JsVal :=
  JObj [("metadata", JObj [("owner", JStr "billing")]);
        ("maxAge", JNum 3600)].

(** The row of the metadata message written for [opts]. *)
Definition metadataRow : MessageRow.t :=
  {| MessageRow.stream_id := "$$orders";
     MessageRow.message_id := Sample.uuid;
     MessageRow.data := metadataPayload opts;
     MessageRow.meta := JNull;
     MessageRow.created_at := JNull;
     MessageRow.type := OperationalMessageType.Metadata;
     MessageRow.position := "21";
     MessageRow.stream_version := 2 |}.

Definition metadataInfo : StreamInfoRow.t :=
  {| StreamInfoRow.id := "$$orders";
     StreamInfoRow.stream_version := 2;
     StreamInfoRow.position := "21";
     StreamInfoRow.max_age := JNull;
     StreamInfoRow.max_count := JNull;
     StreamInfoRow.stream_type := JUndefined |}.

End Fixture.

(* ===================================================================== *)
(** * The bootstrapper and the management tool *)
(* ===================================================================== *)

(** [s.includes(sub)], which is also the test [s.indexOf(sub) > -1]. *)
Fixpoint includes (s sub : string) : bool :=
  if String.prefix sub s then true
  else match s with
       | EmptyString => false
       | String _ rest => includes rest sub
       end.

(** [createPostgresStreamStoreBootstrapper].  A run of the bootstrapper is
    a sequence of pools it makes, statements it sends over them and lines
    it logs; the database server is an oracle that may answer a statement
    with an error. *)
Module Bootstrapper.

(** [config.pg] *)
Record PgOptions : Type := {
  host : string;
  port : string;
  database : string;
  schema : string;
  user : string;
  password : string;
  dropIfTest : option bool
}.

(** [{ ...config.pg, database: db }] *)
Definition withDatabase (pg : PgOptions) (db : string) : PgOptions :=
  {| host := host pg;
     port := port pg;
     database := db;
     schema := schema pg;
     user := user pg;
     password := password pg;
     dropIfTest := dropIfTest pg |}.

(** The statements of the bootstrapper, each with the name that is
    formatted into it. *)
Inductive Statement : Type :=
| CloseConnections (db : string)
| DropDatabase (db : string)
| CreateDatabase (db : string)
| SetupSchema (schema : string)
| TeardownSchema (schema : string).

Inductive Event : Type :=
| PoolCreated (options : PgOptions)
| Sent (statement : Statement)
| PoolEnded
| LoggedError (err : Error)
| LoggedDebug (text : string)
| LoggedInfo (text : string)
| LoggedUnknownCommand (cmd : string)
| LoggerCreated (level : string)
| HelpPrinted.

Fixpoint sent (t : list Event) : list Statement :=
  match t with
  | [] => []
  | Sent q :: rest => q :: sent rest
  | _ :: rest => sent rest
  end.

(** The answer of the server to a statement, given the number of
    statements sent before it. *)
Definition Server : Type := nat -> Statement -> Outcome unit.

Definition B (A : Type) : Type := list Event -> Outcome A * list Event.

Definition ret {A} (a : A) : B A := fun t => (Returned a, t).

Definition throw {A} (e : Error) : B A := fun t => (Thrown e, t).

Definition bind {A C} (m : B A) (k : A -> B C) : B C :=
  fun t =>
    match m t with
    | (Returned a, t') => k a t'
    | (Thrown e, t') => (Thrown e, t')
    end.

(** [await m; k] *)
Definition seq {A C} (m : B A) (k : B C) : B C := bind m (fun _ => k).

Definition emit (e : Event) : B unit :=
  fun t => (Returned tt, (t ++ [e])%list).

(** [promise.catch(handler)] *)
Definition catch {A} (m : B A) (handler : Error -> B A) : B A :=
  fun t =>
    match m t with
    | (Thrown e, t') => handler e t'
    | settled => settled
    end.

(** [try { body } finally { await pool.end() }] *)
Definition tryFinally {A} (body : B A) (cleanup : B unit) : B A :=
  fun t =>
    let (r, t') := body t in
    match cleanup t' with
    | (Returned _, t'') => (r, t'')
    | (Thrown e, t'') => (Thrown e, t'')
    end.

Definition lift {A} (o : Outcome A) : B A := fun t => (o, t).

(** [pool.query(sql)], and [runInTransaction(pool, trx => trx.query(sql))]. *)
Definition send (server : Server) (q : Statement) : B unit :=
  fun t => (server (length (sent t)) q, (t ++ [Sent q])%list).

Section Bootstrapper.

Variable pg : PgOptions.
Variable server : Server.

(** If the error is a "already exists" error, just ignore it. *)
Definition ignoreErrorIfExists (err : Error) : B unit :=
  if includes (message err) "already exists" then ret tt else throw err.

(** If the error is a "does not exist" error, just ignore it. *)
Definition ignoreErrorIfNotExists (err : Error) : B unit :=
  if includes (message err) "does not exist" then ret tt else throw err.

(** Creates a database if it does not exist. *)
Definition createDbIfNotExist : B unit :=
  let db := database pg in
  seq (emit (PoolCreated (withDatabase pg "postgres")))
    (tryFinally
       (catch (send server (CreateDatabase db)) ignoreErrorIfExists)
       (emit PoolEnded)).

(** Sets up the Postgres schema. *)
Definition setupPostgresSchema : B unit :=
  seq (emit (PoolCreated pg))
    (tryFinally
       (catch (send server (SetupSchema (schema pg))) ignoreErrorIfExists)
       (emit PoolEnded)).

(** Drops the database if it's a test database and we're in test mode. *)
Definition dropDatabaseIfTest : B unit :=
  let db := database pg in
  if negb match dropIfTest pg with Some b => b | None => false end
     || Bool.eqb (endsWith db "_test") false
  then ret tt
  else
    seq (emit (PoolCreated (withDatabase pg "postgres")))
      (tryFinally
         (seq (send server (CloseConnections db))
            (seq (catch (send server (DropDatabase db))
                    (fun err =>
                       if includes (message err) "does not exist"
                       then ret tt
                       else throw err))
               (emit
                  (LoggedDebug
                     ("Dropped database " ++ db ++ " because drop: true")))))
         (emit PoolEnded)).

(** Drops the Postgres schema. *)
Definition dropPostgresSchema : B unit :=
  seq (emit (PoolCreated pg))
    (tryFinally
       (catch (send server (TeardownSchema (schema pg)))
          ignoreErrorIfNotExists)
       (emit PoolEnded)).

(** Bootstraps the Stream Store database. *)
Definition bootstrap : B unit :=
  catch
    (seq dropDatabaseIfTest (seq createDbIfNotExist setupPostgresSchema))
    (fun err => seq (emit (LoggedError err)) (throw err)).

(** Tears down the database schema. *)
Definition teardown : B unit := dropPostgresSchema.

End Bootstrapper.

End Bootstrapper.

(** The management tool: the script that reads [process.argv]. *)
Module Cli.

Import Bootstrapper.

(** [s.indexOf(c)] for a pattern of one character, counted from [i]. *)
Fixpoint indexOfChar (c : ascii) (s : string) (i : Z) : Z :=
  match s with
  | EmptyString => -1
  | String x rest => if (x =? c)%char then i else indexOfChar c rest (i + 1)
  end.

(** [s.substring(start)] *)
Fixpoint substringFrom (start : nat) (s : string) : string :=
  match start, s with
  | O, _ => s
  | S k, String _ rest => substringFrom k rest
  | S _, EmptyString => EmptyString
  end.

(** Quick and dirty way to grab an option or a default value. *)
Definition getArg (argv : list string) (name defaultValue : string)
  : string :=
  match find (fun x => startsWith x ("--" ++ name)) argv with
  | None => defaultValue
  | Some arg =>
      if String.eqb arg "" then defaultValue
      else
        let eqIdx := indexOfChar "=" arg 0 in
        if eqIdx <? 0 then defaultValue
        else
          let value := substringFrom (Z.to_nat (eqIdx + 1)) arg in
          if String.eqb value "" then defaultValue else value
  end.

(** The level of the console logger that [runCommand] makes. *)
Definition logLevel (argv : list string) : string :=
  if negb (String.eqb (getArg argv "verbose" "false") "false")
  then "trace"
  else "info".

(** The [pg] options that [runCommand] builds; [dropIfTest] is not among
    them. *)
Definition pgOptions (argv : list string) : PgOptions :=
  {| host := getArg argv "host" "localhost";
     port := getArg argv "port" "5432";
     database := getArg argv "db" "streamsource";
     schema := getArg argv "schema" "streamsource";
     user := getArg argv "user" "postgres";
     password := getArg argv "pass" "";
     dropIfTest := None |}.

Definition printHelp : B unit := emit HelpPrinted.

(** The text of the error that is logged for an unknown command is kept
    as the command it names. *)
Definition runCommand (server : Server) (argv : list string) (cmd : string)
  : B unit :=
  seq (emit (LoggerCreated (logLevel argv)))
    (let cfg := pgOptions argv in
     if String.eqb cmd "setup" then
       seq (bootstrap cfg server)
         (emit (LoggedInfo "StreamSource database is ready."))
     else if String.eqb cmd "teardown" then
       seq (teardown cfg server)
         (emit
            (LoggedInfo
               "StreamSource tables, indexes and types have been dropped."))
     else if String.eqb cmd "help" then printHelp
     else emit (LoggedUnknownCommand cmd)).

(** The body of the script: [process.argv[2]] is the command. *)
Definition main (server : Server) (argv : list string) : B unit :=
  match nth_error argv 2 with
  | None => printHelp
  | Some cmd =>
      if String.eqb cmd "" then printHelp
      else catch (runCommand server argv cmd) (fun _ => ret tt)
  end.

End Cli.

(** ** Vocabulary of the bootstrapper properties *)

(** Every pool is ended before the next one is made and before the run is
    over, and statements are sent only over a pool that is open. *)
Fixpoint poolsEnded (open : bool) (t : list Bootstrapper.Event) : bool :=
  match t with
  | [] => negb open
  | Bootstrapper.PoolCreated _ :: rest => negb open && poolsEnded true rest
  | Bootstrapper.Sent _ :: rest => open && poolsEnded open rest
  | Bootstrapper.PoolEnded :: rest => open && poolsEnded false rest
  | _ :: rest => poolsEnded open rest
  end.

(** The statements that were sent, oldest first, each with the options of
    the pool it was sent over. *)
Fixpoint sentOver (pool : option Bootstrapper.PgOptions)
  (t : list Bootstrapper.Event)
  : list (option Bootstrapper.PgOptions * Bootstrapper.Statement) :=
  match t with
  | [] => []
  | Bootstrapper.PoolCreated options :: rest => sentOver (Some options) rest
  | Bootstrapper.PoolEnded :: rest => sentOver None rest
  | Bootstrapper.Sent q :: rest => (pool, q) :: sentOver pool rest
  | _ :: rest => sentOver pool rest
  end.

(** [l] is the beginning of [full], and is not empty. *)
Definition beginningOf {A} (full l : list A) : Prop :=
  l <> [] /\ exists rest, full = (l ++ rest)%list.

(** The errors that were logged. *)
Fixpoint loggedErrors (t : list Bootstrapper.Event) : list Error :=
  match t with
  | [] => []
  | Bootstrapper.LoggedError e :: rest => e :: loggedErrors rest
  | _ :: rest => loggedErrors rest
  end.

(** The statement drops a database or closes the connections to it. *)
Definition destructive (q : Bootstrapper.Statement) : bool :=
  match q with
  | Bootstrapper.CloseConnections _ | Bootstrapper.DropDatabase _ => true
  | _ => false
  end.

(** A server that answers every statement with the same outcome. *)
Definition answering (answer : Outcome unit) : Bootstrapper.Server :=
  fun _ _ => answer.

(** The error [e], as the answer to the statement [q], is one that the
    bootstrapper ignores. *)
Definition tolerated (q : Bootstrapper.Statement) (e : Error) : bool :=
  match q with
  | Bootstrapper.CreateDatabase _ | Bootstrapper.SetupSchema _ =>
      includes (message e) "already exists"
  | Bootstrapper.DropDatabase _ | Bootstrapper.TeardownSchema _ =>
      includes (message e) "does not exist"
  | Bootstrapper.CloseConnections _ => false
  end.

(** The character is not the equals sign. *)
Definition notEquals (c : ascii) : bool := negb (c =? "=")%char.

(** ** Vocabulary of the subscription registry *)

(** Two states track the same subscriptions. *)
Definition sameRegistry (s s' : Store) : Prop :=
  subscriptions s' = subscriptions s.

(** The tracked subscriptions are distinct objects, each of them made by
    an earlier subscribe call. *)
Definition registryInvariant (s : Store) : Prop :=
  NoDup (map subscription_ref (subscriptions s))
  /\ Forall
       (fun x =>
          (subscription_ref x < length (subscriptionsCreated (trace s)))%nat)
       (subscriptions s).

(** The calls that change the registry. *)
Definition touchesRegistry (c : Call) : bool :=
  match c with
  | CallSubscribeToStream _ | CallSubscribeToAll | CallDispose
  | CallDisposeSubscription _ => true
  | _ => false
  end.

(** The number of pauses between attempts among the events. *)
Fixpoint pauses (t : list Event) : nat :=
  match t with
  | [] => 0
  | Backoff _ _ :: rest => S (pauses rest)
  | _ :: rest => pauses rest
  end.

(* ===================================================================== *)
(** * Properties *)
(* ===================================================================== *)

(** ** Strings *)

Lemma endsWith_cons (c : ascii) (s suffix : string) :
  endsWith (String c s) suffix =
  if String.eqb (String c s) suffix then true else endsWith s suffix.
Proof. reflexivity. Qed.

Lemma endsWith_self (s : string) : endsWith s s = true.
Proof.
  destruct s; [reflexivity|].
  now rewrite endsWith_cons, String.eqb_refl.
Qed.

Lemma endsWith_append (pre suffix : string) :
  endsWith (pre ++ suffix) suffix = true.
Proof.
  induction pre as [|c pre IH].
  - apply endsWith_self.
  - change (String c pre ++ suffix) with (String c (pre ++ suffix)).
    rewrite endsWith_cons.
    destruct (String.eqb (String c (pre ++ suffix)) suffix);
      [reflexivity | exact IH].
Qed.

Lemma endsWith_inv (s suffix : string) :
  endsWith s suffix = true -> exists pre, s = pre ++ suffix.
Proof.
  induction s as [|c s IH]; intros H.
  - destruct suffix; [now exists "" | discriminate].
  - rewrite endsWith_cons in H.
    destruct (String.eqb (String c s) suffix) eqn:E.
    + apply String.eqb_eq in E. exists "". now rewrite E.
    + destruct (IH H) as [pre ->]. now exists (String c pre).
Qed.

Lemma endsWith_comparable (s a b : string) :
  endsWith s a = true -> endsWith s b = true ->
  endsWith a b = true \/ endsWith b a = true.
Proof.
  induction s as [|c s IH]; intros Ha Hb.
  - destruct a; [|discriminate]. destruct b; [|discriminate]. now left.
  - rewrite endsWith_cons in Ha, Hb.
    destruct (String.eqb (String c s) a) eqn:Ea.
    + apply String.eqb_eq in Ea. subst a. left.
      rewrite endsWith_cons. exact Hb.
    + destruct (String.eqb (String c s) b) eqn:Eb.
      * apply String.eqb_eq in Eb. subst b. right.
        rewrite endsWith_cons, Ea. exact Ha.
      * now apply IH.
Qed.

(** The constraint names do not overlap: a message that ends with the
    duplicate-id constraint does not end with a concurrency constraint. *)
Lemma duplicate_is_not_concurrency (e : Error) :
  isDuplicateMessageIdUniqueConstraintViolation e = true ->
  isConcurrencyUniqueConstraintViolation e = false.
Proof.
  unfold isDuplicateMessageIdUniqueConstraintViolation,
    isConcurrencyUniqueConstraintViolation.
  intros H. apply orb_false_iff. split.
  - destruct (endsWith (message e) (quoted "stream_id_key")) eqn:E;
      [|reflexivity].
    destruct (endsWith_comparable _ _ _ H E) as [C|C];
      vm_compute in C; discriminate.
  - destruct (endsWith (message e)
                (quoted "message_stream_id_internal_stream_version_unique"))
      eqn:E; [|reflexivity].
    destruct (endsWith_comparable _ _ _ H E) as [C|C];
      vm_compute in C; discriminate.
Qed.

(** ** The key pattern of the driver's detail field *)

Lemma lazyUntilClose_key (key post : string) :
  allChars keyChar key = true ->
  lazyUntilClose (key ++ String ")" post) = Some key.
Proof.
  induction key as [|c key IH]; simpl; intros H.
  - reflexivity.
  - apply andb_true_iff in H. destruct H as [Hc Hk].
    unfold keyChar in Hc. apply andb_true_iff in Hc. destruct Hc as [H1 H2].
    apply negb_true_iff in H1, H2. rewrite H1, H2, (IH Hk). reflexivity.
Qed.

Lemma execKeyPattern_key (pre key post : string) :
  allChars (fun c => negb (c =? "=")%char) pre = true ->
  allChars keyChar key = true ->
  execKeyPattern (pre ++ "=(" ++ key ++ String ")" post) = Some key.
Proof.
  intros Hpre Hkey. induction pre as [|c pre IH]; simpl.
  - now rewrite lazyUntilClose_key.
  - simpl in Hpre. apply andb_true_iff in Hpre. destruct Hpre as [Hc Hpre].
    apply negb_true_iff in Hc. rewrite Hc. now apply IH.
Qed.

Lemma hexRun_allChars (p : ascii -> bool) (n : nat) (s rest : string) :
  (forall c, Invariant.isHexDigit c = true -> p c = true) ->
  Invariant.hexRun n s = Some rest ->
  allChars p rest = true -> allChars p s = true.
Proof.
  intros Hp. revert s. induction n as [|n IH]; simpl; intros s H Hrest.
  - now inversion H.
  - destruct s as [|c s]; [discriminate|].
    destruct (Invariant.isHexDigit c) eqn:E; [|discriminate].
    simpl. rewrite (Hp _ E). simpl. now apply IH.
Qed.

Lemma hexGroups_allChars (p : ascii -> bool) (groups : list nat) (s : string) :
  (forall c, Invariant.isHexDigit c = true -> p c = true) ->
  p "-"%char = true ->
  Invariant.hexGroups groups s = true -> allChars p s = true.
Proof.
  intros Hp Hdash. revert s.
  induction groups as [|g groups IH]; simpl; intros s H; [discriminate|].
  destruct groups as [|g' groups].
  - destruct (Invariant.hexRun g s) as [[|]|] eqn:E; try discriminate.
    now apply (hexRun_allChars p g s "").
  - destruct (Invariant.hexRun g s) as [[|c rest]|] eqn:E; try discriminate.
    destruct (Ascii.eqb_spec c "-"%char) as [->|N].
    + apply (hexRun_allChars p g s _ Hp E). simpl. rewrite Hdash. simpl.
      apply IH. exact H.
    + exfalso. revert H. clear - N.
      destruct c as [[] [] [] [] [] [] [] []]; try discriminate.
      now destruct N.
Qed.

Lemma hexDigit_keyChar (c : ascii) :
  Invariant.isHexDigit c = true -> keyChar c = true.
Proof.
  destruct c as [[] [] [] [] [] [] [] []]; vm_compute; congruence.
Qed.

(** A UUID holds neither a closing parenthesis nor a line terminator. *)
Lemma uuid_keyChars (u : string) :
  Invariant.isUuid u = true -> allChars keyChar u = true.
Proof.
  apply hexGroups_allChars; [exact hexDigit_keyChar | reflexivity].
Qed.

(** ** Reading a stream *)

Lemma issued_app (t u : list Event) :
  issued (t ++ u) = (issued t ++ issued u)%list.
Proof.
  induction t as [|e t IH]; simpl; [reflexivity|].
  destruct e; simpl; now rewrite ?IH.
Qed.

Lemma trace_record (e : Event) (s : Store) :
  trace (record e s) = (trace s ++ [e])%list.
Proof. reflexivity. Qed.

(** [readStream] with arguments that pass its checks is one round trip
    followed by a pure mapping of the answer. *)
Lemma readStream_eq (Position_End : Z) (pool : Driver) (sid : string)
  (fromVersionInclusive count : Z) (direction : ReadDirection) (s : Store) :
  sid <> "" -> 0 < count ->
  let q := readStreamQuery Position_End (JStr sid) fromVersionInclusive count
             direction in
  readStream Position_End pool (JStr sid) fromVersionInclusive count direction
    s =
  (match nextAnswer (run_readStream pool) s q with
   | Returned (rows, None) => Returned (zeroReadStreamResult (JStr sid))
   | Returned (rows, Some streamInfo) =>
       if Z.of_nat (length rows) =? count + 1
       then mapReadStreamResult (removelast rows) streamInfo false
              (isForward direction)
       else mapReadStreamResult rows streamInfo true (isForward direction)
   | Thrown e => Thrown e
   end, record (Issued q) s).
Proof.
  intros Hsid Hcount q.
  unfold readStream, bind, lift, query, ret.
  unfold Invariant.requiredString, Invariant.required, Invariant.assert.
  apply String.eqb_neq in Hsid. rewrite Hsid. simpl negb. cbv iota.
  apply Z.ltb_lt in Hcount. rewrite Hcount.
  subst q. unfold nextAnswer, readStreamQuery.
  match goal with
  | |- context [run_readStream ?p ?n ?q] =>
      destruct (run_readStream p n q) as [[rows [streamInfo|]]|e]
  end; try reflexivity.
  destruct (Z.of_nat (length rows) =? count + 1); reflexivity.
Qed.

Lemma lastOf_snoc {A} (l : list A) (x : A) : lastOf (l ++ [x]) = Some x.
Proof.
  unfold lastOf. rewrite map_app. simpl. apply last_last.
Qed.

Lemma lastOf_nonempty {A} (l : list A) :
  l <> [] -> exists x, lastOf l = Some x.
Proof.
  intros H. destruct (exists_last H) as [l' [x ->]].
  exists x. apply lastOf_snoc.
Qed.

Lemma lastOf_map {A B} (f : A -> B) (l : list A) :
  lastOf (map f l) = option_map f (lastOf l).
Proof.
  destruct l as [|a l] using rev_ind; [reflexivity|].
  rewrite map_app. change (map f [a]) with [f a].
  now rewrite !lastOf_snoc.
Qed.

(** Dropping the probe row of a page of [count + 1] rows leaves [count]
    rows, so the page is not empty when [count] is positive. *)
Lemma removelast_probe {A} (rows : list A) (count : Z) :
  0 < count -> Z.of_nat (length rows) = count + 1 -> removelast rows <> [].
Proof.
  intros Hc Hl E.
  destruct rows as [|a rows] using rev_ind; [simpl in Hl; lia|].
  rewrite removelast_last in E. subst rows. simpl in Hl. lia.
Qed.

(** C3 (amended).  A [readStream] call whose [fromVersionInclusive] is the
    [Position.End] sentinel sends the pool a statement that starts from
    [Number.MAX_SAFE_INTEGER], 9007199254740991, and not from the largest
    63-bit integer; it is [readAllInternal] that replaces the sentinel by
    9223372036854775807 before its statement is issued. *)
Theorem readStream_maps_Position_End (Position_End : Z) (pool : Driver)
  (sid : string) (count : Z) (direction : ReadDirection) (s : Store) :
  sid <> "" -> 0 < count ->
  issued
    (trace
       (snd (readStream Position_End pool (JStr sid) Position_End count
               direction s))) =
  (issued (trace s)
   ++ [QReadStream (JStr sid) 9007199254740991 (count + 1)
         (isForward direction)])%list
  /\ forall fromPositionInclusive,
       Js.toString fromPositionInclusive = Z_toString Position_End ->
       issued
         (trace
            (snd (readAllInternal Position_End pool fromPositionInclusive
                    count direction s))) =
       (issued (trace s)
        ++ [QReadAllMessages (count + 1) (JStr "9223372036854775807")
              (isForward direction)])%list.
Proof.
  intros Hsid Hcount. split.
  - rewrite readStream_eq by assumption. simpl snd.
    rewrite trace_record, issued_app. unfold readStreamQuery.
    rewrite Z.eqb_refl. reflexivity.
  - intros from Hfrom.
    unfold readAllInternal, bind, query. rewrite Hfrom, String.eqb_refl.
    match goal with
    | |- context [run_readAllMessages ?p ?n ?q] =>
        destruct (run_readAllMessages p n q) as [rows|e]
    end; simpl.
    + destruct (map mapMessageResult rows) as [|m ms] eqn:E.
      * simpl. now rewrite issued_app.
      * match goal with
        | |- context [lastOf ?l] => destruct (lastOf l) as [lastMessage|]
        end; [|simpl; now rewrite issued_app].
        destruct (BigInteger.parse (StreamMessage.position lastMessage));
          simpl; now rewrite issued_app.
    + now rewrite issued_app.
Qed.

Lemma readStream_maps_Position_End_witness :
  issued
    (trace
       (snd (readStream (-1)
               Sample.emptyPool
               (JStr "orders") (-1) 10 Backward
               createPostgresStreamStore))) =
  [QReadStream (JStr "orders") 9007199254740991 11 false].
Proof.
  refine (proj1 (readStream_maps_Position_End (-1) _ "orders" 10 Backward
                   _ _ _)).
  - discriminate.
  - reflexivity.
Defined.

(** The claim as stated fails: reading the stream [orders] backward from
    [Position.End] does not send the statement that starts from
    9223372036854775807. *)
Lemma readStream_Position_End_is_not_max_bigint :
  issued
    (trace
       (snd (readStream (-1)
               Sample.emptyPool
               (JStr "orders") (-1) 10 Backward
               createPostgresStreamStore))) <>
  [QReadStream (JStr "orders") 9223372036854775807 11 false].
Proof. vm_compute. intros H. discriminate H. Qed.

(** C8.  When the info query finds no row for the stream, [readStream]
    returns the zero result: [streamVersion = 0], [isEnd = true], no
    messages, [nextVersion = 0] and [streamPosition = "0"]. *)
Theorem readStream_missing_stream (Position_End : Z) (pool : Driver)
  (sid : string) (fromVersionInclusive count : Z)
  (direction : ReadDirection) (s : Store) (rows : list MessageRow.t) :
  sid <> "" -> 0 < count ->
  nextAnswer (run_readStream pool) s
    (readStreamQuery Position_End (JStr sid) fromVersionInclusive count
       direction) = Returned (rows, None) ->
  exists r,
    fst (readStream Position_End pool (JStr sid) fromVersionInclusive count
           direction s) = Returned r
    /\ ReadStreamResult.streamVersion r = 0
    /\ ReadStreamResult.isEnd r = true
    /\ ReadStreamResult.messages r = []
    /\ ReadStreamResult.nextVersion r = 0
    /\ ReadStreamResult.streamPosition r = "0"
    /\ ReadStreamResult.streamId r = JStr sid.
Proof.
  intros Hsid Hcount Hanswer.
  rewrite readStream_eq by assumption. rewrite Hanswer.
  exists (zeroReadStreamResult (JStr sid)). repeat split.
Qed.

Lemma readStream_missing_stream_witness :
  exists r,
    fst (readStream (-1) Sample.emptyPool (JStr "orders") 0 100 Forward
           createPostgresStreamStore) = Returned r
    /\ ReadStreamResult.streamVersion r = 0
    /\ ReadStreamResult.isEnd r = true
    /\ ReadStreamResult.messages r = []
    /\ ReadStreamResult.nextVersion r = 0
    /\ ReadStreamResult.streamPosition r = "0"
    /\ ReadStreamResult.streamId r = JStr "orders".
Proof.
  apply (readStream_missing_stream (-1) Sample.emptyPool "orders" 0 100
           Forward createPostgresStreamStore []).
  - discriminate.
  - reflexivity.
  - reflexivity.
Defined.

(** C6.  For a stream that exists, [readStream] returns a [nextVersion]
    that is, reading forward, [streamInfo.streamVersion + 1] when [isEnd]
    is true or the page is empty and [lastMessage.streamVersion + 1] when
    [isEnd] is false; and, reading backward,
    [max(0, (isEnd ? 0 : lastMessage.streamVersion) - 1)]. *)
Theorem readStream_nextVersion (Position_End : Z) (pool : Driver)
  (sid : string) (fromVersionInclusive count : Z)
  (direction : ReadDirection) (s : Store) (rows : list MessageRow.t)
  (streamInfo : StreamInfoRow.t) :
  sid <> "" -> 0 < count ->
  nextAnswer (run_readStream pool) s
    (readStreamQuery Position_End (JStr sid) fromVersionInclusive count
       direction) = Returned (rows, Some streamInfo) ->
  exists r,
    fst (readStream Position_End pool (JStr sid) fromVersionInclusive count
           direction s) = Returned r
    /\ ReadStreamResult.streamVersion r
       = StreamInfoRow.stream_version streamInfo
    /\ match direction with
       | Forward =>
           (ReadStreamResult.isEnd r = true
            \/ ReadStreamResult.messages r = [] ->
            ReadStreamResult.nextVersion r
            = StreamInfoRow.stream_version streamInfo + 1)
           /\ (ReadStreamResult.isEnd r = false ->
               exists lastMessage,
                 lastOf (ReadStreamResult.messages r) = Some lastMessage
                 /\ ReadStreamResult.nextVersion r
                    = StreamMessage.streamVersion lastMessage + 1)
       | Backward =>
           (ReadStreamResult.isEnd r = true ->
            ReadStreamResult.nextVersion r = Z.max 0 (0 - 1))
           /\ (ReadStreamResult.isEnd r = false ->
               exists lastMessage,
                 lastOf (ReadStreamResult.messages r) = Some lastMessage
                 /\ ReadStreamResult.nextVersion r
                    = Z.max 0 (StreamMessage.streamVersion lastMessage - 1))
       end.
Proof.
  intros Hsid Hcount Hanswer.
  rewrite readStream_eq by assumption. rewrite Hanswer. simpl fst.
  destruct (Z.eqb_spec (Z.of_nat (length rows)) (count + 1)) as [Hprobe|_].
  - (* a probe row came back: it is dropped and the page is not the end *)
    destruct (lastOf_nonempty (removelast rows)
                (removelast_probe rows count Hcount Hprobe))
      as [lastRow HlastRow].
    unfold mapReadStreamResult. rewrite HlastRow.
    destruct direction; simpl; eexists; (split; [reflexivity|]); simpl;
      (split; [reflexivity|]); split.
    + intros [H|H]; [discriminate|].
      apply (f_equal lastOf) in H. rewrite lastOf_map, HlastRow in H.
      discriminate.
    + intros _. exists (mapMessageResult lastRow).
      rewrite lastOf_map, HlastRow. split; reflexivity.
    + discriminate.
    + intros _. exists (mapMessageResult lastRow).
      rewrite lastOf_map, HlastRow. split; reflexivity.
  - (* the page is the end of the stream *)
    unfold mapReadStreamResult.
    destruct direction; simpl; eexists; (split; [reflexivity|]); simpl;
      (split; [reflexivity|]); split; try discriminate.
    + intros _. destruct (lastOf rows); reflexivity.
    + reflexivity.
Qed.

Lemma readStream_nextVersion_witness :
  exists r,
    fst (readStream (-1) Sample.ordersPool (JStr "orders") 3 2 Forward
           createPostgresStreamStore) = Returned r
    /\ ReadStreamResult.isEnd r = false
    /\ ReadStreamResult.nextVersion r = 5.
Proof.
  destruct (readStream_nextVersion (-1) Sample.ordersPool "orders" 3 2
              Forward createPostgresStreamStore
              [Sample.row 3 "9"; Sample.row 4 "12"; Sample.row 5 "13"]
              Sample.info)
    as [r [Hr [_ [_ Hnext]]]].
  - discriminate.
  - reflexivity.
  - reflexivity.
  - exists r. split; [exact Hr|].
    assert (Hend : ReadStreamResult.isEnd r = false).
    { vm_compute in Hr. now inversion Hr. }
    split; [exact Hend|].
    destruct (Hnext Hend) as [lastMessage [Hlast ->]].
    vm_compute in Hr. inversion Hr. subst r. vm_compute in Hlast.
    now inversion Hlast.
Defined.

(** ** Reading the all-stream *)

Lemma readAllInternal_state (Position_End : Z) (pool : Driver)
  (fromPositionInclusive : JsVal) (count : Z) (direction : ReadDirection)
  (s : Store) :
  snd (readAllInternal Position_End pool fromPositionInclusive count
         direction s) =
  record (Issued (readAllQuery Position_End fromPositionInclusive count
                    direction)) s.
Proof.
  unfold readAllInternal, bind, query, readAllQuery, readAllFrom.
  match goal with
  | |- context [run_readAllMessages ?p ?n ?q] =>
      destruct (run_readAllMessages p n q) as [rows|e]
  end; simpl; [|reflexivity].
  destruct (map mapMessageResult rows) as [|m ms]; [reflexivity|].
  match goal with
  | |- context [lastOf ?l] => destruct (lastOf l) as [lastMessage|]
  end; [|reflexivity].
  destruct (BigInteger.parse (StreamMessage.position lastMessage));
    reflexivity.
Qed.

Lemma readAllInternal_empty (Position_End : Z) (pool : Driver)
  (fromPositionInclusive : JsVal) (count : Z) (direction : ReadDirection)
  (s : Store) :
  nextAnswer (run_readAllMessages pool) s
    (readAllQuery Position_End fromPositionInclusive count direction)
  = Returned [] ->
  fst (readAllInternal Position_End pool fromPositionInclusive count
         direction s) =
  Returned
    {| ReadAllResult.isEnd := true;
       ReadAllResult.messages := [];
       ReadAllResult.nextPosition :=
         match direction with
         | Forward =>
             Js.toString (readAllFrom Position_End fromPositionInclusive)
         | Backward => "0"
         end |}.
Proof.
  unfold nextAnswer, readAllQuery, readAllFrom. intros H.
  unfold readAllInternal, bind, query. rewrite H.
  destruct direction; reflexivity.
Qed.

Lemma pageOf_nonempty {A} (count : Z) (rows : list A) :
  0 < count -> rows <> [] -> pageOf count rows <> [].
Proof.
  intros Hc Hr. unfold pageOf.
  destruct (Z.eqb_spec (Z.of_nat (length rows)) (count + 1)) as [E|_];
    [now apply removelast_probe with (count := count) | exact Hr].
Qed.

Lemma removelast_map {A B} (f : A -> B) (l : list A) :
  removelast (map f l) = map f (removelast l).
Proof.
  destruct l as [|a l] using rev_ind; [reflexivity|].
  rewrite map_app. change (map f [a]) with [f a].
  now rewrite !removelast_last.
Qed.

Lemma pageOf_map {A B} (f : A -> B) (count : Z) (rows : list A) :
  pageOf count (map f rows) = map f (pageOf count rows).
Proof.
  unfold pageOf. rewrite length_map.
  destruct (Z.of_nat (length rows) =? count + 1);
    [apply removelast_map | reflexivity].
Qed.

Lemma readAllInternal_page (Position_End : Z) (pool : Driver)
  (fromPositionInclusive : JsVal) (count : Z) (direction : ReadDirection)
  (s : Store) (rows : list MessageRow.t) (lastRow : MessageRow.t)
  (position : Z) :
  nextAnswer (run_readAllMessages pool) s
    (readAllQuery Position_End fromPositionInclusive count direction)
  = Returned rows ->
  rows <> [] ->
  lastOf (pageOf count rows) = Some lastRow ->
  BigInteger.parse (MessageRow.position lastRow) = Some position ->
  fst (readAllInternal Position_End pool fromPositionInclusive count
         direction s) =
  Returned
    {| ReadAllResult.isEnd :=
         negb (Z.of_nat (length rows) =? count + 1);
       ReadAllResult.messages := map mapMessageResult (pageOf count rows);
       ReadAllResult.nextPosition :=
         BigInteger.toString
           match direction with
           | Forward => position + 1
           | Backward => Z.max (position - 1) 0
           end |}.
Proof.
  unfold nextAnswer, readAllQuery, readAllFrom. intros H Hrows Hlast Hpos.
  unfold readAllInternal, bind, query. rewrite H.
  destruct (map mapMessageResult rows) as [|m ms] eqn:E.
  { destruct rows; [now destruct Hrows | discriminate]. }
  rewrite <- E. clear E m ms.
  fold (pageOf count (map mapMessageResult rows)).
  rewrite length_map. rewrite pageOf_map, lastOf_map, Hlast.
  cbn [option_map].
  change (StreamMessage.position (mapMessageResult lastRow))
    with (MessageRow.position lastRow).
  rewrite Hpos. destruct direction; reflexivity.
Qed.

(** Gap detection returns a page of the raw reader: the outcome and the
    final state are those of the last raw read. *)
Lemma detectGapsAndReloadAll_is_a_raw_read (reloadDelay : Z)
  (reloadTimes : nat) (fromPositionInclusive : JsVal) (count : Z)
  (rawRead : JsVal -> Z -> ReadDirection -> M ReadAllResult.t) (s : Store) :
  exists s1,
    GapDetection.detectGapsAndReloadAll reloadDelay reloadTimes
      fromPositionInclusive count rawRead s
    = rawRead fromPositionInclusive count Forward s1.
Proof.
  revert s. induction reloadTimes as [|k IH]; intros s; simpl; unfold bind.
  - exists s.
    destruct (rawRead fromPositionInclusive count Forward s) as [[r|e] s'];
      [|reflexivity].
    match goal with |- context [if ?c then _ else _] => destruct c end;
      reflexivity.
  - destruct (rawRead fromPositionInclusive count Forward s) as [[r|e] s']
      eqn:E; [|exists s; now rewrite E].
    match goal with |- context [if ?c then _ else _] => destruct c end.
    + exists s. now rewrite E.
    + unfold emit, modify. apply IH.
Qed.

(** C7 (amended).  [readAll] returns a page of [readAllInternal].  When
    the page is not empty, [nextPosition] is the decimal text of
    [lastMessage.position + 1] reading forward and of
    [max(0, lastMessage.position - 1)] reading backward, computed on
    integers of any size.  When the page is empty, [isEnd] is true, the
    backward [nextPosition] is ["0"], and the forward [nextPosition] is the
    text of the input position, except that for the [Position.End]
    sentinel it is ["9223372036854775807"], the value the sentinel was
    replaced by. *)
Theorem readAll_nextPosition (Position_End : Z)
  (config : PgStreamStoreConfig.t) (pool : Driver)
  (fromPositionInclusive : JsVal) (count : Z) (direction : ReadDirection)
  (s : Store) :
  Invariant.required "fromPositionInclusive" fromPositionInclusive
  = Returned tt ->
  0 < count ->
  exists s1,
    readAll Position_End config pool fromPositionInclusive count direction s
    = readAllInternal Position_End pool fromPositionInclusive count
        direction s1
    /\ (forall rows,
          nextAnswer (run_readAllMessages pool) s1
            (readAllQuery Position_End fromPositionInclusive count direction)
          = Returned rows ->
          (rows = [] ->
           fst (readAll Position_End config pool fromPositionInclusive count
                  direction s) =
           Returned
             {| ReadAllResult.isEnd := true;
                ReadAllResult.messages := [];
                ReadAllResult.nextPosition :=
                  match direction with
                  | Forward =>
                      if String.eqb (Js.toString fromPositionInclusive)
                           (Z_toString Position_End)
                      then "9223372036854775807"
                      else Js.toString fromPositionInclusive
                  | Backward => "0"
                  end |})
          /\ (rows <> [] ->
              exists lastRow,
                lastOf (pageOf count rows) = Some lastRow
                /\ forall position,
                     BigInteger.parse (MessageRow.position lastRow)
                     = Some position ->
                     fst (readAll Position_End config pool
                            fromPositionInclusive count direction s) =
                     Returned
                       {| ReadAllResult.isEnd :=
                            negb (Z.of_nat (length rows) =? count + 1);
                          ReadAllResult.messages :=
                            map mapMessageResult (pageOf count rows);
                          ReadAllResult.nextPosition :=
                            BigInteger.toString
                              match direction with
                              | Forward => position + 1
                              | Backward => Z.max (position - 1) 0
                              end |})).
Proof.
  intros Hfrom Hcount.
  assert (Hraw : exists s1,
             readAll Position_End config pool fromPositionInclusive count
               direction s
             = readAllInternal Position_End pool fromPositionInclusive count
                 direction s1).
  { unfold readAll, bind, lift. rewrite Hfrom.
    unfold Invariant.required, Invariant.assert.
    apply Z.ltb_lt in Hcount. rewrite Hcount.
    destruct direction.
    - apply detectGapsAndReloadAll_is_a_raw_read.
    - now exists s. }
  destruct Hraw as [s1 Hraw]. exists s1. split; [exact Hraw|].
  intros rows Hanswer. rewrite Hraw. split.
  - intros ->. rewrite (readAllInternal_empty _ _ _ _ _ _ Hanswer).
    unfold readAllFrom.
    destruct direction; [|reflexivity].
    destruct (String.eqb (Js.toString fromPositionInclusive)
                (Z_toString Position_End)); reflexivity.
  - intros Hrows.
    destruct (lastOf_nonempty (pageOf count rows)
                (pageOf_nonempty count rows Hcount Hrows))
      as [lastRow HlastRow].
    exists lastRow. split; [exact HlastRow|].
    intros position Hpos.
    now apply readAllInternal_page with (lastRow := lastRow).
Qed.

Lemma readAll_nextPosition_witness :
  fst (readAll (-1) Sample.config Sample.ordersPool (JStr "9") 2 Forward
         createPostgresStreamStore) =
  Returned
    {| ReadAllResult.isEnd := false;
       ReadAllResult.messages :=
         map mapMessageResult [Sample.row 3 "9"; Sample.row 4 "12"];
       ReadAllResult.nextPosition := "13" |}.
Proof.
  destruct (readAll_nextPosition (-1) Sample.config Sample.ordersPool
              (JStr "9") 2 Forward createPostgresStreamStore)
    as [s1 [_ Hpage]].
  - reflexivity.
  - reflexivity.
  - destruct (Hpage [Sample.row 3 "9"; Sample.row 4 "12";
                     Sample.row 5 "13"] eq_refl) as [_ Hnonempty].
    destruct Hnonempty as [lastRow [Hlast Hnext]]; [discriminate|].
    vm_compute in Hlast. inversion Hlast. subst lastRow.
    exact (Hnext 12 eq_refl).
Defined.

(** The claim as stated fails on an empty page read forward from the
    sentinel: [nextPosition] is not the text of the input. *)
Lemma readAll_forward_from_Position_End_is_not_the_input :
  (exists r,
     fst (readAll (-1) Sample.config Sample.emptyPool (JNum (-1)) 10 Forward
            createPostgresStreamStore) = Returned r
     /\ ReadAllResult.messages r = []
     /\ ReadAllResult.isEnd r = true
     /\ ReadAllResult.nextPosition r = "9223372036854775807"
     /\ ReadAllResult.nextPosition r <> Js.toString (JNum (-1)))
  /\ (exists r,
        fst (readAllInternal (-1) Sample.emptyPool (JNum (-1)) 10 Forward
               createPostgresStreamStore) = Returned r
        /\ ReadAllResult.messages r = []
        /\ ReadAllResult.nextPosition r <> Js.toString (JNum (-1))).
Proof.
  split.
  - eexists. split; [vm_compute; reflexivity|].
    repeat split. vm_compute. intros H. discriminate H.
  - eexists. split; [vm_compute; reflexivity|].
    repeat split. vm_compute. intros H. discriminate H.
Qed.

Lemma BigInteger_parse_toString (z : Z) :
  BigInteger.parse (BigInteger.toString z) = Some z.
Proof.
  unfold BigInteger.parse, BigInteger.toString, Z_toString.
  rewrite NilZero.isi.
  - simpl. now rewrite DecimalZ.of_to.
  - destruct z; simpl; try discriminate.
    intros H. inversion H as [E]. revert E.
    apply DecimalPos.Unsigned.to_uint_nonnil.
  - destruct z; simpl; try discriminate.
    intros H. inversion H as [E]. revert E.
    apply DecimalPos.Unsigned.to_uint_nonnil.
Qed.

(** ** What a store function may do to the state

    [steps R m] says that running [m] takes every state to a state related
    to it by [R].  For a relation that is reflexive, transitive and closed
    under the primitive updates of the store, every function of the store
    steps along it. *)

Section Steps.

Variable R : Store -> Store -> Prop.
(** The statements the function is allowed to issue. *)
Variable allowed : Query -> Prop.

Hypothesis R_refl : forall s, R s s.
Hypothesis R_trans : forall a b c, R a b -> R b c -> R a c.
Hypothesis R_latchEnter : forall s, R s (latchEnter s).
Hypothesis R_latchExit : forall s, R s (latchExit s).
Hypothesis R_issue : forall q s, allowed q -> R s (record (Issued q) s).
Hypothesis R_quiet :
  forall e s,
    isIssued e = false -> isNotifierCreated e = false ->
    isSubscriptionCreated e = false -> R s (record e s).
Hypothesis R_setDisposing : forall s, R s (setDisposing s).
Hypothesis R_setSubscriptions : forall l s, R s (setSubscriptions l s).

Lemma steps_ret {A} (a : A) : steps R (ret a).
Proof. intros s. apply R_refl. Qed.

Lemma steps_throw {A} (e : Error) : steps R (@throw A e).
Proof. intros s. apply R_refl. Qed.

Lemma steps_lift {A} (o : Outcome A) : steps R (lift o).
Proof. intros s. apply R_refl. Qed.

Lemma steps_gets {A} (f : Store -> A) : steps R (gets f).
Proof. intros s. apply R_refl. Qed.

Lemma steps_bind {A B} (m : M A) (k : A -> M B) :
  steps R m -> (forall a, steps R (k a)) -> steps R (bind m k).
Proof.
  intros Hm Hk s. unfold bind. specialize (Hm s).
  destruct (m s) as [[a|e] s']; simpl in *; [|exact Hm].
  eapply R_trans; [exact Hm | apply Hk].
Qed.

Lemma steps_tryCatch {A} (body : M A) (handler : Error -> M A) :
  steps R body -> (forall e, steps R (handler e)) ->
  steps R (tryCatch body handler).
Proof.
  intros Hb Hh s. unfold tryCatch. specialize (Hb s).
  destruct (body s) as [[a|e] s']; simpl in *; [exact Hb|].
  eapply R_trans; [exact Hb | apply Hh].
Qed.

Lemma steps_tryFinally {A} (body : M A) (cleanup : Store -> Store) :
  steps R body -> (forall s, R s (cleanup s)) ->
  steps R (tryFinally body cleanup).
Proof.
  intros Hb Hc s. unfold tryFinally. specialize (Hb s).
  destruct (body s) as [r s']; simpl in *.
  eapply R_trans; [exact Hb | apply Hc].
Qed.

Lemma steps_modify (f : Store -> Store) :
  (forall s, R s (f s)) -> steps R (modify f).
Proof. intros H s. apply H. Qed.

Lemma steps_emit (e : Event) :
  isIssued e = false -> isNotifierCreated e = false ->
  isSubscriptionCreated e = false -> steps R (emit e).
Proof. intros H1 H2 H3 s. now apply R_quiet. Qed.

Lemma steps_query {A} (run : nat -> Query -> Outcome A) (q : Query) :
  allowed q -> steps R (query run q).
Proof. intros H s. now apply R_issue. Qed.

Lemma steps_retryLoop {A} (fn : (Error -> Error) -> M A)
  (opts : RetryOptions.t) (retriesLeft attempt : nat) :
  steps R (fn Again) -> steps R (Fejl.retryLoop fn opts retriesLeft attempt).
Proof.
  intros Hfn. revert attempt.
  induction retriesLeft as [|k IH]; intros attempt s; simpl;
    specialize (Hfn s); destruct (fn Again s) as [[a|e] s'];
    simpl in *; try exact Hfn.
  - destruct e; exact Hfn.
  - destruct e; try exact Hfn.
    eapply R_trans; [exact Hfn|].
    eapply R_trans; [|apply IH]. now apply R_quiet.
Qed.

Lemma steps_retry {A} (fn : (Error -> Error) -> M A) (opts : RetryOptions.t) :
  steps R (fn Again) -> steps R (Fejl.retry fn opts).
Proof. apply steps_retryLoop. Qed.

Lemma steps_forEachM {A} (l : list A) (f : A -> M unit) :
  (forall x, steps R (f x)) -> steps R (forEachM l f).
Proof.
  intros Hf. induction l as [|x l IH]; simpl.
  - apply steps_ret.
  - apply steps_bind; [apply Hf | intros _; exact IH].
Qed.

Variable Position_End : Z.
Variable config : PgStreamStoreConfig.t.
Variable pool : Driver.
Variable v4 : nat -> string.

Ltac step1 :=
  lazymatch goal with
  | |- steps _ (ret _) => apply steps_ret
  | |- steps _ (throw _) => apply steps_throw
  | |- steps _ (lift _) => apply steps_lift
  | |- steps _ (gets _) => apply steps_gets
  | |- steps _ (Fejl.retry _ _) => apply steps_retry
  | |- steps _ (bind _ _) => apply steps_bind; [|intros ?]
  | |- steps _ (tryCatch _ _) => apply steps_tryCatch; [|intros ?]
  | |- steps _ (tryFinally _ _) => apply steps_tryFinally; [|solve [auto]]
  | |- steps _ (modify _) => apply steps_modify; solve [auto]
  | |- steps _ (emit _) => apply steps_emit; reflexivity
  | |- steps _ (query _ _) => apply steps_query; solve [auto]
  | |- steps _ (if ?c then _ else _) => destruct c
  | |- steps _ (match ?x with _ => _ end) => destruct x
  end.

Ltac step := repeat step1.

Lemma steps_getCurrentTime : steps R (getCurrentTime config).
Proof. intros s. apply R_refl. Qed.

Lemma steps_uuidV4 : steps R (uuidV4 v4).
Proof. intros s. apply R_refl. Qed.

Lemma steps_maybeScavenge (streamId maxAge maxCount : JsVal) :
  steps R (maybeScavenge streamId maxAge maxCount).
Proof. unfold maybeScavenge. step. Qed.

Lemma steps_appendToStream (streamId expectedVersion : JsVal)
  (newMessages : list NewStreamMessage.t) :
  (forall now,
     allowed
       (QAppend streamId (toMetadataStreamId streamId) expectedVersion now
          newMessages)) ->
  steps R (appendToStream config pool streamId expectedVersion newMessages).
Proof.
  intros Hq. unfold appendToStream, retryableAppendToStream, insertMessages.
  step; auto using steps_getCurrentTime, steps_maybeScavenge.
Qed.

Lemma steps_readHeadPosition :
  allowed QReadHeadPosition -> steps R (readHeadPosition pool).
Proof. intros Hq. unfold readHeadPosition. step. Qed.

Lemma steps_readStream (streamId : JsVal) (fromVersionInclusive count : Z)
  (direction : ReadDirection) :
  (forall from,
     allowed (QReadStream streamId from (count + 1) (isForward direction))) ->
  steps R
    (readStream Position_End pool streamId fromVersionInclusive count
       direction).
Proof. intros Hq. unfold readStream. step. Qed.

Lemma steps_readAllInternal (fromPositionInclusive : JsVal) (count : Z)
  (direction : ReadDirection) :
  (forall q, allowed q) ->
  steps R
    (readAllInternal Position_End pool fromPositionInclusive count direction).
Proof. intros Hq. unfold readAllInternal. step. Qed.

Lemma steps_detectGapsAndReloadAll (reloadDelay : Z) (reloadTimes : nat)
  (fromPositionInclusive : JsVal) (count : Z)
  (rawRead : JsVal -> Z -> ReadDirection -> M ReadAllResult.t) :
  (forall from n d, steps R (rawRead from n d)) ->
  steps R
    (GapDetection.detectGapsAndReloadAll reloadDelay reloadTimes
       fromPositionInclusive count rawRead).
Proof.
  intros Hraw. induction reloadTimes as [|k IH]; simpl; step; auto.
Qed.

Lemma steps_readAll (fromPositionInclusive : JsVal) (count : Z)
  (direction : ReadDirection) :
  (forall q, allowed q) ->
  steps R
    (readAll Position_End config pool fromPositionInclusive count direction).
Proof.
  intros Hq. unfold readAll. step.
  - apply steps_detectGapsAndReloadAll. intros. now apply steps_readAllInternal.
  - now apply steps_readAllInternal.
Qed.

Lemma steps_getStreamMetadata (streamId : JsVal) :
  (forall from forward,
     allowed
       (QReadStream (JStr (toMetadataStreamId streamId)) from 2 forward)) ->
  steps R (getStreamMetadata Position_End pool streamId).
Proof.
  intros Hq. unfold getStreamMetadata. step.
  apply steps_readStream. intros from. apply Hq.
Qed.

Lemma steps_setStreamMetadata (streamId expectedVersion opts : JsVal) :
  (forall maxAge maxCount now message,
     allowed
       (QSetStreamMetadata streamId (toMetadataStreamId streamId)
          expectedVersion maxAge maxCount now message)) ->
  steps R (setStreamMetadata config pool v4 streamId expectedVersion opts).
Proof.
  intros Hq. unfold setStreamMetadata.
  step; auto using steps_getCurrentTime, steps_uuidV4, steps_maybeScavenge.
Qed.

Lemma steps_deleteStream (streamId expectedVersion : JsVal) :
  (forall q, allowed q) ->
  steps R (deleteStream config pool v4 streamId expectedVersion).
Proof.
  intros Hq. unfold deleteStream.
  apply steps_bind; [step|intros _].
  apply steps_bind; [step|intros _].
  apply steps_bind; [step|intros _].
  apply steps_bind; [step|intros _].
  intros s. unfold bind, tryFinally, ret. cbn [snd].
  eapply R_trans; [apply R_latchExit|].
  apply steps_retry. unfold retryableDeleteStream.
  step; auto using steps_getCurrentTime, steps_uuidV4.
Qed.

Lemma steps_deleteMessage (streamId messageId : JsVal) :
  (forall q, allowed q) ->
  steps R (deleteMessage pool streamId messageId).
Proof. intros Hq. unfold deleteMessage, deleteMessages. step. Qed.

Lemma steps_disposeSubscription (sub : Subscription) :
  steps R (disposeSubscription sub).
Proof. unfold disposeSubscription. step. Qed.

Lemma steps_dispose : steps R dispose.
Proof.
  unfold dispose, disposeWith, disposeAll, subscriptionDispose. step.
  apply steps_forEachM. apply steps_disposeSubscription.
Qed.

End Steps.

(** ** Appending *)

Lemma maybeScavenge_eq (streamId maxAge maxCount : JsVal) :
  maybeScavenge streamId maxAge maxCount = ret tt.
Proof.
  unfold maybeScavenge. destruct streamId; try reflexivity.
  destruct (startsWith s "$"); reflexivity.
Qed.

(** An error of the store itself is not mistaken for a constraint
    violation. *)
Lemma handle_ConcurrencyError (expectedVersion : JsVal)
  (again : Error -> Error) :
  handlePotentialConcurrencyError ConcurrencyError expectedVersion again
  = ConcurrencyError.
Proof. reflexivity. Qed.

(** One attempt: a single statement, and an outcome that depends only on
    the answer to it. *)
Lemma retryableAppendToStream_eq (config : PgStreamStoreConfig.t)
  (pool : Driver) (streamId expectedVersion : JsVal)
  (newMessages : list NewStreamMessage.t) (s : Store) :
  let q := appendQuery config streamId expectedVersion newMessages s in
  retryableAppendToStream config pool streamId expectedVersion newMessages
    Again s
  = (attemptOutcome expectedVersion (nextAnswer (run_append pool) s q),
     record (Issued q) s).
Proof.
  unfold retryableAppendToStream, insertMessages, tryCatch, bind,
    getCurrentTime, query, lift, ret, throw, nextAnswer, appendQuery, timeAt,
    attemptOutcome, throwIfErrorCode.
  cbv zeta.
  match goal with
  | |- context [run_append ?p ?n ?q] =>
      destruct (run_append p n q) as [row|e]
  end; [|reflexivity].
  destruct (InsertResult.current_version row
            =? AppendResultCodes.ConcurrencyIssue); reflexivity.
Qed.

(** The checks run first, and a failed check leaves the state as it was. *)
Lemma appendToStream_rejected (config : PgStreamStoreConfig.t)
  (pool : Driver) (streamId expectedVersion : JsVal)
  (newMessages : list NewStreamMessage.t) (s : Store) (e : Error) :
  checkAppendArguments streamId expectedVersion newMessages = Thrown e ->
  appendToStream config pool streamId expectedVersion newMessages s
  = (Thrown e, s).
Proof.
  intros H. unfold appendToStream, bind, lift. now rewrite H.
Qed.

(** The dispose gate comes next, before the latch is entered. *)
Lemma appendToStream_disposing (config : PgStreamStoreConfig.t)
  (pool : Driver) (streamId expectedVersion : JsVal)
  (newMessages : list NewStreamMessage.t) (s : Store) :
  checkAppendArguments streamId expectedVersion newMessages = Returned tt ->
  disposing s = true ->
  appendToStream config pool streamId expectedVersion newMessages s
  = (Thrown (DisposedError disposedMessage), s).
Proof.
  intros H Hd. unfold appendToStream, bind, lift, gets.
  now rewrite H, Hd.
Qed.

(** Past the gate the call is the retried attempt between entering and
    leaving the latch. *)
Lemma appendToStream_running (config : PgStreamStoreConfig.t)
  (pool : Driver) (streamId expectedVersion : JsVal)
  (newMessages : list NewStreamMessage.t) (s : Store) :
  checkAppendArguments streamId expectedVersion newMessages = Returned tt ->
  disposing s = false ->
  appendToStream config pool streamId expectedVersion newMessages s
  = let (r, s') :=
      Fejl.retry
        (retryableAppendToStream config pool streamId expectedVersion
           newMessages)
        (retryOpts) (latchEnter s) in
    (match r with
     | Returned row =>
         Returned
           {| AppendToStreamResult.streamPosition :=
                InsertResult.current_position row;
              AppendToStreamResult.streamVersion :=
                InsertResult.current_version row |}
     | Thrown e => Thrown e
     end, latchExit s').
Proof.
  intros H Hd. unfold appendToStream, bind, lift, gets, modify, tryFinally.
  rewrite H, Hd.
  destruct (Fejl.retry _ retryOpts (latchEnter s)) as [[row|e] s'];
    [|reflexivity].
  rewrite maybeScavenge_eq. unfold ret.
  destruct (scavengeSynchronously config || disposing s'); reflexivity.
Qed.

(** *** The retry loop *)

Lemma retryLoop_settles {A} (fn : (Error -> Error) -> M A)
  (opts : RetryOptions.t) (retriesLeft attempt : nat) (s s' : Store)
  (r : Outcome A) :
  fn Again s = (r, s') ->
  (forall cause, r <> Thrown (Again cause)) ->
  Fejl.retryLoop fn opts retriesLeft attempt s = (r, s').
Proof.
  intros H Hr. destruct retriesLeft; simpl; rewrite H;
    destruct r as [a|e]; try reflexivity;
    destruct e; try reflexivity; now destruct (Hr e).
Qed.

Lemma retryLoop_again {A} (fn : (Error -> Error) -> M A)
  (opts : RetryOptions.t) (retriesLeft attempt : nat) (s s' : Store)
  (cause : Error) :
  fn Again s = (Thrown (Again cause), s') ->
  Fejl.retryLoop fn opts (S retriesLeft) attempt s
  = Fejl.retryLoop fn opts retriesLeft (S attempt)
      (record (Backoff attempt opts) s').
Proof. intros H. simpl. now rewrite H. Qed.

Lemma retryLoop_exhausted {A} (fn : (Error -> Error) -> M A)
  (opts : RetryOptions.t) (attempt : nat) (s s' : Store) (cause : Error) :
  fn Again s = (Thrown (Again cause), s') ->
  Fejl.retryLoop fn opts 0 attempt s = (Thrown cause, s').
Proof. intros H. simpl. now rewrite H. Qed.

(** *** How an attempt classifies the answer of the pool *)

Lemma attemptOutcome_conflict_Any (expectedVersion : JsVal) (e : Error) :
  isConcurrencyUniqueConstraintViolation e = true ->
  strictEqNum expectedVersion ExpectedVersion.Any = true ->
  attemptOutcome expectedVersion (Thrown e) = Thrown (Again e).
Proof.
  intros He Hv. unfold attemptOutcome, handlePotentialConcurrencyError.
  now rewrite He, Hv.
Qed.

Lemma attemptOutcome_conflict_other (expectedVersion : JsVal) (e : Error) :
  isConcurrencyUniqueConstraintViolation e = true ->
  strictEqNum expectedVersion ExpectedVersion.Any = false ->
  attemptOutcome expectedVersion (Thrown e) = Thrown ConcurrencyError.
Proof.
  intros He Hv. unfold attemptOutcome, handlePotentialConcurrencyError.
  now rewrite He, Hv.
Qed.

Lemma attemptOutcome_sentinel (expectedVersion : JsVal)
  (row : InsertResult.t) :
  InsertResult.current_version row = AppendResultCodes.ConcurrencyIssue ->
  attemptOutcome expectedVersion (Returned row) = Thrown ConcurrencyError.
Proof.
  intros H. unfold attemptOutcome. now rewrite H, Z.eqb_refl.
Qed.

Lemma attemptOutcome_row (expectedVersion : JsVal) (row : InsertResult.t) :
  InsertResult.current_version row <> AppendResultCodes.ConcurrencyIssue ->
  attemptOutcome expectedVersion (Returned row) = Returned row.
Proof.
  intros H. unfold attemptOutcome. apply Z.eqb_neq in H. now rewrite H.
Qed.

Lemma attemptOutcome_duplicate (expectedVersion : JsVal) (e : Error) :
  isDuplicateMessageIdUniqueConstraintViolation e = true ->
  attemptOutcome expectedVersion (Thrown e)
  = Thrown
      (DuplicateMessageError (extractUuidKeyFromConstraintViolationError e)).
Proof.
  intros He. unfold attemptOutcome, handlePotentialConcurrencyError.
  now rewrite (duplicate_is_not_concurrency e He), He.
Qed.

(** As long as the attempts hit conflicts under [ExpectedVersion.Any],
    the loop goes on to the next attempt. *)
Lemma retryLoop_conflicts (config : PgStreamStoreConfig.t) (pool : Driver)
  (streamId expectedVersion : JsVal)
  (newMessages : list NewStreamMessage.t) (k : nat) :
  strictEqNum expectedVersion ExpectedVersion.Any = true ->
  forall (retriesLeft attempt : nat) (st : Store),
    (forall j, (j < k)%nat ->
       let stj := retried config streamId expectedVersion newMessages
                    attempt st j in
       exists e,
         nextAnswer (run_append pool) stj
           (appendQuery config streamId expectedVersion newMessages stj)
         = Thrown e
         /\ isConcurrencyUniqueConstraintViolation e = true) ->
    Fejl.retryLoop
      (retryableAppendToStream config pool streamId expectedVersion
         newMessages)
      retryOpts (k + retriesLeft) attempt st
    = Fejl.retryLoop
        (retryableAppendToStream config pool streamId expectedVersion
           newMessages)
        retryOpts retriesLeft (k + attempt)
        (retried config streamId expectedVersion newMessages attempt st k).
Proof.
  intros Hany. induction k as [|k IH]; intros retriesLeft attempt st Hconf.
  - reflexivity.
  - destruct (Hconf 0%nat (Nat.lt_0_succ k)) as [e [Hanswer He]].
    cbn [retried] in Hanswer.
    change (S k + retriesLeft)%nat with (S (k + retriesLeft)).
    rewrite retryLoop_again with (cause := e)
      (s' := record
               (Issued
                  (appendQuery config streamId expectedVersion newMessages st))
               st).
    + rewrite IH.
      * cbn [retried]. now rewrite Nat.add_succ_r.
      * intros j Hj. apply (Hconf (S j)). lia.
    + rewrite retryableAppendToStream_eq. cbv zeta. rewrite Hanswer.
      now rewrite attemptOutcome_conflict_Any.
Qed.

Lemma issued_retried (config : PgStreamStoreConfig.t)
  (streamId expectedVersion : JsVal)
  (newMessages : list NewStreamMessage.t) (k : nat) :
  forall (attempt : nat) (st : Store),
  exists l,
    issued
      (trace (retried config streamId expectedVersion newMessages attempt st k))
    = (issued (trace st) ++ l)%list
    /\ length l = k.
Proof.
  induction k as [|k IH]; intros attempt st.
  - exists []. split; [now rewrite app_nil_r | reflexivity].
  - cbn [retried].
    destruct (IH (S attempt)
                (record (Backoff attempt retryOpts)
                   (record
                      (Issued
                         (appendQuery config streamId expectedVersion
                            newMessages st))
                      st)))
      as [l [Hl Hlen]].
    rewrite Hl. rewrite !trace_record, !issued_app. simpl.
    rewrite app_nil_r, <- app_assoc. simpl.
    eexists. split; [reflexivity|]. simpl. now rewrite Hlen.
Qed.

Lemma issuedBy_settledAfter {A} (m : M A) (config : PgStreamStoreConfig.t)
  (streamId expectedVersion : JsVal)
  (newMessages : list NewStreamMessage.t) (s : Store) (k : nat) :
  snd (m s) = settledAfter config streamId expectedVersion newMessages s k ->
  length (issuedBy m s) = S k.
Proof.
  intros H. unfold issuedBy. rewrite H.
  unfold settledAfter, attemptState. cbv zeta.
  destruct (issued_retried config streamId expectedVersion newMessages k 0
              (latchEnter s)) as [l [Hl Hlen]].
  change (trace (latchExit ?x)) with (trace x ++ [LatchExit])%list.
  rewrite issued_app, trace_record, issued_app, Hl.
  change (trace (latchEnter s)) with (trace s ++ [LatchEnter])%list.
  rewrite issued_app. simpl. rewrite !app_nil_r, <- app_assoc.
  rewrite skipn_app, skipn_all, Nat.sub_diag. simpl.
  rewrite length_app. simpl. lia.
Qed.

(** The call when its attempt number [k] settles it: the [k] attempts
    before it hit conflicts under [ExpectedVersion.Any], and attempt [k]
    itself either does not ask to be run again or is the last one allowed. *)
Lemma appendToStream_after_conflicts (config : PgStreamStoreConfig.t)
  (pool : Driver) (streamId expectedVersion : JsVal)
  (newMessages : list NewStreamMessage.t) (s : Store) (k : nat)
  (r : Outcome InsertResult.t) :
  checkAppendArguments streamId expectedVersion newMessages = Returned tt ->
  disposing s = false ->
  (k = 0%nat \/ strictEqNum expectedVersion ExpectedVersion.Any = true) ->
  (k < 200)%nat ->
  (forall i, (i < k)%nat ->
     conflictAt config pool streamId expectedVersion newMessages s i) ->
  (attemptOutcome expectedVersion
     (attemptAnswer config pool streamId expectedVersion newMessages s k)
   = r /\ (forall cause, r <> Thrown (Again cause))
   \/ k = 199%nat
      /\ exists cause,
           attemptOutcome expectedVersion
             (attemptAnswer config pool streamId expectedVersion newMessages
                s k)
           = Thrown (Again cause) /\ r = Thrown cause) ->
  appendToStream config pool streamId expectedVersion newMessages s
  = (match r with
     | Returned row =>
         Returned
           {| AppendToStreamResult.streamPosition :=
                InsertResult.current_position row;
              AppendToStreamResult.streamVersion :=
                InsertResult.current_version row |}
     | Thrown e => Thrown e
     end,
     settledAfter config streamId expectedVersion newMessages s k).
Proof.
  intros Hcheck Hd Hany Hk Hconf Hlast.
  rewrite appendToStream_running by assumption.
  unfold Fejl.retry. cbn [retryOpts RetryOptions.tries Nat.pred].
  assert (Hloop :
    Fejl.retryLoop
      (retryableAppendToStream config pool streamId expectedVersion
         newMessages) retryOpts 199 0 (latchEnter s)
    = Fejl.retryLoop
        (retryableAppendToStream config pool streamId expectedVersion
           newMessages) retryOpts (199 - k) (k + 0)
        (attemptState config streamId expectedVersion newMessages s k)).
  { destruct Hany as [->|Hany]; [reflexivity|].
    replace 199%nat with (k + (199 - k))%nat at 1 by lia.
    apply retryLoop_conflicts; [exact Hany|].
    intros j Hj. exact (Hconf j Hj). }
  rewrite Hloop. unfold settledAfter. cbv zeta.
  destruct Hlast as [[Hr Hsettled]|[-> [cause [Hr ->]]]].
  - erewrite retryLoop_settles; [reflexivity| |exact Hsettled].
    rewrite retryableAppendToStream_eq. cbv zeta.
    unfold attemptAnswer in Hr. cbv zeta in Hr. now rewrite Hr.
  - change (199 - 199)%nat with 0%nat.
    erewrite retryLoop_exhausted; [reflexivity|].
    rewrite retryableAppendToStream_eq. cbv zeta.
    unfold attemptAnswer in Hr. cbv zeta in Hr. now rewrite Hr.
Qed.

Lemma backoffs_app (t u : list Event) :
  backoffs (t ++ u) = (backoffs t ++ backoffs u)%list.
Proof.
  induction t as [|e t IH]; [reflexivity|].
  destruct e; simpl; now rewrite ?IH.
Qed.

(** The attempts that asked to be run again were each followed by one
    pause, numbered in turn and taken under [retryOpts]. *)
Lemma backoffs_retried (config : PgStreamStoreConfig.t)
  (streamId expectedVersion : JsVal)
  (newMessages : list NewStreamMessage.t) (k : nat) :
  forall (attempt : nat) (st : Store),
    backoffs
      (trace (retried config streamId expectedVersion newMessages attempt st k))
    = (backoffs (trace st)
       ++ map (fun i => (i, retryOpts)) (seq attempt k))%list.
Proof.
  induction k as [|k IH]; intros attempt st.
  - cbn [retried seq map]. now rewrite app_nil_r.
  - cbn [retried seq map]. rewrite IH, !trace_record, !backoffs_app.
    cbn [backoffs]. now rewrite app_nil_r, <- app_assoc.
Qed.

Lemma backoffs_settledAfter (config : PgStreamStoreConfig.t)
  (streamId expectedVersion : JsVal)
  (newMessages : list NewStreamMessage.t) (s : Store) (k : nat) :
  backoffs
    (trace (settledAfter config streamId expectedVersion newMessages s k))
  = (backoffs (trace s)
     ++ map (fun i => (i, retryOpts)) (seq 0 k))%list.
Proof.
  unfold settledAfter, attemptState. cbn [latchExit trace].
  rewrite backoffs_app, trace_record, backoffs_app, backoffs_retried.
  cbn [latchEnter trace]. rewrite backoffs_app. cbn [backoffs].
  now rewrite !app_nil_r.
Qed.

(** C2 (amended).  An append is attempted at most 200 times, and every
    pause between two attempts is taken by the retry primitive under the
    options [factor = 1.05], [minTimeout = 0], [maxTimeout = 50].  When
    an attempt hits a unique-constraint violation on [stream_id_key] or
    [message_stream_id_internal_stream_version_unique] and
    [expectedVersion] is [ExpectedVersion.Any], the append pauses and is
    attempted again, until an attempt settles it or the 200th attempt has
    failed; for any other [expectedVersion] it fails at once with
    [ConcurrencyError] after a single statement and no pause.  When the
    pool answers an attempt with the sentinel [current_version = -9] the
    append fails with [ConcurrencyError] and that attempt is not run
    again, whatever [expectedVersion] is: under [ExpectedVersion.Any]
    this holds for the first attempt and for an attempt that follows
    retried violations. *)
Theorem append_concurrency_conflict (config : PgStreamStoreConfig.t)
  (pool : Driver) (streamId expectedVersion : JsVal)
  (newMessages : list NewStreamMessage.t) (s : Store) :
  checkAppendArguments streamId expectedVersion newMessages = Returned tt ->
  disposing s = false ->
  let call :=
    appendToStream config pool streamId expectedVersion newMessages in
  let conflict :=
    conflictAt config pool streamId expectedVersion newMessages s in
  let answer :=
    attemptAnswer config pool streamId expectedVersion newMessages s in
  let settled :=
    settledAfter config streamId expectedVersion newMessages s in
  let options :=
    {| RetryOptions.factor := 1.05;
       RetryOptions.tries := 200;
       RetryOptions.minTimeout := 0;
       RetryOptions.maxTimeout := 50 |} in
  let paused (k : nat) :=
    backoffs (trace (snd (call s)))
    = (backoffs (trace s) ++ map (fun i => (i, options)) (seq 0 k))%list in
  retryOpts = options
  /\ (strictEqNum expectedVersion ExpectedVersion.Any = true ->
      forall k,
        (k < 200)%nat ->
        (forall i, (i < k)%nat -> conflict i) ->
        (forall row,
           answer k = Returned row ->
           InsertResult.current_version row
           <> AppendResultCodes.ConcurrencyIssue ->
           call s =
           (Returned
              {| AppendToStreamResult.streamPosition :=
                   InsertResult.current_position row;
                 AppendToStreamResult.streamVersion :=
                   InsertResult.current_version row |},
            settled k)
           /\ length (issuedBy call s) = S k
           /\ paused k)
        /\ (forall row,
              answer k = Returned row ->
              InsertResult.current_version row
              = AppendResultCodes.ConcurrencyIssue ->
              call s = (Thrown ConcurrencyError, settled k)
              /\ length (issuedBy call s) = S k
              /\ paused k)
        /\ (k = 199%nat ->
            forall e,
              answer k = Thrown e ->
              isConcurrencyUniqueConstraintViolation e = true ->
              call s = (Thrown e, settled k)
              /\ length (issuedBy call s) = 200%nat
              /\ paused k))
  /\ (strictEqNum expectedVersion ExpectedVersion.Any = false ->
      conflict 0%nat ->
      call s = (Thrown ConcurrencyError, settled 0%nat)
      /\ length (issuedBy call s) = 1%nat
      /\ paused 0%nat)
  /\ (forall row,
        answer 0%nat = Returned row ->
        InsertResult.current_version row
        = AppendResultCodes.ConcurrencyIssue ->
        call s = (Thrown ConcurrencyError, settled 0%nat)
        /\ length (issuedBy call s) = 1%nat
        /\ paused 0%nat).
Proof.
  intros Hcheck Hd call conflict answer settled options paused.
  assert (Hsettled :
            forall r k,
              call s = (r, settled k) ->
              call s = (r, settled k)
              /\ length (issuedBy call s) = S k
              /\ paused k).
  { intros r k E. split; [exact E|]. split.
    - apply issuedBy_settledAfter with (config := config)
        (streamId := streamId) (expectedVersion := expectedVersion)
        (newMessages := newMessages).
      now rewrite E.
    - unfold paused. rewrite E. cbn [snd]. apply backoffs_settledAfter. }
  split; [reflexivity|]. split; [|split].
  - intros Hany k Hk Hconf. split; [|split].
    + intros row Hrow Hversion. apply Hsettled.
      apply (appendToStream_after_conflicts config pool streamId
               expectedVersion newMessages s k (Returned row));
        auto.
      left. split; [|discriminate].
      fold answer. rewrite Hrow. now apply attemptOutcome_row.
    + intros row Hrow Hversion. apply Hsettled.
      apply (appendToStream_after_conflicts config pool streamId
               expectedVersion newMessages s k (Thrown ConcurrencyError));
        auto.
      left. split; [|discriminate].
      fold answer. rewrite Hrow. now apply attemptOutcome_sentinel.
    + intros -> e He Hviolation. apply (Hsettled (Thrown e) 199%nat).
      apply (appendToStream_after_conflicts config pool streamId
               expectedVersion newMessages s 199 (Thrown e));
        auto.
      right. split; [reflexivity|]. exists e. split; [|reflexivity].
      fold answer. rewrite He. now apply attemptOutcome_conflict_Any.
  - intros Hother [e [He Hviolation]]. apply Hsettled.
    apply (appendToStream_after_conflicts config pool streamId
             expectedVersion newMessages s 0 (Thrown ConcurrencyError));
      auto; try lia.
    left. split; [|discriminate].
    rewrite He. now apply attemptOutcome_conflict_other.
  - intros row Hrow Hversion. apply Hsettled.
    apply (appendToStream_after_conflicts config pool streamId
             expectedVersion newMessages s 0 (Thrown ConcurrencyError));
      auto; try lia.
    left. split; [|discriminate].
    fold answer. rewrite Hrow. now apply attemptOutcome_sentinel.
Qed.

Lemma append_concurrency_conflict_witness :
  let call :=
    appendToStream Sample.config
      (Sample.appendFailsFirst 3
         (Sample.uniqueViolation "stream_id_key" Sample.uuid))
      (JStr "orders") (JNum ExpectedVersion.Any) [Sample.message] in
  fst (call createPostgresStreamStore)
  = Returned
      {| AppendToStreamResult.streamPosition := "1";
         AppendToStreamResult.streamVersion := 0 |}
  /\ length (issuedBy call createPostgresStreamStore) = 4%nat
  /\ backoffs (trace (snd (call createPostgresStreamStore)))
     = map
         (fun i =>
            (i,
             {| RetryOptions.factor := 1.05;
                RetryOptions.tries := 200;
                RetryOptions.minTimeout := 0;
                RetryOptions.maxTimeout := 50 |}))
         [0; 1; 2]%nat.
Proof.
  intros call.
  destruct (append_concurrency_conflict Sample.config
              (Sample.appendFailsFirst 3
                 (Sample.uniqueViolation "stream_id_key" Sample.uuid))
              (JStr "orders") (JNum ExpectedVersion.Any) [Sample.message]
              createPostgresStreamStore eq_refl eq_refl)
    as [_ [Hany _]].
  destruct (Hany eq_refl 3%nat) as [Hsettles _].
  - lia.
  - intros i Hi.
    destruct i as [|[|[|i]]]; [| | |lia];
      (exists (Sample.uniqueViolation "stream_id_key" Sample.uuid);
       split; reflexivity).
  - destruct (Hsettles (InsertResult.make 0 "1" JNull JNull) eq_refl)
      as [Hcall [Hissued Hpaused]].
    + discriminate.
    + split; [unfold call; now rewrite Hcall|].
      split; [exact Hissued | exact Hpaused].
Defined.

(** Under [ExpectedVersion.Any], two violations that are retried and then
    the sentinel: the third attempt is not run again, and the append
    fails with [ConcurrencyError] after three statements and two pauses. *)
Example append_sentinel_after_retried_violations :
  let pool :=
    {| run_append :=
         fun n _ =>
           if (n <? 2)%nat
           then Thrown (Sample.uniqueViolation "stream_id_key" Sample.uuid)
           else Returned Sample.conflictRow;
       run_readHeadPosition := run_readHeadPosition Sample.emptyPool;
       run_readStream := run_readStream Sample.emptyPool;
       run_readAllMessages := run_readAllMessages Sample.emptyPool;
       run_setStreamMetadata := run_setStreamMetadata Sample.emptyPool;
       run_deleteStream := run_deleteStream Sample.emptyPool;
       run_deleteMessages := run_deleteMessages Sample.emptyPool |} in
  let call :=
    appendToStream Sample.config pool (JStr "orders")
      (JNum ExpectedVersion.Any) [Sample.message] in
  fst (call createPostgresStreamStore) = Thrown ConcurrencyError
  /\ length (issuedBy call createPostgresStreamStore) = 3%nat
  /\ map fst (backoffs (trace (snd (call createPostgresStreamStore))))
     = [0; 1]%nat.
Proof. vm_compute. repeat split. Qed.

(** The claim as stated fails for the sentinel: under
    [ExpectedVersion.Any] an append that is answered with
    [current_version = -9] is not attempted again; it fails with
    [ConcurrencyError] after one statement. *)
Lemma append_sentinel_under_Any_is_not_retried :
  let call :=
    appendToStream Sample.config
      (Sample.appendAnswers (Returned Sample.conflictRow))
      (JStr "orders") (JNum ExpectedVersion.Any) [Sample.message] in
  fst (call createPostgresStreamStore) = Thrown ConcurrencyError
  /\ issuedBy call createPostgresStreamStore
     = [QAppend (JStr "orders") "$$orders" (JNum (-2)) JNull
          [Sample.message]]
  /\ ~ (1 < length (issuedBy call createPostgresStreamStore))%nat.
Proof.
  vm_compute. repeat split. intros H.
  exact (Nat.lt_irrefl 1 H).
Qed.

(** C5.  When the attempt that settles an append is answered with a
    unique-constraint violation on [message_message_id_key], the append
    is not attempted again, whatever [expectedVersion] is: it fails with
    [DuplicateMessageError], and the [id] of the error is the key that the
    pattern [=(...)] captures in the detail field of the driver's error,
    the offending UUID. *)
Theorem append_duplicate_message (config : PgStreamStoreConfig.t)
  (pool : Driver) (streamId expectedVersion : JsVal)
  (newMessages : list NewStreamMessage.t) (s : Store) (k : nat) (e : Error) :
  checkAppendArguments streamId expectedVersion newMessages = Returned tt ->
  disposing s = false ->
  (k = 0%nat \/ strictEqNum expectedVersion ExpectedVersion.Any = true) ->
  (k < 200)%nat ->
  (forall i, (i < k)%nat ->
     conflictAt config pool streamId expectedVersion newMessages s i) ->
  attemptAnswer config pool streamId expectedVersion newMessages s k
  = Thrown e ->
  isDuplicateMessageIdUniqueConstraintViolation e = true ->
  let call :=
    appendToStream config pool streamId expectedVersion newMessages in
  call s
  = (Thrown
       (DuplicateMessageError (extractUuidKeyFromConstraintViolationError e)),
     settledAfter config streamId expectedVersion newMessages s k)
  /\ length (issuedBy call s) = S k
  /\ (forall pre key post,
        detail e = JStr (pre ++ "=(" ++ key ++ String ")" post) ->
        allChars (fun c => negb (c =? "=")%char) pre = true ->
        Invariant.isUuid key = true ->
        extractUuidKeyFromConstraintViolationError e = key).
Proof.
  intros Hcheck Hd Hany Hk Hconf Hanswer Hdup call.
  assert (E : call s
    = (Thrown
         (DuplicateMessageError
            (extractUuidKeyFromConstraintViolationError e)),
       settledAfter config streamId expectedVersion newMessages s k)).
  { apply (appendToStream_after_conflicts config pool streamId
             expectedVersion newMessages s k
             (Thrown
                (DuplicateMessageError
                   (extractUuidKeyFromConstraintViolationError e))));
      auto.
    left. split; [|discriminate].
    rewrite Hanswer. now apply attemptOutcome_duplicate. }
  split; [exact E|]. split.
  - apply issuedBy_settledAfter with (config := config)
      (streamId := streamId) (expectedVersion := expectedVersion)
      (newMessages := newMessages).
    now rewrite E.
  - intros pre key post Hdetail Hpre Hkey.
    unfold extractUuidKeyFromConstraintViolationError. rewrite Hdetail.
    cbn [Js.toString].
    rewrite execKeyPattern_key; [reflexivity | exact Hpre |].
    now apply uuid_keyChars.
Qed.

Lemma append_duplicate_message_witness :
  let call :=
    appendToStream Sample.config
      (Sample.appendAnswers
         (Thrown (Sample.uniqueViolation "message_message_id_key"
                    Sample.uuid)))
      (JStr "orders") (JNum ExpectedVersion.Any) [Sample.message] in
  fst (call createPostgresStreamStore)
  = Thrown (DuplicateMessageError Sample.uuid)
  /\ length (issuedBy call createPostgresStreamStore) = 1%nat.
Proof.
  intros call.
  destruct (append_duplicate_message Sample.config
              (Sample.appendAnswers
                 (Thrown (Sample.uniqueViolation "message_message_id_key"
                            Sample.uuid)))
              (JStr "orders") (JNum ExpectedVersion.Any) [Sample.message]
              createPostgresStreamStore 0
              (Sample.uniqueViolation "message_message_id_key" Sample.uuid))
    as [Hcall [Hissued Hkey]].
  - reflexivity.
  - reflexivity.
  - now left.
  - lia.
  - intros i Hi. lia.
  - reflexivity.
  - reflexivity.
  - split; [|exact Hissued].
    unfold call. rewrite Hcall. cbn [fst].
    rewrite (Hkey "Key (message_id)" Sample.uuid " already exists.");
      reflexivity.
Defined.

(** ** The checks of [appendToStream] *)

Lemma assert_thrown (cond : bool) (message : string) (e : Error) :
  Invariant.assert cond message = Thrown e ->
  e = InvalidParameterError message.
Proof.
  unfold Invariant.assert. destruct cond; [discriminate|].
  intros H. now inversion H.
Qed.

Lemma andThen_thrown {B} (a : Outcome unit) (b : Outcome B) (e : Error)
  (P : Error -> Prop) :
  (a = Thrown e -> P e) -> (b = Thrown e -> P e) ->
  andThen a b = Thrown e -> P e.
Proof.
  unfold andThen, andThenWith. destruct a as [u|e']; [auto|].
  intros Ha _ H. apply Ha. now inversion H.
Qed.

Lemma andThen_returned {B} (a : Outcome unit) (b : Outcome B) (x : B) :
  andThen a b = Returned x -> a = Returned tt /\ b = Returned x.
Proof.
  unfold andThen, andThenWith. destruct a as [[]|e]; [auto|discriminate].
Qed.

Lemma forEachFrom_thrown {A} (f : A -> nat -> Outcome unit) (l : list A)
  (e : Error) (P : Error -> Prop) :
  (forall x i, f x i = Thrown e -> P e) ->
  forall i, forEachFrom i f l = Thrown e -> P e.
Proof.
  intros Hf. induction l as [|x l IH]; intros i; simpl; [discriminate|].
  destruct (f x i) as [u|e'] eqn:E.
  - apply IH.
  - intros H. inversion H. subst e'. now apply (Hf x i).
Qed.

Lemma forEachFrom_returned {A} (f : A -> nat -> Outcome unit) (l : list A) :
  forall i,
    forEachFrom i f l = Returned tt ->
    Forall (fun x => exists j, f x j = Returned tt) l.
Proof.
  induction l as [|x l IH]; intros i; simpl; intros H; [constructor|].
  destruct (f x i) as [[]|e] eqn:E; [|discriminate].
  constructor; [now exists i | now apply (IH (S i))].
Qed.

(** The checks throw nothing but [InvalidParameterError]. *)
Lemma checkAppendArguments_thrown (streamId expectedVersion : JsVal)
  (newMessages : list NewStreamMessage.t) (e : Error) :
  checkAppendArguments streamId expectedVersion newMessages = Thrown e ->
  exists message, e = InvalidParameterError message.
Proof.
  unfold checkAppendArguments, forEach,
    Invariant.requiredString, Invariant.notOperationalStream,
    Invariant.required, Invariant.uuid.
  set (P := fun e : Error => exists message, e = InvalidParameterError message).
  change (exists message, e = InvalidParameterError message) with (P e).
  assert (Hassert : forall cond message,
             Invariant.assert cond message = Thrown e -> P e).
  { intros cond message H. apply assert_thrown in H. now exists message. }
  repeat (apply (andThen_thrown _ _ e P); [apply Hassert|]).
  apply (forEachFrom_thrown _ _ e P). intros m i.
  repeat (apply (andThen_thrown _ _ e P); [apply Hassert|]).
  apply Hassert.
Qed.

Lemma required_present (name : string) (v : JsVal) :
  Invariant.required name v = Returned tt -> present v /\ v <> JStr "".
Proof.
  unfold Invariant.required, Invariant.assert, present.
  destruct v; try discriminate; intros H; repeat split; try discriminate.
  intros E. inversion E. subst s. discriminate.
Qed.

(** Arguments that pass the checks satisfy what the specification asks. *)
Lemma checkAppendArguments_returned (streamId expectedVersion : JsVal)
  (newMessages : list NewStreamMessage.t) :
  checkAppendArguments streamId expectedVersion newMessages = Returned tt ->
  writableStreamId streamId
  /\ present expectedVersion
  /\ Forall wellFormedMessage newMessages.
Proof.
  unfold checkAppendArguments, forEach. intros H.
  apply andThen_returned in H. destruct H as [Hstring H].
  apply andThen_returned in H. destruct H as [Hoperational H].
  apply andThen_returned in H. destruct H as [Hversion Hmessages].
  split; [|split].
  - unfold Invariant.requiredString, Invariant.assert in Hstring.
    destruct streamId as [| | | |sid|]; try discriminate.
    exists sid. split; [reflexivity|].
    unfold Invariant.notOperationalStream, Invariant.assert in Hoperational.
    split.
    + intros ->. discriminate.
    + destruct (startsWith sid "$"); [discriminate|reflexivity].
  - now apply required_present in Hversion.
  - apply forEachFrom_returned in Hmessages.
    eapply Forall_impl; [|exact Hmessages].
    intros m [i Hm].
    apply andThen_returned in Hm. destruct Hm as [_ Hm].
    apply andThen_returned in Hm. destruct Hm as [Huuid Hm].
    apply andThen_returned in Hm. destruct Hm as [Htype Hdata].
    split; [|split].
    + unfold Invariant.uuid, Invariant.assert in Huuid.
      destruct (NewStreamMessage.messageId m) as [| | | |u|];
        try discriminate.
      exists u. split; [reflexivity|].
      destruct (Invariant.isUuid u); [reflexivity|discriminate].
    + now apply required_present in Htype.
    + now apply required_present in Hdata.
Qed.

(** C4.  When the arguments of [appendToStream] are not valid (the
    [streamId] is not a non-empty string or begins with [$], the
    [expectedVersion] is absent, or some message lacks a UUID [messageId],
    a non-empty [type] or non-null [data]) the call throws
    [InvalidParameterError] and leaves the store as it was: the latch is
    not entered and no statement is sent. *)
Theorem appendToStream_invalid_parameter (config : PgStreamStoreConfig.t)
  (pool : Driver) (streamId expectedVersion : JsVal)
  (newMessages : list NewStreamMessage.t) (s : Store) :
  ~ (writableStreamId streamId
     /\ present expectedVersion
     /\ Forall wellFormedMessage newMessages) ->
  exists message,
    appendToStream config pool streamId expectedVersion newMessages s
    = (Thrown (InvalidParameterError message), s).
Proof.
  intros Hinvalid.
  destruct (checkAppendArguments streamId expectedVersion newMessages)
    as [[]|e] eqn:E.
  - destruct Hinvalid. now apply checkAppendArguments_returned.
  - destruct (checkAppendArguments_thrown _ _ _ _ E) as [message ->].
    exists message. now apply appendToStream_rejected.
Qed.

(** The test [throws on bad stream name] of the append suite. *)
Lemma appendToStream_invalid_parameter_witness :
  exists message,
    appendToStream Sample.config Sample.emptyPool (JStr "$lol")
      (JNum ExpectedVersion.Any) [] createPostgresStreamStore
    = (Thrown (InvalidParameterError message), createPostgresStreamStore).
Proof.
  apply (appendToStream_invalid_parameter Sample.config Sample.emptyPool
           (JStr "$lol") (JNum ExpectedVersion.Any) []
           createPostgresStreamStore).
  intros [[sid [Hsid [_ Hdollar]]] _].
  inversion Hsid. subst sid. vm_compute in Hdollar. discriminate.
Defined.

(** The test [throws an error when not passing in proper args]. *)
Example appendToStream_messages_of_the_tests :
  fst (appendToStream Sample.config Sample.emptyPool (JBool false)
         (JNum ExpectedVersion.Any) [] createPostgresStreamStore)
  = Thrown (InvalidParameterError "streamId is required")
  /\ fst (appendToStream Sample.config Sample.emptyPool (JStr Sample.uuid)
            (JNum ExpectedVersion.Any)
            [NewStreamMessage.make JUndefined JUndefined JUndefined
               JUndefined]
            createPostgresStreamStore)
     = Thrown (InvalidParameterError "newMessages[0].messageId is required").
Proof. split; reflexivity. Qed.

(** ** Writing to a store that is being disposed *)


Lemma emitsOnly_trans (P : Event -> Prop) (a b c : Store) :
  emitsOnly P a b -> emitsOnly P b c -> emitsOnly P a c.
Proof.
  intros [t [Ht Pt]] [u [Hu Pu]]. exists (t ++ u)%list. split.
  - now rewrite Hu, Ht, app_assoc.
  - apply Forall_app. now split.
Qed.

Lemma emitsOnly_record (P : Event -> Prop) (e : Event) (s : Store) :
  P e -> emitsOnly P s (record e s).
Proof. intros H. exists [e]. split; [reflexivity | now constructor]. Qed.

Lemma emitsOnly_same_trace (P : Event -> Prop) (s s' : Store) :
  trace s' = trace s -> emitsOnly P s s'.
Proof.
  intros H. exists []. split; [now rewrite app_nil_r | constructor].
Qed.

(** The retried call begins with the statement of its first attempt. *)
Lemma retryLoop_first_statement {A} (fn : (Error -> Error) -> M A)
  (opts : RetryOptions.t) (retriesLeft attempt : nat) (st : Store)
  (q : Query) :
  (forall s, exists q', snd (fn Again s) = record (Issued q') s) ->
  snd (fn Again st) = record (Issued q) st ->
  exists rest,
    trace (snd (Fejl.retryLoop fn opts retriesLeft attempt st))
    = (trace st ++ Issued q :: rest)%list.
Proof.
  intros Hfn Hq.
  assert (Hloop : forall n a, steps (emitsOnly (fun _ => True))
                                (Fejl.retryLoop fn opts n a)).
  { intros n a.
    apply steps_retryLoop.
    - apply emitsOnly_trans.
    - intros e s _ _ _. now apply emitsOnly_record.
    - intros s. destruct (Hfn s) as [q' ->]. now apply emitsOnly_record. }
  destruct retriesLeft as [|k]; simpl;
    destruct (fn Again st) as [[a|e] s'] eqn:E; simpl in Hq; subst s'.
  - now exists [].
  - exists []. now destruct e.
  - now exists [].
  - destruct e; try (now exists []).
    destruct (Hloop k (S attempt)
                (record (Backoff attempt opts) (record (Issued q) st)))
      as [t [Ht _]].
    rewrite Ht. rewrite !trace_record, <- !app_assoc. simpl.
    now exists (Backoff attempt opts :: t).
Qed.

Lemma retryableDeleteStream_state (config : PgStreamStoreConfig.t)
  (pool : Driver) (v4 : nat -> string) (streamId expectedVersion : JsVal)
  (s : Store) :
  exists q,
    snd (retryableDeleteStream config pool v4 streamId expectedVersion
           Again s)
    = record (Issued q) s.
Proof.
  unfold retryableDeleteStream, tryCatch, bind, getCurrentTime, uuidV4,
    query, lift, throw.
  eexists.
  match goal with
  | |- context [run_deleteStream ?p ?n ?q] =>
      destruct (run_deleteStream p n q) as [code|e]
  end; [|reflexivity].
  destruct (throwIfErrorCode code); reflexivity.
Qed.

(** C1, as the code has it.  Once [disposing] is set, [appendToStream]
    with valid arguments fails with [DisposedError] in the state it was
    called in: the latch is not entered and nothing is sent.  The other
    three writes have no such gate: [setStreamMetadata], [deleteStream] and
    [deleteMessage] enter the write latch and send their statement to the
    pool of a store that is being disposed. *)
Theorem writes_while_disposing (config : PgStreamStoreConfig.t)
  (pool : Driver) (v4 : nat -> string) (sid : string)
  (expectedVersion opts messageId : JsVal) (s : Store) :
  disposing s = true ->
  sid <> "" -> startsWith sid "$" = false ->
  Invariant.required "expectedVersion" expectedVersion = Returned tt ->
  Invariant.required "opts" opts = Returned tt ->
  (forall newMessages,
     checkAppendArguments (JStr sid) expectedVersion newMessages
     = Returned tt ->
     appendToStream config pool (JStr sid) expectedVersion newMessages s
     = (Thrown (DisposedError disposedMessage), s))
  /\ (exists q,
        trace
          (snd (setStreamMetadata config pool v4 (JStr sid) expectedVersion
                  opts s))
        = (trace s ++ [LatchEnter; Issued q; LatchExit])%list)
  /\ (exists q rest,
        trace (snd (deleteStream config pool v4 (JStr sid) expectedVersion s))
        = (trace s ++ LatchEnter :: LatchExit :: Issued q :: rest)%list)
  /\ deleteMessage pool (JStr sid) messageId s
     = (run_deleteMessages pool (length (issued (trace s)))
          (QDeleteMessages (JStr sid) [messageId]),
        latchExit
          (record (Issued (QDeleteMessages (JStr sid) [messageId]))
             (latchEnter s))).
Proof.
  intros Hd Hsid Hdollar Hversion Hopts.
  apply String.eqb_neq in Hsid.
  split; [|split; [|split]].
  - intros newMessages Hcheck. now apply appendToStream_disposing.
  - unfold setStreamMetadata, bind, lift, modify, tryFinally,
      getCurrentTime, uuidV4, query.
    unfold Invariant.requiredString, Invariant.assert at 1.
    rewrite Hsid, Hversion, Hopts. cbn [negb].
    eexists.
    match goal with
    | |- context [run_setStreamMetadata ?p ?n ?q] =>
        destruct (run_setStreamMetadata p n q) as [version|e]
    end.
    + destruct (throwIfErrorCode version); cbn [lift];
        rewrite ?maybeScavenge_eq;
        cbn [ret snd latchExit latchEnter trace record];
        rewrite <- !app_assoc; reflexivity.
    + cbn [snd latchExit trace record latchEnter].
      rewrite <- !app_assoc. reflexivity.
  - unfold deleteStream, bind, lift, modify, tryFinally, ret.
    unfold Invariant.requiredString, Invariant.notOperationalStream,
      Invariant.assert at 1 2.
    rewrite Hsid, Hdollar, Hversion. cbn [negb].
    destruct (retryableDeleteStream_state config pool v4 (JStr sid)
                expectedVersion (latchExit (latchEnter s))) as [q Hq].
    exists q.
    destruct (retryLoop_first_statement
                (retryableDeleteStream config pool v4 (JStr sid)
                   expectedVersion)
                retryOpts (Nat.pred (RetryOptions.tries retryOpts)) 0
                (latchExit (latchEnter s)) q
                (retryableDeleteStream_state config pool v4 (JStr sid)
                   expectedVersion) Hq)
      as [rest Hrest].
    exists rest. unfold Fejl.retry. rewrite Hrest.
    cbn [latchExit latchEnter trace]. rewrite <- !app_assoc. reflexivity.
  - unfold deleteMessage, deleteMessages, bind, modify, tryFinally, query.
    cbn [latchEnter trace]. rewrite issued_app. simpl issued.
    now rewrite app_nil_r.
Qed.

Lemma writes_while_disposing_witness :
  let disposed := snd (dispose createPostgresStreamStore) in
  exists q rest,
    trace
      (snd (deleteStream Sample.config Sample.emptyPool
              (fun _ => Sample.uuid) (JStr "orders")
              (JNum ExpectedVersion.Any) disposed))
    = (trace disposed ++ LatchEnter :: LatchExit :: Issued q :: rest)%list.
Proof.
  intros disposed.
  destruct (writes_while_disposing Sample.config Sample.emptyPool
              (fun _ => Sample.uuid) "orders" (JNum ExpectedVersion.Any)
              (JObj []) (JStr Sample.uuid) disposed)
    as [_ [_ [Hdelete _]]].
  - reflexivity.
  - discriminate.
  - reflexivity.
  - reflexivity.
  - reflexivity.
  - exact Hdelete.
Defined.

(** The failing input run through: after [dispose()], [deleteStream]
    returns normally, having entered the latch and sent its statement. *)
Example deleteStream_after_dispose :
  deleteStream Sample.config Sample.emptyPool (fun _ => Sample.uuid)
    (JStr "orders") (JNum ExpectedVersion.Any)
    (snd (dispose createPostgresStreamStore))
  = (Returned tt,
     {| disposing := true;
        writeLatch := 0;
        notifier := None;
        subscriptions := [];
        trace :=
          [LatchWait; PoolEnded; LatchEnter; LatchExit;
           Issued
             (QDeleteStream (JStr "orders") "$deleted" (JNum (-2)) JNull
                {| NewStreamMessage.messageId := JStr Sample.uuid;
                   NewStreamMessage.type := JStr "$streamDeleted";
                   NewStreamMessage.data :=
                     JObj [("streamId", JStr "orders")];
                   NewStreamMessage.meta := JUndefined |})] |}).
Proof. reflexivity. Qed.

(** ** The metadata stream *)

Lemma issuedBy_of_trace {A} (m : M A) (s : Store) (t : list Event) :
  trace (snd (m s)) = (trace s ++ t)%list -> issuedBy m s = issued t.
Proof.
  intros H. unfold issuedBy. rewrite H, issued_app.
  now rewrite skipn_app, skipn_all, Nat.sub_diag.
Qed.










(** The older revision of the file named the metadata stream otherwise. *)
Example legacy_metadata_stream_id :
  Legacy.toMetadataStreamId (JStr "orders") = "$$ meta-orders $$"
  /\ toMetadataStreamId (JStr "orders") = "$$orders".
Proof. split; reflexivity. Qed.


(** ** The notifier cache *)

Lemma notifiersCreated_app (t u : list Event) :
  notifiersCreated (t ++ u)
  = (notifiersCreated t ++ notifiersCreated u)%list.
Proof.
  induction t as [|e t IH]; simpl; [reflexivity|].
  destruct e; simpl; now rewrite ?IH.
Qed.

Lemma subscriptionsCreated_app (t u : list Event) :
  subscriptionsCreated (t ++ u)
  = (subscriptionsCreated t ++ subscriptionsCreated u)%list.
Proof.
  induction t as [|e t IH]; simpl; [reflexivity|].
  destruct e; simpl; now rewrite ?IH.
Qed.

Lemma sameNotifiers_refl (s : Store) : sameNotifiers s s.
Proof. now repeat split. Qed.

Lemma sameNotifiers_trans (a b c : Store) :
  sameNotifiers a b -> sameNotifiers b c -> sameNotifiers a c.
Proof.
  intros [H1 [H2 H3]] [K1 [K2 K3]]. repeat split; congruence.
Qed.

Lemma sameNotifiers_record (e : Event) (s : Store) :
  isNotifierCreated e = false -> isSubscriptionCreated e = false ->
  sameNotifiers s (record e s).
Proof.
  intros Hn Hs. repeat split; cbn [record trace].
  - rewrite notifiersCreated_app. destruct e; try discriminate;
      simpl; now rewrite app_nil_r.
  - rewrite subscriptionsCreated_app. destruct e; try discriminate;
      simpl; now rewrite app_nil_r.
Qed.

Lemma sameNotifiers_latchEnter (s : Store) : sameNotifiers s (latchEnter s).
Proof.
  repeat split; cbn [latchEnter trace].
  - rewrite notifiersCreated_app. simpl. now rewrite app_nil_r.
  - rewrite subscriptionsCreated_app. simpl. now rewrite app_nil_r.
Qed.

Lemma sameNotifiers_latchExit (s : Store) : sameNotifiers s (latchExit s).
Proof.
  repeat split; cbn [latchExit trace].
  - rewrite notifiersCreated_app. simpl. now rewrite app_nil_r.
  - rewrite subscriptionsCreated_app. simpl. now rewrite app_nil_r.
Qed.

Ltac notifiers_side :=
  first
    [ apply sameNotifiers_refl
    | apply sameNotifiers_trans
    | apply sameNotifiers_latchEnter
    | apply sameNotifiers_latchExit
    | intros ? ? ?; apply sameNotifiers_record; reflexivity
    | intros ? ? ? ? ?; apply sameNotifiers_record; assumption
    | intros ?; now repeat split
    | intros ? ?; now repeat split
    | intros; exact I ].

(** No call other than the two subscribe calls touches the notifier
    cache, makes a notifier or makes a subscription. *)
Lemma perform_keeps_notifiers (Position_End : Z)
  (config : PgStreamStoreConfig.t) (pool : Driver) (v4 : nat -> string)
  (c : Call) (s : Store) :
  isSubscribe c = false ->
  sameNotifiers s (perform Position_End config pool v4 c s).
Proof.
  intros Hc. destruct c; try discriminate; cbn [perform].
  - apply steps_appendToStream with (allowed := fun _ => True);
      notifiers_side.
  - apply steps_readHeadPosition with (allowed := fun _ => True);
      notifiers_side.
  - apply steps_readAll with (allowed := fun _ => True); notifiers_side.
  - apply steps_readStream with (allowed := fun _ => True); notifiers_side.
  - apply steps_getStreamMetadata with (allowed := fun _ => True);
      notifiers_side.
  - apply steps_setStreamMetadata with (allowed := fun _ => True);
      notifiers_side.
  - apply steps_deleteMessage with (allowed := fun _ => True);
      notifiers_side.
  - apply steps_deleteStream with (allowed := fun _ => True);
      notifiers_side.
  - apply steps_dispose; notifiers_side.
  - apply steps_disposeSubscription; notifiers_side.
Qed.

Lemma getNotifier_cached (config : PgStreamStoreConfig.t) (s : Store)
  (n : StreamStoreNotifier) :
  notifier s = Some n -> getNotifier config s = (Returned n, s).
Proof. intros H. unfold getNotifier, bind, gets. now rewrite H. Qed.

Lemma getNotifier_fresh (config : PgStreamStoreConfig.t) (s : Store) :
  notifier s = None ->
  let made :=
    {| notifier_ref := length (notifiersCreated (trace s));
       notifier_kind := configuredNotifier config |} in
  getNotifier config s
  = (Returned made, setNotifier made (record (NotifierCreated made) s)).
Proof.
  intros H. unfold getNotifier, bind, gets, createNotifier, modify, ret.
  rewrite H. unfold notifierConfig, configuredNotifier.
  destruct (PgStreamStoreConfig.notifierConfig config) as [c|];
    [|reflexivity].
  destruct (String.eqb (NotifierConfig.type c) "pg-notify");
    [reflexivity|].
  destruct (NotifierConfig.pollingInterval c) as [[| |]|]; reflexivity.
Qed.

Ltac subscribed :=
  cbv zeta;
  unfold createSubscription, pushSubscription, modify, ret;
  cbn [snd fst trace notifier record setNotifier setSubscriptions];
  match goal with
  | |- context [SubscriptionCreated ?sub] => exists sub
  end;
  rewrite <- ?app_assoc; repeat split; try assumption.

(** What a subscribe call does: it constructs a subscription around the
    cached notifier, after constructing and caching the notifier when the
    cache was empty. *)
Lemma perform_subscribe (Position_End : Z) (config : PgStreamStoreConfig.t)
  (pool : Driver) (v4 : nat -> string) (c : Call) (s : Store) :
  isSubscribe c = true ->
  let s' := perform Position_End config pool v4 c s in
  exists sub,
    match notifier s with
    | Some n =>
        subscription_notifier sub = n
        /\ notifier s' = Some n
        /\ trace s' = (trace s ++ [SubscriptionCreated sub])%list
    | None =>
        let made :=
          {| notifier_ref := length (notifiersCreated (trace s));
             notifier_kind := configuredNotifier config |} in
        subscription_notifier sub = made
        /\ notifier s' = Some made
        /\ trace s'
           = (trace s ++ [NotifierCreated made; SubscriptionCreated sub])%list
    end.
Proof.
  intros Hc s'. subst s'.
  destruct c; try discriminate; cbn [perform];
    unfold subscribeToStream, subscribeToAll, bind;
    destruct (notifier s) as [n|] eqn:Hn.
  - rewrite (getNotifier_cached config s n Hn). subscribed.
  - rewrite (getNotifier_fresh config s Hn). subscribed.
  - rewrite (getNotifier_cached config s n Hn). subscribed.
  - rewrite (getNotifier_fresh config s Hn). subscribed.
Qed.

Lemma notifierCached_perform (Position_End : Z)
  (config : PgStreamStoreConfig.t) (pool : Driver) (v4 : nat -> string)
  (c : Call) (s : Store) :
  notifierCached s
  /\ (forall n, notifier s = Some n ->
                notifier_kind n = configuredNotifier config) ->
  notifierCached (perform Position_End config pool v4 c s)
  /\ (forall n,
        notifier (perform Position_End config pool v4 c s) = Some n ->
        notifier_kind n = configuredNotifier config).
Proof.
  intros [Hcached Hkind].
  destruct (isSubscribe c) eqn:Hc.
  - destruct (perform_subscribe Position_End config pool v4 c s Hc)
      as [sub Hsub].
    unfold notifierCached in *.
    destruct (notifier s) as [n|] eqn:Hn.
    + destruct Hsub as [Hsubn [Hn' Ht]]. destruct Hcached as [Hc1 Hc2].
      rewrite Hn', Ht, notifiersCreated_app, subscriptionsCreated_app.
      simpl. rewrite app_nil_r. repeat split.
      * exact Hc1.
      * apply Forall_app. split; [exact Hc2 | now repeat constructor].
      * intros n0 E. inversion E. subst n0. now apply Hkind.
    + cbv zeta in Hsub. destruct Hsub as [Hsubn [Hn' Ht]].
      destruct Hcached as [Hc1 Hc2].
      rewrite Hn', Ht, notifiersCreated_app, subscriptionsCreated_app.
      rewrite Hc2. simpl. rewrite Hc1 at 1. simpl. split; [split|].
      * reflexivity.
      * constructor; [exact Hsubn | constructor].
      * intros n0 E. now inversion E.
  - destruct (perform_keeps_notifiers Position_End config pool v4 c s Hc)
      as [H1 [H2 H3]].
    unfold notifierCached. rewrite H1, H2, H3. split; [exact Hcached|].
    exact Hkind.
Qed.

Lemma notifierCached_runCalls (Position_End : Z)
  (config : PgStreamStoreConfig.t) (pool : Driver) (v4 : nat -> string)
  (calls : list Call) :
  forall s,
    notifierCached s
    /\ (forall n, notifier s = Some n ->
                  notifier_kind n = configuredNotifier config) ->
    notifierCached (runCalls Position_End config pool v4 calls s)
    /\ (forall n,
          notifier (runCalls Position_End config pool v4 calls s) = Some n ->
          notifier_kind n = configuredNotifier config).
Proof.
  induction calls as [|c calls IH]; intros s H; [exact H|].
  cbn [runCalls fold_left]. apply IH. now apply notifierCached_perform.
Qed.

(** The cache is still empty exactly when no subscribe call was made. *)
Lemma notifier_empty_runCalls (Position_End : Z)
  (config : PgStreamStoreConfig.t) (pool : Driver) (v4 : nat -> string)
  (calls : list Call) :
  forall s,
    notifier (runCalls Position_End config pool v4 calls s) = None
    <-> notifier s = None
        /\ forallb (fun c => negb (isSubscribe c)) calls = true.
Proof.
  induction calls as [|c calls IH]; intros s.
  - cbn. tauto.
  - change (runCalls Position_End config pool v4 (c :: calls) s)
      with (runCalls Position_End config pool v4 calls
              (perform Position_End config pool v4 c s)).
    cbn [forallb]. rewrite IH. rewrite andb_true_iff.
    destruct (isSubscribe c) eqn:Hc; cbn [negb].
    + destruct (perform_subscribe Position_End config pool v4 c s Hc)
        as [sub Hsub].
      destruct (notifier s) as [n|]; cbv zeta in Hsub;
        destruct Hsub as [_ [Hn' _]]; rewrite Hn';
        split; intros [H1 H2]; try discriminate.
      destruct H2. discriminate.
    + destruct (perform_keeps_notifiers Position_End config pool v4 c s Hc)
        as [H1 _].
      rewrite H1. tauto.
Qed.

(** C10.  Over any sequence of calls on a store, at most one notifier is
    ever constructed.  It is constructed by the first [subscribeToStream]
    or [subscribeToAll] call (a polling notifier at 500 ms by default, a
    pg-notify notifier when the configuration asks for one) and cached;
    every subscription constructed on the store, then and later, is handed
    that same notifier object. *)
Theorem notifier_is_created_once (Position_End : Z)
  (config : PgStreamStoreConfig.t) (pool : Driver) (v4 : nat -> string)
  (calls : list Call) :
  let s :=
    runCalls Position_End config pool v4 calls createPostgresStreamStore in
  (length (notifiersCreated (trace s)) <= 1)%nat
  /\ (forall sub,
        In sub (subscriptionsCreated (trace s)) ->
        notifier s = Some (subscription_notifier sub)
        /\ notifiersCreated (trace s) = [subscription_notifier sub])
  /\ (forall n,
        In n (notifiersCreated (trace s)) ->
        notifier s = Some n
        /\ notifier_kind n = configuredNotifier config)
  /\ (notifiersCreated (trace s) = []
      <-> forallb (fun c => negb (isSubscribe c)) calls = true)
  /\ (forall c,
        isSubscribe c = true ->
        let s' := perform Position_End config pool v4 c s in
        exists sub,
          subscriptionsCreated (trace s')
          = (subscriptionsCreated (trace s) ++ [sub])%list
          /\ notifier s' = Some (subscription_notifier sub)
          /\ notifiersCreated (trace s') = [subscription_notifier sub]
          /\ (forall n, notifier s = Some n ->
                        subscription_notifier sub = n))
  /\ (PgStreamStoreConfig.notifierConfig config = None ->
      configuredNotifier config = PollingNotifier 500).
Proof.
  intros s.
  destruct (notifierCached_runCalls Position_End config pool v4 calls
              createPostgresStreamStore) as [Hcached Hkind].
  { split; [now split | discriminate]. }
  fold s in Hcached, Hkind.
  pose proof (notifier_empty_runCalls Position_End config pool v4 calls
                createPostgresStreamStore) as Hempty.
  fold s in Hempty.
  unfold notifierCached in Hcached.
  split; [|split; [|split; [|split; [|split]]]].
  - destruct (notifier s); destruct Hcached as [-> _]; simpl; lia.
  - intros sub Hin. destruct (notifier s) as [n|].
    + destruct Hcached as [Hn Hsubs].
      rewrite Forall_forall in Hsubs. rewrite (Hsubs sub Hin).
      now split.
    + destruct Hcached as [_ Hsubs]. rewrite Hsubs in Hin. destruct Hin.
  - intros n Hin. destruct (notifier s) as [n0|] eqn:Hn.
    + destruct Hcached as [Hcreated _]. rewrite Hcreated in Hin.
      destruct Hin as [->|[]]. split; [reflexivity | now apply Hkind].
    + destruct Hcached as [Hcreated _]. rewrite Hcreated in Hin.
      destruct Hin.
  - destruct (notifier s) as [n|] eqn:Hn.
    + destruct Hcached as [Hcreated _]. rewrite Hcreated.
      split; [discriminate|].
      intros H. destruct Hempty as [_ Hempty].
      specialize (Hempty (conj eq_refl H)). discriminate.
    + destruct Hcached as [Hcreated _]. rewrite Hcreated.
      split; [|reflexivity]. intros _. now apply Hempty.
  - intros c Hc s'.
    destruct (perform_subscribe Position_End config pool v4 c s Hc)
      as [sub Hsub].
    fold s' in Hsub. exists sub.
    destruct (notifier s) as [n|] eqn:Hn.
    + destruct Hsub as [Hsubn [Hn' Ht]]. destruct Hcached as [Hcreated _].
      rewrite Ht, subscriptionsCreated_app, notifiersCreated_app, Hn',
        Hsubn, Hcreated.
      repeat split. intros n0 E. now inversion E.
    + cbv zeta in Hsub. destruct Hsub as [Hsubn [Hn' Ht]].
      destruct Hcached as [Hcreated _].
      rewrite Ht, subscriptionsCreated_app, notifiersCreated_app, Hn',
        Hsubn.
      rewrite !Hcreated. simpl.
      repeat split. intros n0 E. discriminate E.
  - intros Hdefault. unfold configuredNotifier. now rewrite Hdefault.
Qed.

Lemma notifier_is_created_once_witness :
  let s :=
    runCalls (-1) Sample.config Sample.emptyPool (fun _ => Sample.uuid)
      [CallSubscribeToStream (JStr "orders");
       CallAppendToStream (JStr "orders") (JNum ExpectedVersion.Any)
         [Sample.message];
       CallSubscribeToAll;
       CallDispose;
       CallSubscribeToStream (JStr "invoices")]
      createPostgresStreamStore in
  notifiersCreated (trace s)
  = [{| notifier_ref := 0; notifier_kind := PollingNotifier 500 |}]
  /\ map subscription_notifier (subscriptionsCreated (trace s))
     = [{| notifier_ref := 0; notifier_kind := PollingNotifier 500 |};
        {| notifier_ref := 0; notifier_kind := PollingNotifier 500 |};
        {| notifier_ref := 0; notifier_kind := PollingNotifier 500 |}]
  /\ (length (notifiersCreated (trace s)) <= 1)%nat.
Proof.
  intros s. split; [reflexivity|]. split; [reflexivity|].
  exact (proj1 (notifier_is_created_once (-1) Sample.config Sample.emptyPool
                  (fun _ => Sample.uuid)
                  [CallSubscribeToStream (JStr "orders");
                   CallAppendToStream (JStr "orders")
                     (JNum ExpectedVersion.Any) [Sample.message];
                   CallSubscribeToAll;
                   CallDispose;
                   CallSubscribeToStream (JStr "invoices")])).
Defined.

(* ===================================================================== *)
(** * Further properties of the store *)
(* ===================================================================== *)

(** ** Appending: the paths that settle at once *)

Lemma attemptOutcome_other_error (expectedVersion : JsVal) (e : Error) :
  isConcurrencyUniqueConstraintViolation e = false ->
  isDuplicateMessageIdUniqueConstraintViolation e = false ->
  attemptOutcome expectedVersion (Thrown e) = Thrown e.
Proof.
  intros Hc Hd. unfold attemptOutcome, handlePotentialConcurrencyError.
  now rewrite Hc, Hd.
Qed.

Lemma trace_settledAfter_first (config : PgStreamStoreConfig.t)
  (streamId expectedVersion : JsVal)
  (newMessages : list NewStreamMessage.t) (s : Store) :
  trace (settledAfter config streamId expectedVersion newMessages s 0)
  = (trace s
     ++ [LatchEnter;
         Issued
           (appendQuery config streamId expectedVersion newMessages
              (latchEnter s));
         LatchExit])%list.
Proof.
  unfold settledAfter, attemptState. cbn. now rewrite <- !app_assoc.
Qed.

(** An append whose first attempt is answered with a row other than the
    conflict sentinel returns the version and the position of that row,
    whatever [expectedVersion] is; it enters the latch, sends one
    statement and leaves the latch, and the retention hints of the row are
    not part of the result. *)
Theorem appendToStream_first_attempt_succeeds
  (config : PgStreamStoreConfig.t) (pool : Driver)
  (streamId expectedVersion : JsVal)
  (newMessages : list NewStreamMessage.t) (s : Store)
  (row : InsertResult.t) :
  checkAppendArguments streamId expectedVersion newMessages = Returned tt ->
  disposing s = false ->
  attemptAnswer config pool streamId expectedVersion newMessages s 0
  = Returned row ->
  InsertResult.current_version row <> AppendResultCodes.ConcurrencyIssue ->
  let result :=
    appendToStream config pool streamId expectedVersion newMessages s in
  fst result
  = Returned
      {| AppendToStreamResult.streamPosition :=
           InsertResult.current_position row;
         AppendToStreamResult.streamVersion :=
           InsertResult.current_version row |}
  /\ trace (snd result)
     = (trace s
        ++ [LatchEnter;
            Issued
              (appendQuery config streamId expectedVersion newMessages
                 (latchEnter s));
            LatchExit])%list
  /\ writeLatch (snd result) = writeLatch s.
Proof.
  intros Hcheck Hd Hrow Hversion result. subst result.
  rewrite (appendToStream_after_conflicts config pool streamId
             expectedVersion newMessages s 0 (Returned row));
    auto; try lia.
  - cbn [fst snd]. split; [reflexivity|]. split.
    + apply trace_settledAfter_first.
    + reflexivity.
  - left. split; [|discriminate].
    rewrite Hrow. now apply attemptOutcome_row.
Qed.

Lemma appendToStream_first_attempt_succeeds_witness :
  fst (appendToStream Sample.config Sample.emptyPool (JStr "orders")
         (JNum ExpectedVersion.Empty) [Sample.message]
         createPostgresStreamStore)
  = Returned
      {| AppendToStreamResult.streamPosition := "1";
         AppendToStreamResult.streamVersion := 0 |}.
Proof.
  refine (proj1 (appendToStream_first_attempt_succeeds Sample.config
                   Sample.emptyPool (JStr "orders")
                   (JNum ExpectedVersion.Empty) [Sample.message]
                   createPostgresStreamStore
                   (InsertResult.make 0 "1" JNull JNull) _ _ _ _)).
  - reflexivity.
  - reflexivity.
  - reflexivity.
  - discriminate.
Defined.

(** An error of the pool that names none of the three constraints is not
    classified and not retried, under [ExpectedVersion.Any] as under any
    other version: the append fails with that very error after one
    statement, and the latch is left. *)
Theorem appendToStream_storage_fault_passes_through
  (config : PgStreamStoreConfig.t) (pool : Driver)
  (streamId expectedVersion : JsVal)
  (newMessages : list NewStreamMessage.t) (s : Store) (e : Error) :
  checkAppendArguments streamId expectedVersion newMessages = Returned tt ->
  disposing s = false ->
  attemptAnswer config pool streamId expectedVersion newMessages s 0
  = Thrown e ->
  isConcurrencyUniqueConstraintViolation e = false ->
  isDuplicateMessageIdUniqueConstraintViolation e = false ->
  (forall cause, e <> Again cause) ->
  let result :=
    appendToStream config pool streamId expectedVersion newMessages s in
  fst result = Thrown e
  /\ trace (snd result)
     = (trace s
        ++ [LatchEnter;
            Issued
              (appendQuery config streamId expectedVersion newMessages
                 (latchEnter s));
            LatchExit])%list
  /\ writeLatch (snd result) = writeLatch s.
Proof.
  intros Hcheck Hd Hanswer Hc Hdup Hagain result. subst result.
  rewrite (appendToStream_after_conflicts config pool streamId
             expectedVersion newMessages s 0 (Thrown e));
    auto; try lia.
  - cbn [fst snd]. split; [reflexivity|]. split.
    + apply trace_settledAfter_first.
    + reflexivity.
  - left. split.
    + rewrite Hanswer. now apply attemptOutcome_other_error.
    + intros cause E. inversion E. now apply (Hagain cause).
Qed.

Lemma appendToStream_storage_fault_passes_through_witness :
  fst (appendToStream Sample.config
         (Sample.appendAnswers
            (Thrown (DriverError "connection terminated" JUndefined)))
         (JStr "orders") (JNum ExpectedVersion.Any) [Sample.message]
         createPostgresStreamStore)
  = Thrown (DriverError "connection terminated" JUndefined).
Proof.
  refine (proj1 (appendToStream_storage_fault_passes_through Sample.config
                   (Sample.appendAnswers
                      (Thrown
                         (DriverError "connection terminated" JUndefined)))
                   (JStr "orders") (JNum ExpectedVersion.Any)
                   [Sample.message] createPostgresStreamStore
                   (DriverError "connection terminated" JUndefined)
                   _ _ _ _ _ _)).
  - reflexivity.
  - reflexivity.
  - reflexivity.
  - reflexivity.
  - reflexivity.
  - discriminate.
Defined.

Lemma execKeyPattern_no_equals (s : string) :
  allChars (fun c => negb (c =? "=")%char) s = true ->
  execKeyPattern s = None.
Proof.
  induction s as [|c s IH]; simpl; intros H; [reflexivity|].
  apply andb_true_iff in H. destruct H as [Hc Hs].
  apply negb_true_iff in Hc. rewrite Hc. now apply IH.
Qed.

(** When the detail field of a duplicate-id violation holds no key (it is
    missing, or holds no equals sign) the append still fails with
    [DuplicateMessageError]; the [id] of the error is then the text
    [[unable to parse]]. *)
Theorem appendToStream_duplicate_without_key
  (config : PgStreamStoreConfig.t) (pool : Driver)
  (streamId expectedVersion : JsVal)
  (newMessages : list NewStreamMessage.t) (s : Store) (e : Error) :
  checkAppendArguments streamId expectedVersion newMessages = Returned tt ->
  disposing s = false ->
  attemptAnswer config pool streamId expectedVersion newMessages s 0
  = Thrown e ->
  isDuplicateMessageIdUniqueConstraintViolation e = true ->
  allChars (fun c => negb (c =? "=")%char) (Js.toString (detail e)) = true ->
  fst (appendToStream config pool streamId expectedVersion newMessages s)
  = Thrown (DuplicateMessageError "[unable to parse]").
Proof.
  intros Hcheck Hd Hanswer Hdup Hdetail.
  rewrite (appendToStream_after_conflicts config pool streamId
             expectedVersion newMessages s 0
             (Thrown (DuplicateMessageError "[unable to parse]")));
    auto; try lia.
  left. split; [|discriminate].
  rewrite Hanswer, (attemptOutcome_duplicate _ _ Hdup).
  unfold extractUuidKeyFromConstraintViolationError.
  now rewrite (execKeyPattern_no_equals _ Hdetail).
Qed.

Lemma appendToStream_duplicate_without_key_witness :
  fst (appendToStream Sample.config
         (Sample.appendAnswers
            (Thrown
               (DriverError
                  ("duplicate key value violates unique constraint "
                   ++ quoted "message_message_id_key")
                  JUndefined)))
         (JStr "orders") (JNum 3) [Sample.message]
         createPostgresStreamStore)
  = Thrown (DuplicateMessageError "[unable to parse]").
Proof.
  apply (appendToStream_duplicate_without_key Sample.config
           (Sample.appendAnswers
              (Thrown
                 (DriverError
                    ("duplicate key value violates unique constraint "
                     ++ quoted "message_message_id_key")
                    JUndefined)))
           (JStr "orders") (JNum 3) [Sample.message]
           createPostgresStreamStore
           (DriverError
              ("duplicate key value violates unique constraint "
               ++ quoted "message_message_id_key")
              JUndefined));
    reflexivity.
Defined.

(** ** The number of statements of a retried write *)

(** A retried function that sends one statement per attempt sends at
    least one statement and at most one more than it may retry. *)
Lemma retryLoop_statement_count {A} (fn : (Error -> Error) -> M A)
  (opts : RetryOptions.t) (retriesLeft : nat) :
  (forall s, exists q, snd (fn Again s) = record (Issued q) s) ->
  forall (attempt : nat) (st : Store),
  exists t,
    trace (snd (Fejl.retryLoop fn opts retriesLeft attempt st))
    = (trace st ++ t)%list
    /\ (1 <= length (issued t) <= S retriesLeft)%nat.
Proof.
  intros Hfn. induction retriesLeft as [|k IH]; intros attempt st; simpl;
    destruct (Hfn st) as [q Hq];
    destruct (fn Again st) as [[a|e] s'] eqn:E; simpl in Hq; subst s'.
  - exists [Issued q]. split; [reflexivity|]. simpl. lia.
  - exists [Issued q]. split; [now destruct e|]. simpl. lia.
  - exists [Issued q]. split; [reflexivity|]. simpl. lia.
  - destruct e;
      try (exists [Issued q]; split; [reflexivity|]; simpl; lia).
    destruct (IH (S attempt)
                (record (Backoff attempt opts) (record (Issued q) st)))
      as [t [Ht Hlen]].
    exists (Issued q :: Backoff attempt opts :: t). split.
    + rewrite Ht, !trace_record, <- !app_assoc. reflexivity.
    + simpl. lia.
Qed.

Lemma retryableAppendToStream_state (config : PgStreamStoreConfig.t)
  (pool : Driver) (streamId expectedVersion : JsVal)
  (newMessages : list NewStreamMessage.t) (s : Store) :
  exists q,
    snd (retryableAppendToStream config pool streamId expectedVersion
           newMessages Again s)
    = record (Issued q) s.
Proof. rewrite retryableAppendToStream_eq. eexists. reflexivity. Qed.

(** Whatever the pool answers, an [appendToStream] call and a
    [deleteStream] call each send at most 200 statements, the number of
    tries of the retry options. *)
Theorem writes_send_at_most_200_statements (config : PgStreamStoreConfig.t)
  (pool : Driver) (v4 : nat -> string) (streamId expectedVersion : JsVal)
  (newMessages : list NewStreamMessage.t) (s : Store) :
  (length
     (issuedBy
        (appendToStream config pool streamId expectedVersion newMessages) s)
   <= 200)%nat
  /\ (length
        (issuedBy (deleteStream config pool v4 streamId expectedVersion) s)
      <= 200)%nat.
Proof.
  split.
  - destruct (checkAppendArguments streamId expectedVersion newMessages)
      as [[]|e] eqn:Hcheck.
    + destruct (disposing s) eqn:Hd.
      * rewrite (issuedBy_of_trace _ s []); [simpl; lia|].
        rewrite appendToStream_disposing by assumption.
        cbn [snd]. now rewrite app_nil_r.
      * destruct (retryLoop_statement_count
                    (retryableAppendToStream config pool streamId
                       expectedVersion newMessages)
                    retryOpts 199
                    (retryableAppendToStream_state config pool streamId
                       expectedVersion newMessages)
                    0%nat (latchEnter s)) as [t [Ht Hlen]].
        rewrite (issuedBy_of_trace _ s (LatchEnter :: t ++ [LatchExit])).
        -- cbn [issued]. rewrite issued_app. cbn [issued].
           rewrite app_nil_r. lia.
        -- rewrite appendToStream_running by assumption.
           unfold Fejl.retry. cbn [retryOpts RetryOptions.tries Nat.pred].
           destruct (Fejl.retryLoop _ retryOpts 199 0 (latchEnter s))
             as [r s'].
           cbn [snd] in *. cbn [latchExit trace]. rewrite Ht.
           cbn [latchEnter trace]. now rewrite <- !app_assoc.
    + rewrite (issuedBy_of_trace _ s []); [simpl; lia|].
      rewrite (appendToStream_rejected _ _ _ _ _ _ _ Hcheck).
      cbn [snd]. now rewrite app_nil_r.
  - unfold deleteStream, bind, lift, modify, tryFinally, ret.
    destruct (Invariant.requiredString "streamId" streamId) as [[]|e];
      [|rewrite (issuedBy_of_trace _ s []);
        [simpl; lia | cbn [snd]; now rewrite app_nil_r]].
    destruct (Invariant.notOperationalStream "streamId" streamId)
      as [[]|e];
      [|rewrite (issuedBy_of_trace _ s []);
        [simpl; lia | cbn [snd]; now rewrite app_nil_r]].
    destruct (Invariant.required "expectedVersion" expectedVersion)
      as [[]|e];
      [|rewrite (issuedBy_of_trace _ s []);
        [simpl; lia | cbn [snd]; now rewrite app_nil_r]].
    destruct (retryLoop_statement_count
                (retryableDeleteStream config pool v4 streamId
                   expectedVersion)
                retryOpts 199
                (retryableDeleteStream_state config pool v4 streamId
                   expectedVersion)
                0%nat (latchExit (latchEnter s))) as [t [Ht Hlen]].
    rewrite (issuedBy_of_trace _ s (LatchEnter :: LatchExit :: t)).
    + cbn [issued]. lia.
    + cbn [snd]. unfold Fejl.retry.
      cbn [retryOpts RetryOptions.tries Nat.pred]. rewrite Ht.
      cbn [latchExit latchEnter trace]. now rewrite <- !app_assoc.
Qed.

(** ** The write latch is left on every path *)

Lemma sameLatch_refl (s : Store) : sameLatch s s.
Proof. reflexivity. Qed.

Lemma sameLatch_trans (a b c : Store) :
  sameLatch a b -> sameLatch b c -> sameLatch a c.
Proof. unfold sameLatch. congruence. Qed.

Lemma sameLatch_record (e : Event) (s : Store) : sameLatch s (record e s).
Proof. reflexivity. Qed.

Lemma sameLatch_retry {A} (fn : (Error -> Error) -> M A)
  (opts : RetryOptions.t) :
  (forall s, exists q, snd (fn Again s) = record (Issued q) s) ->
  steps sameLatch (Fejl.retry fn opts).
Proof.
  intros Hfn. apply steps_retry.
  - apply sameLatch_trans.
  - intros e s _ _ _. apply sameLatch_record.
  - intros s. destruct (Hfn s) as [q ->]. apply sameLatch_record.
Qed.

Ltac latch_side :=
  first
    [ apply sameLatch_refl
    | apply sameLatch_trans
    | intros ? ? ?; apply sameLatch_record
    | intros ? ? ? ? ?; apply sameLatch_record
    | intros ?; reflexivity
    | intros ? ?; reflexivity
    | intros; exact I ].

(** Every call on the store leaves the count of the write latch as it
    found it, whether it returns or throws: each write that enters the
    latch leaves it, on failed checks, on the dispose gate, on errors of
    the pool and when its retries are used up; reads, subscriptions and
    [dispose] do not enter it. *)
Theorem every_call_leaves_the_latch (Position_End : Z)
  (config : PgStreamStoreConfig.t) (pool : Driver) (v4 : nat -> string)
  (c : Call) (s : Store) :
  writeLatch (perform Position_End config pool v4 c s) = writeLatch s.
Proof.
  destruct c; cbn [perform].
  - (* appendToStream *)
    destruct (checkAppendArguments streamId expectedVersion newMessages)
      as [[]|e] eqn:Hcheck.
    + destruct (disposing s) eqn:Hd.
      * now rewrite appendToStream_disposing.
      * rewrite appendToStream_running by assumption.
        pose proof (sameLatch_retry
                      (retryableAppendToStream config pool streamId
                         expectedVersion newMessages)
                      retryOpts
                      (retryableAppendToStream_state config pool streamId
                         expectedVersion newMessages) (latchEnter s)) as H.
        destruct (Fejl.retry _ retryOpts (latchEnter s)) as [r s'].
        unfold sameLatch in H. cbn [snd] in *. cbn [latchExit writeLatch].
        now rewrite H.
    + now rewrite (appendToStream_rejected _ _ _ _ _ _ _ Hcheck).
  - apply steps_readHeadPosition with (allowed := fun _ => True);
      latch_side.
  - apply steps_readAll with (allowed := fun _ => True); latch_side.
  - apply steps_readStream with (allowed := fun _ => True); latch_side.
  - apply steps_getStreamMetadata with (allowed := fun _ => True);
      latch_side.
  - (* setStreamMetadata *)
    unfold setStreamMetadata, bind, lift, modify, tryFinally,
      getCurrentTime, uuidV4, query.
    destruct (Invariant.requiredString "streamId" streamId) as [[]|e];
      [|reflexivity].
    destruct (Invariant.required "expectedVersion" expectedVersion)
      as [[]|e]; [|reflexivity].
    destruct (Invariant.required "opts" opts) as [[]|e]; [|reflexivity].
    match goal with
    | |- context [run_setStreamMetadata ?p ?n ?q] =>
        destruct (run_setStreamMetadata p n q) as [version|e]
    end; [|reflexivity].
    destruct (throwIfErrorCode version); cbn [lift];
      rewrite ?maybeScavenge_eq; reflexivity.
  - (* subscribeToStream *)
    unfold subscribeToStream, bind.
    destruct (notifier s) as [n|] eqn:Hn.
    + now rewrite (getNotifier_cached config s n Hn).
    + now rewrite (getNotifier_fresh config s Hn).
  - (* subscribeToAll *)
    unfold subscribeToAll, bind.
    destruct (notifier s) as [n|] eqn:Hn.
    + now rewrite (getNotifier_cached config s n Hn).
    + now rewrite (getNotifier_fresh config s Hn).
  - (* deleteMessage *)
    reflexivity.
  - (* deleteStream *)
    unfold deleteStream, bind, lift, modify, tryFinally, ret.
    destruct (Invariant.requiredString "streamId" streamId) as [[]|e];
      [|reflexivity].
    destruct (Invariant.notOperationalStream "streamId" streamId)
      as [[]|e]; [|reflexivity].
    destruct (Invariant.required "expectedVersion" expectedVersion)
      as [[]|e]; [|reflexivity].
    cbn [snd].
    rewrite (sameLatch_retry
               (retryableDeleteStream config pool v4 streamId
                  expectedVersion)
               retryOpts
               (retryableDeleteStream_state config pool v4 streamId
                  expectedVersion) (latchExit (latchEnter s))).
    reflexivity.
  - apply steps_dispose; latch_side.
  - apply steps_disposeSubscription; latch_side.
Qed.

(** ** Disposing *)

Lemma indexOfFrom_tracked (sub x : Subscription)
  (pre post : list Subscription) :
  untracked sub pre ->
  Nat.eqb (subscription_ref x) (subscription_ref sub) = true ->
  forall i,
    indexOfFrom i sub (pre ++ x :: post) = i + Z.of_nat (length pre).
Proof.
  intros Hpre Hx. induction Hpre as [|y pre Hy _ IH]; intros i; simpl.
  - rewrite Hx. lia.
  - rewrite Hy, IH. lia.
Qed.

Lemma indexOfFrom_untracked (sub : Subscription) (l : list Subscription) :
  untracked sub l -> forall i, indexOfFrom i sub l = -1.
Proof.
  induction 1 as [|y l Hy _ IH]; intros i; simpl; [reflexivity|].
  now rewrite Hy, IH.
Qed.

Lemma removeAt_middle {A} (pre post : list A) (x : A) :
  removeAt (length pre) (pre ++ x :: post) = (pre ++ post)%list.
Proof. induction pre as [|y pre IH]; simpl; [reflexivity | now rewrite IH]. Qed.

Lemma removeAt_last {A} (l : list A) :
  removeAt (Nat.pred (length l)) l = removelast l.
Proof.
  induction l as [|x l IH]; [reflexivity|].
  destruct l as [|y l]; [reflexivity|].
  change (removeAt (Nat.pred (length (x :: y :: l))) (x :: y :: l))
    with (x :: removeAt (Nat.pred (length (y :: l))) (y :: l)).
  now rewrite IH.
Qed.

Lemma spliceOne_middle {A} (pre post : list A) (x : A) :
  spliceOne (Z.of_nat (length pre)) (pre ++ x :: post) = (pre ++ post)%list.
Proof.
  unfold spliceOne.
  destruct (Z.ltb_spec (Z.of_nat (length pre)) 0) as [H|_]; [lia|].
  rewrite Z.min_l by (rewrite length_app; simpl; lia).
  rewrite Nat2Z.id. apply removeAt_middle.
Qed.

Lemma spliceOne_minus_one {A} (l : list A) : spliceOne (-1) l = removelast l.
Proof.
  unfold spliceOne. cbn [Z.ltb Z.compare].
  destruct l as [|x l]; [reflexivity|].
  rewrite Z.max_l by (simpl length; lia).
  replace (Z.to_nat (Z.of_nat (length (x :: l)) + -1))
    with (Nat.pred (length (x :: l))) by (simpl length; lia).
  apply removeAt_last.
Qed.

(** The callback by which a subscription leaves the registry removes the
    first tracked subscription that is the same object and no other.  For
    a subscription that is not tracked (one that was disposed before, for
    instance) [indexOf] answers -1 and [splice(-1, 1)] removes the last
    tracked subscription instead. *)
Theorem disposeSubscription_removes (sub : Subscription) (s : Store) :
  (forall pre x post,
     subscriptions s = (pre ++ x :: post)%list ->
     untracked sub pre ->
     Nat.eqb (subscription_ref x) (subscription_ref sub) = true ->
     subscriptions (snd (disposeSubscription sub s)) = (pre ++ post)%list)
  /\ (untracked sub (subscriptions s) ->
      subscriptions (snd (disposeSubscription sub s))
      = removelast (subscriptions s)).
Proof.
  unfold disposeSubscription, bind, emit, modify.
  cbn [snd subscriptions setSubscriptions record]. split.
  - intros pre x post Hs Hpre Hx.
    rewrite Hs, (indexOfFrom_tracked sub x pre post Hpre Hx).
    apply spliceOne_middle.
  - intros Hun. rewrite (indexOfFrom_untracked sub _ Hun).
    apply spliceOne_minus_one.
Qed.

Lemma disposeSubscription_removes_witness :
  let first :=
    {| subscription_ref := 0; subscription_stream := None;
       subscription_notifier :=
         {| notifier_ref := 0; notifier_kind := PollingNotifier 500 |} |} in
  let second :=
    {| subscription_ref := 1; subscription_stream := Some (JStr "orders");
       subscription_notifier :=
         {| notifier_ref := 0; notifier_kind := PollingNotifier 500 |} |} in
  let s := snd (subscribeToStream Sample.config (JStr "orders")
                  (snd (subscribeToAll Sample.config
                          createPostgresStreamStore))) in
  subscriptions (snd (disposeSubscription second s)) = [first]
  /\ subscriptions
       (snd (disposeSubscription second
               (snd (disposeSubscription second s)))) = [].
Proof.
  intros first second s. split.
  - apply (proj1 (disposeSubscription_removes second s) [first] second []).
    + reflexivity.
    + repeat constructor.
    + reflexivity.
  - rewrite (proj2 (disposeSubscription_removes second
                      (snd (disposeSubscription second s)))).
    + reflexivity.
    + repeat constructor.
Defined.

Lemma forEachM_disposeSubscription (l : list Subscription) :
  forall s,
    subscriptions s = l ->
    forEachM l disposeSubscription s
    = (Returned tt,
       {| disposing := disposing s;
          writeLatch := writeLatch s;
          notifier := notifier s;
          subscriptions := [];
          trace := trace s ++ map SubscriptionDisposed l |}).
Proof.
  induction l as [|x l IH]; intros s Hs.
  - simpl. unfold ret. rewrite app_nil_r. destruct s. simpl in Hs.
    now subst.
  - cbn [forEachM]. unfold bind at 1.
    unfold disposeSubscription, bind, emit, modify.
    cbn [fst snd]. rewrite IH.
    + unfold setSubscriptions, record.
      cbn [disposing writeLatch notifier trace map].
      rewrite <- app_assoc. reflexivity.
    + cbn [subscriptions setSubscriptions record]. rewrite Hs.
      cbn [indexOfFrom]. rewrite Nat.eqb_refl.
      apply (spliceOne_middle [] l x).
Qed.

(** What [dispose] does with the subscription drivers as they are
    modelled: it sets [disposing], disposes every tracked subscription
    and so empties the registry, disposes the notifier when one was made,
    waits for the write latch and ends the pool last.  The notifier stays
    cached and the latch count is untouched. *)
Lemma dispose_eq (s : Store) :
  dispose s
  = (Returned tt,
     {| disposing := true;
        writeLatch := writeLatch s;
        notifier := notifier s;
        subscriptions := [];
        trace :=
          trace s
          ++ map SubscriptionDisposed (subscriptions s)
          ++ match notifier s with
             | Some n => [NotifierDisposed n]
             | None => []
             end
          ++ [LatchWait; PoolEnded] |}).
Proof.
  unfold dispose, disposeWith, disposeAll, subscriptionDispose.
  unfold bind at 1, modify. cbn [fst snd].
  unfold bind at 1, gets. cbn [fst snd].
  unfold bind at 1.
  rewrite (forEachM_disposeSubscription (subscriptions (setDisposing s)))
    by reflexivity.
  unfold bind, gets, emit, modify, ret. cbn.
  destruct (notifier s); unfold record; cbn; rewrite <- !app_assoc;
    reflexivity.
Qed.


Lemma staysDisposing_refl (s : Store) : staysDisposing s s.
Proof. intros H. exact H. Qed.

Lemma staysDisposing_trans (a b c : Store) :
  staysDisposing a b -> staysDisposing b c -> staysDisposing a c.
Proof. unfold staysDisposing. auto. Qed.

Lemma staysDisposing_record (e : Event) (s : Store) :
  staysDisposing s (record e s).
Proof. intros H. exact H. Qed.

Ltac disposing_side :=
  first
    [ apply staysDisposing_refl
    | apply staysDisposing_trans
    | intros ? ? ?; apply staysDisposing_record
    | intros ? ? ? ? ?; apply staysDisposing_record
    | intros ? H; exact H
    | intros ? ? H; exact H
    | intros ? ?; reflexivity
    | intros; exact I ].

(** No call clears [disposing]. *)
Lemma perform_staysDisposing (Position_End : Z)
  (config : PgStreamStoreConfig.t) (pool : Driver) (v4 : nat -> string)
  (c : Call) (s : Store) :
  staysDisposing s (perform Position_End config pool v4 c s).
Proof.
  destruct c; cbn [perform].
  - apply steps_appendToStream with (allowed := fun _ => True);
      disposing_side.
  - apply steps_readHeadPosition with (allowed := fun _ => True);
      disposing_side.
  - apply steps_readAll with (allowed := fun _ => True); disposing_side.
  - apply steps_readStream with (allowed := fun _ => True); disposing_side.
  - apply steps_getStreamMetadata with (allowed := fun _ => True);
      disposing_side.
  - apply steps_setStreamMetadata with (allowed := fun _ => True);
      disposing_side.
  - unfold subscribeToStream, bind. intros Hd.
    destruct (notifier s) as [n|] eqn:Hn.
    + now rewrite (getNotifier_cached config s n Hn).
    + now rewrite (getNotifier_fresh config s Hn).
  - unfold subscribeToAll, bind. intros Hd.
    destruct (notifier s) as [n|] eqn:Hn.
    + now rewrite (getNotifier_cached config s n Hn).
    + now rewrite (getNotifier_fresh config s Hn).
  - apply steps_deleteMessage with (allowed := fun _ => True);
      disposing_side.
  - apply steps_deleteStream with (allowed := fun _ => True);
      disposing_side.
  - intros _. now rewrite dispose_eq.
  - apply steps_disposeSubscription; disposing_side.
Qed.

Lemma runCalls_staysDisposing (Position_End : Z)
  (config : PgStreamStoreConfig.t) (pool : Driver) (v4 : nat -> string)
  (calls : list Call) :
  forall s, staysDisposing s (runCalls Position_End config pool v4 calls s).
Proof.
  induction calls as [|c calls IH]; intros s; [apply staysDisposing_refl|].
  change (runCalls Position_End config pool v4 (c :: calls) s)
    with (runCalls Position_End config pool v4 calls
            (perform Position_End config pool v4 c s)).
  eapply staysDisposing_trans; [apply perform_staysDisposing | apply IH].
Qed.

Lemma runCalls_app (Position_End : Z) (config : PgStreamStoreConfig.t)
  (pool : Driver) (v4 : nat -> string) (a b : list Call) (s : Store) :
  runCalls Position_End config pool v4 (a ++ b) s
  = runCalls Position_End config pool v4 b
      (runCalls Position_End config pool v4 a s).
Proof. unfold runCalls. apply fold_left_app. Qed.

(** Disposal is final.  Once [dispose] was called, whatever calls came
    before it and whatever calls follow, the store is disposing, and an
    [appendToStream] with valid arguments is refused with [DisposedError]
    without touching the store. *)
Theorem disposal_is_final (Position_End : Z)
  (config : PgStreamStoreConfig.t) (pool : Driver) (v4 : nat -> string)
  (calls : list Call) (s0 : Store) :
  In CallDispose calls ->
  let s := runCalls Position_End config pool v4 calls s0 in
  disposing s = true
  /\ forall streamId expectedVersion newMessages,
       checkAppendArguments streamId expectedVersion newMessages
       = Returned tt ->
       appendToStream config pool streamId expectedVersion newMessages s
       = (Thrown (DisposedError disposedMessage), s).
Proof.
  intros Hin s.
  assert (Hd : disposing s = true).
  { destruct (in_split _ _ Hin) as [before [after ->]].
    subst s. rewrite runCalls_app.
    change (runCalls Position_End config pool v4 (CallDispose :: after)
              (runCalls Position_End config pool v4 before s0))
      with (runCalls Position_End config pool v4 after
              (snd (dispose
                      (runCalls Position_End config pool v4 before s0)))).
    apply runCalls_staysDisposing. now rewrite dispose_eq. }
  split; [exact Hd|].
  intros streamId expectedVersion newMessages Hcheck.
  now apply appendToStream_disposing.
Qed.

Lemma disposal_is_final_witness :
  let s :=
    runCalls (-1) Sample.config Sample.emptyPool (fun _ => Sample.uuid)
      [CallSubscribeToAll; CallDispose; CallReadHeadPosition]
      createPostgresStreamStore in
  appendToStream Sample.config Sample.emptyPool (JStr "orders")
    (JNum ExpectedVersion.Any) [Sample.message] s
  = (Thrown (DisposedError disposedMessage), s).
Proof.
  intros s.
  apply (proj2 (disposal_is_final (-1) Sample.config Sample.emptyPool
                  (fun _ => Sample.uuid)
                  [CallSubscribeToAll; CallDispose; CallReadHeadPosition]
                  createPostgresStreamStore
                  (or_intror (or_introl eq_refl)))).
  reflexivity.
Defined.

(** ** Reading a stream: the page *)

Lemma length_removelast_probe {A} (rows : list A) (count : Z) :
  0 < count ->
  Z.of_nat (length rows) = count + 1 ->
  Z.of_nat (length (removelast rows)) = count.
Proof.
  intros Hc H. destruct rows as [|a rows] using rev_ind; [simpl in *; lia|].
  rewrite removelast_last. rewrite length_app in H. simpl in H. lia.
Qed.

(** A [readStream] of an existing stream is one statement and no use of
    the latch.  [isEnd] is false exactly when the pool returned the probe
    row, the [count + 1]-th; the messages are the rows in the order of the
    answer without the probe, so there are at most [count] of them when
    the pool keeps to the limit it was given.  The stream id and position
    of the result are those of the info row. *)
Theorem readStream_page (Position_End : Z) (pool : Driver) (sid : string)
  (fromVersionInclusive count : Z) (direction : ReadDirection) (s : Store)
  (rows : list MessageRow.t) (streamInfo : StreamInfoRow.t) :
  sid <> "" -> 0 < count ->
  let q := readStreamQuery Position_End (JStr sid) fromVersionInclusive count
             direction in
  nextAnswer (run_readStream pool) s q = Returned (rows, Some streamInfo) ->
  exists r,
    readStream Position_End pool (JStr sid) fromVersionInclusive count
      direction s
    = (Returned r, record (Issued q) s)
    /\ ReadStreamResult.isEnd r
       = negb (Z.of_nat (length rows) =? count + 1)
    /\ ReadStreamResult.messages r
       = map mapMessageResult (pageOf count rows)
    /\ (Z.of_nat (length rows) <= count + 1 ->
        Z.of_nat (length (ReadStreamResult.messages r)) <= count)
    /\ ReadStreamResult.streamId r = JStr (StreamInfoRow.id streamInfo)
    /\ ReadStreamResult.streamPosition r = StreamInfoRow.position streamInfo.
Proof.
  intros Hsid Hcount q Hanswer.
  rewrite readStream_eq by assumption. fold q. rewrite Hanswer.
  unfold pageOf.
  destruct (Z.eqb_spec (Z.of_nat (length rows)) (count + 1)) as [Hprobe|Hno].
  - destruct (lastOf_nonempty (removelast rows)
                (removelast_probe rows count Hcount Hprobe))
      as [lastRow HlastRow].
    unfold mapReadStreamResult. rewrite HlastRow.
    destruct direction; simpl; eexists; (split; [reflexivity|]); simpl;
      repeat split; intros _; rewrite length_map;
      rewrite (length_removelast_probe rows count Hcount Hprobe); lia.
  - unfold mapReadStreamResult.
    destruct direction; simpl; eexists; (split; [reflexivity|]); simpl;
      repeat split; intros Hle; rewrite length_map; lia.
Qed.

Lemma readStream_page_witness :
  exists r,
    readStream (-1) Sample.ordersPool (JStr "orders") 3 2 Forward
      createPostgresStreamStore
    = (Returned r,
       record (Issued (QReadStream (JStr "orders") 3 3 true))
         createPostgresStreamStore)
    /\ ReadStreamResult.isEnd r = false
    /\ ReadStreamResult.messages r
       = map mapMessageResult [Sample.row 3 "9"; Sample.row 4 "12"].
Proof.
  destruct (readStream_page (-1) Sample.ordersPool "orders" 3 2 Forward
              createPostgresStreamStore
              [Sample.row 3 "9"; Sample.row 4 "12"; Sample.row 5 "13"]
              Sample.info)
    as [r [Hr [Hend [Hmessages _]]]].
  - discriminate.
  - lia.
  - reflexivity.
  - exists r. split; [exact Hr|]. split; [exact Hend | exact Hmessages].
Defined.

Lemma assert_outcome (cond : bool) (message : string) :
  Invariant.assert cond message = Returned tt
  \/ Invariant.assert cond message = Thrown (InvalidParameterError message).
Proof. destruct cond; [left | right]; reflexivity. Qed.

(** A read with a [count] of zero or less is refused with
    [InvalidParameterError] before anything is sent to the pool, by
    [readStream] and by [readAll] in both directions; when the arguments
    before [count] pass their checks the message is the one of the
    assertion on [count], which differs between the two functions. *)
Theorem reads_reject_nonpositive_count (Position_End : Z)
  (config : PgStreamStoreConfig.t) (pool : Driver)
  (streamId fromPositionInclusive : JsVal) (fromVersionInclusive count : Z)
  (direction : ReadDirection) (s : Store) :
  count <= 0 ->
  (exists message,
     readStream Position_End pool streamId fromVersionInclusive count
       direction s
     = (Thrown (InvalidParameterError message), s))
  /\ (exists message,
        readAll Position_End config pool fromPositionInclusive count
          direction s
        = (Thrown (InvalidParameterError message), s))
  /\ (Invariant.requiredString "streamId" streamId = Returned tt ->
      readStream Position_End pool streamId fromVersionInclusive count
        direction s
      = (Thrown (InvalidParameterError "count must be greater than zero"),
         s))
  /\ (Invariant.required "fromPositionInclusive" fromPositionInclusive
      = Returned tt ->
      readAll Position_End config pool fromPositionInclusive count
        direction s
      = (Thrown (InvalidParameterError "count should be greater than zero"),
         s)).
Proof.
  intros Hcount.
  assert (Hltb : (0 <? count) = false) by now apply Z.ltb_ge.
  assert (Hstream :
            Invariant.requiredString "streamId" streamId = Returned tt ->
            readStream Position_End pool streamId fromVersionInclusive count
              direction s
            = (Thrown
                 (InvalidParameterError "count must be greater than zero"),
               s)).
  { intros H. unfold readStream, bind, lift. rewrite H.
    unfold Invariant.required, Invariant.assert. now rewrite Hltb. }
  assert (Hall :
            Invariant.required "fromPositionInclusive" fromPositionInclusive
            = Returned tt ->
            readAll Position_End config pool fromPositionInclusive count
              direction s
            = (Thrown
                 (InvalidParameterError "count should be greater than zero"),
               s)).
  { intros H. unfold readAll, bind, lift. rewrite H.
    unfold Invariant.required, Invariant.assert. now rewrite Hltb. }
  split; [|split; [|split; assumption]].
  - unfold Invariant.requiredString in Hstream.
    destruct (assert_outcome
                match streamId with
                | JStr s0 => negb (String.eqb s0 "")
                | _ => false
                end ("streamId" ++ " is required")) as [H|H].
    + eexists. now apply Hstream.
    + eexists. unfold readStream, bind, lift, Invariant.requiredString.
      rewrite H. reflexivity.
  - unfold Invariant.required in Hall.
    destruct (assert_outcome
                match fromPositionInclusive with
                | JUndefined | JNull => false
                | JStr s0 => negb (String.eqb s0 "")
                | _ => true
                end ("fromPositionInclusive" ++ " is required")) as [H|H].
    + eexists. now apply Hall.
    + eexists. unfold readAll, bind, lift, Invariant.required.
      rewrite H. reflexivity.
Qed.

Lemma reads_reject_nonpositive_count_witness :
  readStream (-1) Sample.ordersPool (JStr "orders") 0 0 Forward
    createPostgresStreamStore
  = (Thrown (InvalidParameterError "count must be greater than zero"),
     createPostgresStreamStore)
  /\ readAll (-1) Sample.config Sample.ordersPool (JStr "0") (-3) Backward
       createPostgresStreamStore
     = (Thrown (InvalidParameterError "count should be greater than zero"),
        createPostgresStreamStore).
Proof.
  split.
  - apply (reads_reject_nonpositive_count (-1) Sample.config
             Sample.ordersPool (JStr "orders") (JStr "0") 0 0 Forward
             createPostgresStreamStore); [lia | reflexivity].
  - apply (reads_reject_nonpositive_count (-1) Sample.config
             Sample.ordersPool (JStr "orders") (JStr "0") 0 (-3) Backward
             createPostgresStreamStore); [lia | reflexivity].
Defined.

(** ** Stream metadata *)

Lemma toMetadataStreamId_nonempty (streamId : JsVal) :
  toMetadataStreamId streamId <> "".
Proof. discriminate. Qed.

(** [getStreamMetadata] of a stream that has no metadata stream, or whose
    metadata stream holds no message, answers with the default record: no
    metadata, no retention limits, version -1, and the id of the stream
    that was asked for rather than the id of its metadata stream.  It
    sends one statement, a backward read of two rows of the metadata
    stream from [Number.MAX_SAFE_INTEGER]. *)
Theorem getStreamMetadata_without_metadata (Position_End : Z)
  (pool : Driver) (sid : string) (s : Store) (rows : list MessageRow.t)
  (streamInfo : option StreamInfoRow.t) :
  sid <> "" ->
  let q := QReadStream (JStr ("$$" ++ sid)) 9007199254740991 2 false in
  nextAnswer (run_readStream pool) s q = Returned (rows, streamInfo) ->
  streamInfo = None \/ rows = [] ->
  getStreamMetadata Position_End pool (JStr sid) s
  = (Returned (noMetadata (JStr sid)), record (Issued q) s).
Proof.
  intros Hsid q Hanswer Hnone.
  unfold getStreamMetadata, bind, lift.
  unfold Invariant.requiredString, Invariant.assert.
  apply String.eqb_neq in Hsid. rewrite Hsid. cbn [negb].
  rewrite readStream_eq; [|apply toMetadataStreamId_nonempty | lia].
  unfold readStreamQuery. rewrite Z.eqb_refl.
  change (QReadStream (JStr (toMetadataStreamId (JStr sid)))
            (Z.max 0 MAX_SAFE_INTEGER) (1 + 1) (isForward Backward))
    with q.
  rewrite Hanswer.
  destruct streamInfo as [info|].
  - destruct Hnone as [Hnone| ->]; [discriminate|]. reflexivity.
  - reflexivity.
Qed.

Lemma getStreamMetadata_without_metadata_witness :
  getStreamMetadata (-1) Sample.emptyPool (JStr "orders")
    createPostgresStreamStore
  = (Returned (noMetadata (JStr "orders")),
     record
       (Issued (QReadStream (JStr "$$orders") 9007199254740991 2 false))
       createPostgresStreamStore).
Proof.
  apply (getStreamMetadata_without_metadata (-1) Sample.emptyPool "orders"
           createPostgresStreamStore [] None).
  - discriminate.
  - reflexivity.
  - now left.
Defined.

(** [setStreamMetadata] with arguments that pass its checks is one
    statement inside the latch, and its outcome depends only on the answer
    to it. *)
Lemma setStreamMetadata_eq (config : PgStreamStoreConfig.t) (pool : Driver)
  (v4 : nat -> string) (sid : string) (expectedVersion opts : JsVal)
  (s : Store) :
  sid <> "" ->
  Invariant.required "expectedVersion" expectedVersion = Returned tt ->
  Invariant.required "opts" opts = Returned tt ->
  let q := setMetadataQuery config v4 (JStr sid) expectedVersion opts s in
  setStreamMetadata config pool v4 (JStr sid) expectedVersion opts s
  = (match nextAnswer (run_setStreamMetadata pool) (latchEnter s) q with
     | Returned version =>
         if version =? AppendResultCodes.ConcurrencyIssue
         then Thrown ConcurrencyError
         else Returned version
     | Thrown e => Thrown e
     end,
     latchExit (record (Issued q) (latchEnter s))).
Proof.
  intros Hsid Hversion Hopts q.
  apply String.eqb_neq in Hsid.
  unfold setStreamMetadata, bind, lift, modify, tryFinally,
    getCurrentTime, uuidV4, query.
  unfold Invariant.requiredString, Invariant.assert at 1.
  rewrite Hsid, Hversion, Hopts. cbn [negb].
  subst q. unfold nextAnswer, setMetadataQuery, metadataPayload, timeAt.
  replace (length (trace (latchEnter s))) with (S (length (trace s)))
    by (cbn [latchEnter trace]; rewrite length_app; simpl; lia).
  match goal with
  | |- context [run_setStreamMetadata ?p ?n ?q] =>
      destruct (run_setStreamMetadata p n q) as [version|e]
  end; [|reflexivity].
  unfold throwIfErrorCode.
  destruct (version =? AppendResultCodes.ConcurrencyIssue);
    [reflexivity|].
  now rewrite maybeScavenge_eq.
Qed.

(** [setStreamMetadata] is not retried and does not classify the errors
    of the pool.  It sends one statement between entering and leaving the
    latch; a version other than the conflict sentinel is returned, the
    sentinel becomes [ConcurrencyError], and an error of the pool, a
    violated unique constraint included, is thrown as it is, under
    [ExpectedVersion.Any] too. *)
Theorem setStreamMetadata_is_not_retried (config : PgStreamStoreConfig.t)
  (pool : Driver) (v4 : nat -> string) (sid : string)
  (expectedVersion opts : JsVal) (s : Store) :
  sid <> "" ->
  Invariant.required "expectedVersion" expectedVersion = Returned tt ->
  Invariant.required "opts" opts = Returned tt ->
  let q := setMetadataQuery config v4 (JStr sid) expectedVersion opts s in
  let answer := nextAnswer (run_setStreamMetadata pool) (latchEnter s) q in
  let result :=
    setStreamMetadata config pool v4 (JStr sid) expectedVersion opts s in
  trace (snd result) = (trace s ++ [LatchEnter; Issued q; LatchExit])%list
  /\ (forall version,
        answer = Returned version ->
        version <> AppendResultCodes.ConcurrencyIssue ->
        fst result = Returned version)
  /\ (answer = Returned AppendResultCodes.ConcurrencyIssue ->
      fst result = Thrown ConcurrencyError)
  /\ (forall e, answer = Thrown e -> fst result = Thrown e).
Proof.
  intros Hsid Hversion Hopts q answer result. subst result.
  rewrite setStreamMetadata_eq by assumption.
  fold q. fold answer. cbn [fst snd]. split; [|split; [|split]].
  - cbn [latchExit latchEnter record trace]. now rewrite <- !app_assoc.
  - intros version -> Hne. apply Z.eqb_neq in Hne. now rewrite Hne.
  - intros ->. reflexivity.
  - intros e ->. reflexivity.
Qed.

Lemma setStreamMetadata_is_not_retried_witness :
  fst (setStreamMetadata Sample.config
         (Fixture.pool
            (Thrown (Sample.uniqueViolation "stream_id_key" Sample.uuid))
            (Returned 0) [] None)
         (fun _ => Sample.uuid) (JStr "orders") (JNum ExpectedVersion.Any)
         Fixture.opts createPostgresStreamStore)
  = Thrown (Sample.uniqueViolation "stream_id_key" Sample.uuid).
Proof.
  refine (proj2 (proj2 (proj2
            (setStreamMetadata_is_not_retried Sample.config
               (Fixture.pool
                  (Thrown
                     (Sample.uniqueViolation "stream_id_key" Sample.uuid))
                  (Returned 0) [] None)
               (fun _ => Sample.uuid) "orders" (JNum ExpectedVersion.Any)
               Fixture.opts createPostgresStreamStore _ _ _))) _ _).
  - discriminate.
  - reflexivity.
  - reflexivity.
  - reflexivity.
Defined.

Lemma or_or_null (v : JsVal) : Js.or (Js.or v JNull) JNull = Js.or v JNull.
Proof. unfold Js.or. destruct (truthy v) eqn:E; [now rewrite E | reflexivity]. Qed.

(** What [setStreamMetadata] writes, [getStreamMetadata] reads back.  The
    one statement of a [setStreamMetadata] call carries a message of the
    operational metadata type whose payload holds the metadata, or an empty
    object when none was given, and the two retention limits, or null.
    When the newest message of the metadata stream carries that payload,
    [getStreamMetadata] returns these three values, the version of the
    metadata stream, and the id of the stream itself. *)
Theorem metadata_round_trip (Position_End : Z)
  (config : PgStreamStoreConfig.t) (pool : Driver) (v4 : nat -> string)
  (sid : string) (expectedVersion opts : JsVal) :
  sid <> "" ->
  Invariant.required "expectedVersion" expectedVersion = Returned tt ->
  Invariant.required "opts" opts = Returned tt ->
  (forall s0,
     exists now messageId,
       issuedBy
         (setStreamMetadata config pool v4 (JStr sid) expectedVersion opts)
         s0
       = [QSetStreamMetadata (JStr sid) ("$$" ++ sid) expectedVersion
            (Js.or (Js.get opts "maxAge") JNull)
            (Js.or (Js.get opts "maxCount") JNull) now
            {| NewStreamMessage.data := metadataPayload opts;
               NewStreamMessage.messageId := messageId;
               NewStreamMessage.type :=
                 JStr OperationalMessageType.Metadata;
               NewStreamMessage.meta := JUndefined |}])
  /\ (forall s rows row streamInfo,
        nextAnswer (run_readStream pool) s
          (QReadStream (JStr ("$$" ++ sid)) 9007199254740991 2 false)
        = Returned (rows, Some streamInfo) ->
        rows = [row] \/ (exists older, rows = [row; older]) ->
        MessageRow.data row = metadataPayload opts ->
        fst (getStreamMetadata Position_End pool (JStr sid) s)
        = Returned
            {| StreamMetadataResult.metadata :=
                 Js.or (Js.get opts "metadata") (JObj []);
               StreamMetadataResult.metadataStreamVersion :=
                 StreamInfoRow.stream_version streamInfo;
               StreamMetadataResult.streamId := JStr sid;
               StreamMetadataResult.maxAge :=
                 Js.or (Js.get opts "maxAge") JNull;
               StreamMetadataResult.maxCount :=
                 Js.or (Js.get opts "maxCount") JNull |}).
Proof.
  intros Hsid Hversion Hopts. split.
  - intros s0.
    rewrite (issuedBy_of_trace _ s0
               [LatchEnter;
                Issued
                  (setMetadataQuery config v4 (JStr sid) expectedVersion
                     opts s0);
                LatchExit]).
    + cbn [issued]. unfold setMetadataQuery. eexists. eexists. reflexivity.
    + rewrite setStreamMetadata_eq by assumption. cbn [snd].
      cbn [latchExit latchEnter record trace]. now rewrite <- !app_assoc.
  - intros s rows row streamInfo Hanswer Hrows Hdata.
    unfold getStreamMetadata, bind, lift.
    unfold Invariant.requiredString, Invariant.assert.
    assert (Hsid' := Hsid). apply String.eqb_neq in Hsid'.
    rewrite Hsid'. cbn [negb].
    rewrite readStream_eq; [|apply toMetadataStreamId_nonempty | lia].
    unfold readStreamQuery. rewrite Z.eqb_refl.
    change (QReadStream (JStr (toMetadataStreamId (JStr sid)))
              (Z.max 0 MAX_SAFE_INTEGER) (1 + 1) (isForward Backward))
      with (QReadStream (JStr ("$$" ++ sid)) 9007199254740991 2 false).
    rewrite Hanswer.
    destruct Hrows as [-> | [older ->]]; cbn; rewrite Hdata;
      unfold metadataPayload; cbn; now rewrite !or_or_null.
Qed.

Lemma metadata_round_trip_witness :
  fst (getStreamMetadata (-1)
         (Fixture.pool (Returned 2) (Returned 0) [Fixture.metadataRow]
            (Some Fixture.metadataInfo))
         (JStr "orders") createPostgresStreamStore)
  = Returned
      {| StreamMetadataResult.metadata := JObj [("owner", JStr "billing")];
         StreamMetadataResult.metadataStreamVersion := 2;
         StreamMetadataResult.streamId := JStr "orders";
         StreamMetadataResult.maxAge := JNum 3600;
         StreamMetadataResult.maxCount := JNull |}.
Proof.
  refine (proj2 (metadata_round_trip (-1) Sample.config
                   (Fixture.pool (Returned 2) (Returned 0)
                      [Fixture.metadataRow] (Some Fixture.metadataInfo))
                   (fun _ => Sample.uuid) "orders"
                   (JNum ExpectedVersion.Any) Fixture.opts _ _ _)
            createPostgresStreamStore [Fixture.metadataRow]
            Fixture.metadataRow Fixture.metadataInfo _ _ _).
  - discriminate.
  - reflexivity.
  - reflexivity.
  - reflexivity.
  - now left.
  - reflexivity.
Defined.

(** ** Deleting a stream *)

(** One attempt of the deletion: a single statement, and an outcome that
    depends only on the answer to it. *)
Lemma retryableDeleteStream_eq (config : PgStreamStoreConfig.t)
  (pool : Driver) (v4 : nat -> string) (streamId expectedVersion : JsVal)
  (s : Store) :
  let q := deleteQuery config v4 streamId expectedVersion s in
  retryableDeleteStream config pool v4 streamId expectedVersion Again s
  = (deleteAttemptOutcome expectedVersion
       (nextAnswer (run_deleteStream pool) s q),
     record (Issued q) s).
Proof.
  intros q. subst q.
  unfold retryableDeleteStream, tryCatch, bind, getCurrentTime, uuidV4,
    query, lift, throw, nextAnswer, deleteQuery, timeAt,
    deleteAttemptOutcome.
  match goal with
  | |- context [run_deleteStream ?p ?n ?q] =>
      destruct (run_deleteStream p n q) as [code|e]
  end; [|reflexivity].
  unfold throwIfErrorCode.
  destruct (code =? AppendResultCodes.ConcurrencyIssue); reflexivity.
Qed.

Lemma deleteStream_accepted (config : PgStreamStoreConfig.t)
  (pool : Driver) (v4 : nat -> string) (sid : string)
  (expectedVersion : JsVal) (s : Store) :
  sid <> "" -> startsWith sid "$" = false ->
  Invariant.required "expectedVersion" expectedVersion = Returned tt ->
  deleteStream config pool v4 (JStr sid) expectedVersion s
  = Fejl.retry (retryableDeleteStream config pool v4 (JStr sid)
                  expectedVersion)
      retryOpts (deleteStart s).
Proof.
  intros Hsid Hdollar Hversion. apply String.eqb_neq in Hsid.
  unfold deleteStream, bind, lift, modify, tryFinally, ret.
  unfold Invariant.requiredString, Invariant.notOperationalStream,
    Invariant.assert at 1 2.
  now rewrite Hsid, Hdollar, Hversion.
Qed.

(** The first attempt of [deleteStream] settles the call, after a single
    statement, in these cases: the procedure answers with a code other
    than the conflict sentinel, and the call returns; it answers with the
    sentinel, which is [ConcurrencyError] and is not retried even under
    [ExpectedVersion.Any]; the pool reports a violated stream constraint
    under a version other than [ExpectedVersion.Any], which is
    [ConcurrencyError] too; or the pool fails with an error that names no
    constraint, which is thrown as it is.  None of this depends on
    [disposing]. *)
Theorem deleteStream_settles_at_once (config : PgStreamStoreConfig.t)
  (pool : Driver) (v4 : nat -> string) (sid : string)
  (expectedVersion : JsVal) (s : Store) :
  sid <> "" -> startsWith sid "$" = false ->
  Invariant.required "expectedVersion" expectedVersion = Returned tt ->
  let q := deleteQuery config v4 (JStr sid) expectedVersion (deleteStart s) in
  let answer := nextAnswer (run_deleteStream pool) (deleteStart s) q in
  let result := deleteStream config pool v4 (JStr sid) expectedVersion s in
  let settled := record (Issued q) (deleteStart s) in
  (forall code,
     answer = Returned code ->
     result
     = (if code =? AppendResultCodes.ConcurrencyIssue
        then Thrown ConcurrencyError
        else Returned tt, settled))
  /\ (forall e,
        answer = Thrown e ->
        isConcurrencyUniqueConstraintViolation e = true ->
        strictEqNum expectedVersion ExpectedVersion.Any = false ->
        result = (Thrown ConcurrencyError, settled))
  /\ (forall e,
        answer = Thrown e ->
        isConcurrencyUniqueConstraintViolation e = false ->
        isDuplicateMessageIdUniqueConstraintViolation e = false ->
        (forall cause, e <> Again cause) ->
        result = (Thrown e, settled)).
Proof.
  intros Hsid Hdollar Hversion q answer result settled. subst result.
  rewrite deleteStream_accepted by assumption. unfold Fejl.retry.
  assert (Hattempt := retryableDeleteStream_eq config pool v4 (JStr sid)
                        expectedVersion (deleteStart s)).
  cbv zeta in Hattempt. fold q in Hattempt. fold answer in Hattempt.
  fold settled in Hattempt.
  split; [|split].
  - intros code Hanswer. rewrite Hanswer in Hattempt.
    apply retryLoop_settles.
    + rewrite Hattempt. unfold deleteAttemptOutcome. reflexivity.
    + intros cause.
      destruct (code =? AppendResultCodes.ConcurrencyIssue); discriminate.
  - intros e Hanswer Hc Hany. rewrite Hanswer in Hattempt.
    apply retryLoop_settles.
    + rewrite Hattempt.
      unfold deleteAttemptOutcome, handlePotentialConcurrencyError.
      now rewrite Hc, Hany.
    + discriminate.
  - intros e Hanswer Hc Hdup Hagain. rewrite Hanswer in Hattempt.
    apply retryLoop_settles.
    + rewrite Hattempt.
      unfold deleteAttemptOutcome, handlePotentialConcurrencyError.
      now rewrite Hc, Hdup.
    + intros cause E. inversion E. now apply (Hagain cause).
Qed.

Lemma deleteStream_settles_at_once_witness :
  fst (deleteStream Sample.config
         (Fixture.pool (Returned 0)
            (Returned AppendResultCodes.ConcurrencyIssue) [] None)
         (fun _ => Sample.uuid) (JStr "orders") (JNum ExpectedVersion.Any)
         createPostgresStreamStore)
  = Thrown ConcurrencyError.
Proof.
  refine (f_equal fst
            (proj1 (deleteStream_settles_at_once Sample.config
                      (Fixture.pool (Returned 0)
                         (Returned AppendResultCodes.ConcurrencyIssue) []
                         None)
                      (fun _ => Sample.uuid) "orders"
                      (JNum ExpectedVersion.Any) createPostgresStreamStore
                      _ _ _)
               AppendResultCodes.ConcurrencyIssue _)).
  - discriminate.
  - reflexivity.
  - reflexivity.
  - reflexivity.
Defined.

(* ===================================================================== *)
(** * The bootstrapper *)
(* ===================================================================== *)

Lemma sent_app (a b : list Bootstrapper.Event) :
  Bootstrapper.sent (a ++ b)
  = (Bootstrapper.sent a ++ Bootstrapper.sent b)%list.
Proof.
  induction a as [|e a IH]; [reflexivity|].
  destruct e; simpl; now rewrite ?IH.
Qed.

(** Splits a run of the bootstrapper on the answers of the server. *)
Ltac settle :=
  cbv beta iota zeta delta [Bootstrapper.ret Bootstrapper.throw fst snd].

Ltac answers server :=
  settle;
  repeat
    (match goal with
     | |- context [server ?n ?q] =>
         let e := fresh "e" in
         destruct (server n q) as [[]|e];
         [|try (destruct (includes (message e) "already exists"));
           try (destruct (includes (message e) "does not exist"))]
     end;
     settle).

Ltac run_bootstrapper server :=
  unfold Bootstrapper.bootstrap, Bootstrapper.teardown,
    Bootstrapper.dropPostgresSchema, Bootstrapper.dropDatabaseIfTest,
    Bootstrapper.createDbIfNotExist, Bootstrapper.setupPostgresSchema,
    Bootstrapper.catch, Bootstrapper.seq, Bootstrapper.bind,
    Bootstrapper.tryFinally, Bootstrapper.emit, Bootstrapper.send,
    Bootstrapper.ignoreErrorIfExists, Bootstrapper.ignoreErrorIfNotExists;
  answers server;
  rewrite <- ?app_assoc; cbn [app].

(** What a run of [bootstrap] does, whatever the server answers. *)
Lemma bootstrap_run (pg : Bootstrapper.PgOptions)
  (server : Bootstrapper.Server) (t0 : list Bootstrapper.Event) :
  let db := Bootstrapper.database pg in
  let enabled :=
    match Bootstrapper.dropIfTest pg with Some b => b | None => false end
    && endsWith db "_test" in
  exists t,
    snd (Bootstrapper.bootstrap pg server t0) = (t0 ++ t)%list
    /\ Forall
         (fun q =>
            In q
              [Bootstrapper.CloseConnections db; Bootstrapper.DropDatabase db;
               Bootstrapper.CreateDatabase db;
               Bootstrapper.SetupSchema (Bootstrapper.schema pg)])
         (Bootstrapper.sent t)
    /\ (enabled = false ->
        exists rest,
          t = Bootstrapper.PoolCreated
                (Bootstrapper.withDatabase pg "postgres")
              :: Bootstrapper.Sent (Bootstrapper.CreateDatabase db) :: rest
          /\ Forall (fun q => destructive q = false) (Bootstrapper.sent t))
    /\ (enabled = true ->
        exists rest,
          t = Bootstrapper.PoolCreated
                (Bootstrapper.withDatabase pg "postgres")
              :: Bootstrapper.Sent (Bootstrapper.CloseConnections db)
              :: rest)
    /\ poolsEnded false t = true
    /\ match fst (Bootstrapper.bootstrap pg server t0) with
       | Returned _ => loggedErrors t = []
       | Thrown e =>
           exists t', t = (t' ++ [Bootstrapper.LoggedError e])%list
                      /\ loggedErrors t' = []
       end.
Proof.
  intros db enabled. subst enabled db.
  unfold Bootstrapper.bootstrap, Bootstrapper.dropDatabaseIfTest.
  destruct (Bootstrapper.dropIfTest pg) as [[|]|];
    destruct (endsWith (Bootstrapper.database pg) "_test");
    cbn [negb orb andb Bool.eqb];
    run_bootstrapper server;
    eexists; (split; [reflexivity|]);
    cbn [Bootstrapper.sent poolsEnded loggedErrors negb andb];
    (split; [repeat (apply Forall_cons; [simpl; tauto|]); apply Forall_nil|]);
    (split; [intros H;
             first [discriminate H
                   | eexists; split;
                     [reflexivity
                     | repeat (apply Forall_cons; [reflexivity|]);
                       apply Forall_nil]]|]);
    (split; [intros H; first [discriminate H | eexists; reflexivity]|]);
    (split; [reflexivity|]);
    try reflexivity.
  all: eexists; split;
    [match goal with
     | |- ?l = (_ ++ [?x])%list =>
         change l with (removelast l ++ [x])%list; reflexivity
     end
    | reflexivity].
Qed.

Lemma sent_after_event (t : list Bootstrapper.Event)
  (e : Bootstrapper.Event) :
  (forall q, e <> Bootstrapper.Sent q) ->
  Bootstrapper.sent (t ++ [e]) = Bootstrapper.sent t.
Proof.
  intros H. rewrite sent_app.
  destruct e; simpl; try apply app_nil_r. now destruct (H statement).
Qed.

(** [teardown] is one statement over one pool, and only an error that
    says "does not exist" is ignored. *)
Lemma teardown_eq (pg : Bootstrapper.PgOptions)
  (server : Bootstrapper.Server) (t0 : list Bootstrapper.Event) :
  let q := Bootstrapper.TeardownSchema (Bootstrapper.schema pg) in
  Bootstrapper.teardown pg server t0
  = (match server (length (Bootstrapper.sent t0)) q with
     | Returned _ => Returned tt
     | Thrown e =>
         if includes (message e) "does not exist" then Returned tt
         else Thrown e
     end,
     (t0 ++ [Bootstrapper.PoolCreated pg; Bootstrapper.Sent q;
             Bootstrapper.PoolEnded])%list).
Proof.
  intros q. subst q.
  unfold Bootstrapper.teardown, Bootstrapper.dropPostgresSchema,
    Bootstrapper.catch, Bootstrapper.seq, Bootstrapper.bind,
    Bootstrapper.tryFinally, Bootstrapper.emit, Bootstrapper.send,
    Bootstrapper.ignoreErrorIfNotExists.
  settle. rewrite sent_after_event by discriminate.
  destruct (server _ _) as [[]|e]; settle.
  - now rewrite <- !app_assoc.
  - destruct (includes (message e) "does not exist"); settle;
      now rewrite <- !app_assoc.
Qed.

(** The statements of [bootstrap] in their order, each with its pool:
    the run sends the beginning of one fixed sequence. *)
Lemma bootstrap_sequence (pg : Bootstrapper.PgOptions)
  (server : Bootstrapper.Server) (t0 : list Bootstrapper.Event) :
  let db := Bootstrapper.database pg in
  let onPostgres := Some (Bootstrapper.withDatabase pg "postgres") in
  let enabled :=
    match Bootstrapper.dropIfTest pg with Some b => b | None => false end
    && endsWith db "_test" in
  let creation :=
    [(onPostgres, Bootstrapper.CreateDatabase db);
     (Some pg, Bootstrapper.SetupSchema (Bootstrapper.schema pg))] in
  exists t,
    snd (Bootstrapper.bootstrap pg server t0) = (t0 ++ t)%list
    /\ beginningOf
         (if enabled
          then (onPostgres, Bootstrapper.CloseConnections db)
               :: (onPostgres, Bootstrapper.DropDatabase db) :: creation
          else creation)
         (sentOver None t).
Proof.
  intros db onPostgres enabled creation.
  subst enabled creation onPostgres db.
  unfold Bootstrapper.bootstrap, Bootstrapper.dropDatabaseIfTest.
  destruct (Bootstrapper.dropIfTest pg) as [[|]|];
    destruct (endsWith (Bootstrapper.database pg) "_test");
    cbn [negb orb andb Bool.eqb];
    run_bootstrapper server;
    eexists; (split; [reflexivity|]);
    cbn [sentOver]; (split; [discriminate|]);
    eexists; cbn [app]; reflexivity.
Qed.

(** Once the connections are closed, the drop of the database is the
    next statement. *)
Lemma bootstrap_drops_after_closing (pg : Bootstrapper.PgOptions)
  (server : Bootstrapper.Server) (t0 : list Bootstrapper.Event) :
  let db := Bootstrapper.database pg in
  Bootstrapper.dropIfTest pg = Some true ->
  endsWith db "_test" = true ->
  server (length (Bootstrapper.sent t0)) (Bootstrapper.CloseConnections db)
  = Returned tt ->
  exists rest,
    Bootstrapper.sent (snd (Bootstrapper.bootstrap pg server t0))
    = (Bootstrapper.sent t0
       ++ Bootstrapper.CloseConnections db :: Bootstrapper.DropDatabase db
          :: rest)%list.
Proof.
  intros db Hflag Hname Hclosed. subst db.
  unfold Bootstrapper.bootstrap, Bootstrapper.dropDatabaseIfTest.
  rewrite Hflag, Hname. cbn [negb orb Bool.eqb].
  unfold Bootstrapper.createDbIfNotExist, Bootstrapper.setupPostgresSchema,
    Bootstrapper.catch, Bootstrapper.seq, Bootstrapper.bind,
    Bootstrapper.tryFinally, Bootstrapper.emit, Bootstrapper.send,
    Bootstrapper.ignoreErrorIfExists.
  settle. rewrite sent_after_event by discriminate. rewrite Hclosed.
  answers server; rewrite <- ?app_assoc; cbn [app];
    rewrite sent_app; cbn [Bootstrapper.sent]; eexists; reflexivity.
Qed.

(** [bootstrap] closes connections and drops a database only when
    [dropIfTest] is set and the name of the configured database ends in
    [_test].  Then the statements it sends are the beginning of this
    sequence: over a pool on the database [postgres], the closing of the
    connections, the drop of the database and its creation; over a pool
    on the configured database, the setup of the schema.  The drop, when
    it is sent, is the second statement and so comes before the creation
    and the setup, and it is sent whenever the closing of the connections
    succeeded.  Otherwise the statements are the beginning of the
    sequence without the first two, and none of them closes connections
    or drops a database.  Every statement names the configured database
    or schema. *)
Theorem bootstrap_drops_only_test_databases (pg : Bootstrapper.PgOptions)
  (server : Bootstrapper.Server) (t0 : list Bootstrapper.Event) :
  let db := Bootstrapper.database pg in
  let onPostgres := Some (Bootstrapper.withDatabase pg "postgres") in
  let creation :=
    [(onPostgres, Bootstrapper.CreateDatabase db);
     (Some pg, Bootstrapper.SetupSchema (Bootstrapper.schema pg))] in
  exists t,
    snd (Bootstrapper.bootstrap pg server t0) = (t0 ++ t)%list
    /\ Forall
         (fun q =>
            In q
              [Bootstrapper.CloseConnections db; Bootstrapper.DropDatabase db;
               Bootstrapper.CreateDatabase db;
               Bootstrapper.SetupSchema (Bootstrapper.schema pg)])
         (Bootstrapper.sent t)
    /\ (Bootstrapper.dropIfTest pg <> Some true
        \/ endsWith db "_test" = false ->
        Forall (fun q => destructive q = false) (Bootstrapper.sent t)
        /\ beginningOf creation (sentOver None t))
    /\ (Bootstrapper.dropIfTest pg = Some true ->
        endsWith db "_test" = true ->
        (exists rest,
           t = Bootstrapper.PoolCreated
                 (Bootstrapper.withDatabase pg "postgres")
               :: Bootstrapper.Sent (Bootstrapper.CloseConnections db)
               :: rest)
        /\ beginningOf
             ((onPostgres, Bootstrapper.CloseConnections db)
              :: (onPostgres, Bootstrapper.DropDatabase db) :: creation)
             (sentOver None t)
        /\ (server (length (Bootstrapper.sent t0))
              (Bootstrapper.CloseConnections db)
            = Returned tt ->
            exists rest,
              Bootstrapper.sent t
              = Bootstrapper.CloseConnections db
                :: Bootstrapper.DropDatabase db :: rest)).
Proof.
  intros db onPostgres creation.
  destruct (bootstrap_run pg server t0)
    as [t [Ht [Hnames [Hoff [Hon _]]]]].
  destruct (bootstrap_sequence pg server t0) as [t' [Ht' Hsequence]].
  assert (t' = t) by (rewrite Ht in Ht'; now apply app_inv_head in Ht').
  subst t'. cbv zeta in Hsequence. fold db in Hsequence.
  exists t. split; [exact Ht|]. split; [exact Hnames|]. split.
  - intros Hdisabled.
    assert (Henabled :
              match Bootstrapper.dropIfTest pg with
              | Some b => b
              | None => false
              end && endsWith db "_test" = false).
    { destruct Hdisabled as [Hflag|Hname].
      - destruct (Bootstrapper.dropIfTest pg) as [[|]|];
          [now destruct Hflag | reflexivity | reflexivity].
      - rewrite Hname. apply andb_false_r. }
    split.
    + destruct Hoff as [rest [_ H]]; [exact Henabled | exact H].
    + rewrite Henabled in Hsequence. exact Hsequence.
  - intros Hflag Hname. split; [|split].
    + apply Hon. fold db. now rewrite Hflag, Hname.
    + rewrite Hflag, Hname in Hsequence. exact Hsequence.
    + intros Hclosed.
      destruct (bootstrap_drops_after_closing pg server t0 Hflag Hname
                  Hclosed) as [rest Hrest].
      exists rest. rewrite Ht, sent_app in Hrest.
      now apply app_inv_head in Hrest.
Qed.

Lemma bootstrap_drops_only_test_databases_witness :
  Forall (fun q => destructive q = false)
    (Bootstrapper.sent
       (snd (Bootstrapper.bootstrap
               {| Bootstrapper.host := "localhost";
                  Bootstrapper.port := "5432";
                  Bootstrapper.database := "streamsource";
                  Bootstrapper.schema := "streamsource";
                  Bootstrapper.user := "postgres";
                  Bootstrapper.password := "";
                  Bootstrapper.dropIfTest := Some true |}
               (answering (Returned tt)) []))).
Proof.
  destruct (bootstrap_drops_only_test_databases
              {| Bootstrapper.host := "localhost";
                 Bootstrapper.port := "5432";
                 Bootstrapper.database := "streamsource";
                 Bootstrapper.schema := "streamsource";
                 Bootstrapper.user := "postgres";
                 Bootstrapper.password := "";
                 Bootstrapper.dropIfTest := Some true |}
              (answering (Returned tt)) [])
    as [t [Ht [_ [H _]]]].
  rewrite Ht. apply H. right. reflexivity.
Defined.

(** A test database is dropped before it is created again: with
    [dropIfTest] set and a server that accepts every statement, the four
    statements go out in this order. *)
Example bootstrap_of_a_test_database :
  let pg :=
    {| Bootstrapper.host := "localhost";
       Bootstrapper.port := "5432";
       Bootstrapper.database := "streamsource_test";
       Bootstrapper.schema := "streamsource";
       Bootstrapper.user := "postgres";
       Bootstrapper.password := "";
       Bootstrapper.dropIfTest := Some true |} in
  Bootstrapper.sent
    (snd (Bootstrapper.bootstrap pg (answering (Returned tt)) []))
  = [Bootstrapper.CloseConnections "streamsource_test";
     Bootstrapper.DropDatabase "streamsource_test";
     Bootstrapper.CreateDatabase "streamsource_test";
     Bootstrapper.SetupSchema "streamsource"].
Proof. reflexivity. Qed.

(** Whatever the server answers, [bootstrap] and [teardown] end every
    pool they make: a pool is ended before the next one is made and
    before the call settles, also when a statement failed, and no
    statement is sent outside a pool. *)
Theorem bootstrapper_ends_every_pool (pg : Bootstrapper.PgOptions)
  (server : Bootstrapper.Server) (t0 : list Bootstrapper.Event) :
  (exists t,
     snd (Bootstrapper.bootstrap pg server t0) = (t0 ++ t)%list
     /\ poolsEnded false t = true)
  /\ (exists t,
        snd (Bootstrapper.teardown pg server t0) = (t0 ++ t)%list
        /\ poolsEnded false t = true).
Proof.
  split.
  - destruct (bootstrap_run pg server t0) as [t [Ht [_ [_ [_ [H _]]]]]].
    now exists t.
  - rewrite teardown_eq. eexists. split; reflexivity.
Qed.

Lemma loggedErrors_app (a b : list Bootstrapper.Event) :
  loggedErrors (a ++ b) = (loggedErrors a ++ loggedErrors b)%list.
Proof.
  induction a as [|e a IH]; [reflexivity|].
  destruct e; simpl; now rewrite ?IH.
Qed.

(** An error that [bootstrap] throws has been logged, once, as the last
    thing the call did; a [bootstrap] that returns has logged no error.
    [teardown] logs no error, whether it returns or throws. *)
Theorem bootstrap_logs_the_error_it_throws (pg : Bootstrapper.PgOptions)
  (server : Bootstrapper.Server) (t0 : list Bootstrapper.Event) :
  (exists t,
     snd (Bootstrapper.bootstrap pg server t0) = (t0 ++ t)%list
     /\ match fst (Bootstrapper.bootstrap pg server t0) with
        | Returned _ => loggedErrors t = []
        | Thrown e =>
            loggedErrors t = [e]
            /\ exists t', t = (t' ++ [Bootstrapper.LoggedError e])%list
        end)
  /\ (exists t,
        snd (Bootstrapper.teardown pg server t0) = (t0 ++ t)%list
        /\ loggedErrors t = []).
Proof.
  split.
  - destruct (bootstrap_run pg server t0) as [t [Ht [_ [_ [_ [_ H]]]]]].
    exists t. split; [exact Ht|].
    destruct (fst (Bootstrapper.bootstrap pg server t0)) as [[]|e];
      [exact H|].
    destruct H as [t' [-> Hnone]]. split; [|now exists t'].
    rewrite loggedErrors_app, Hnone. reflexivity.
  - rewrite teardown_eq. eexists. split; reflexivity.
Qed.

(** Setup and teardown can be run again.  When the server fails no
    statement but with an error the bootstrapper ignores ("already
    exists" for the creation of the database and the setup of the schema,
    "does not exist" for the drop of the database and the teardown of the
    schema), [bootstrap] and [teardown] return normally. *)
Theorem bootstrapper_ignores_what_exists (pg : Bootstrapper.PgOptions)
  (server : Bootstrapper.Server) (t0 : list Bootstrapper.Event) :
  (forall n q e, server n q = Thrown e -> tolerated q e = true) ->
  fst (Bootstrapper.bootstrap pg server t0) = Returned tt
  /\ fst (Bootstrapper.teardown pg server t0) = Returned tt.
Proof.
  intros Htolerated. split.
  - unfold Bootstrapper.bootstrap, Bootstrapper.dropDatabaseIfTest,
      Bootstrapper.createDbIfNotExist, Bootstrapper.setupPostgresSchema,
      Bootstrapper.catch, Bootstrapper.seq, Bootstrapper.bind,
      Bootstrapper.tryFinally, Bootstrapper.emit, Bootstrapper.send,
      Bootstrapper.ignoreErrorIfExists.
    destruct (negb _ || _); settle;
      repeat
        (match goal with
         | |- context [server ?n ?q] =>
             let e := fresh "e" in
             let E := fresh "E" in
             destruct (server n q) as [[]|e] eqn:E;
             [|apply Htolerated in E; cbn [tolerated] in E;
               first [discriminate E | rewrite E]]
         end;
         settle);
      reflexivity.
  - rewrite teardown_eq. cbn [fst].
    destruct (server _ _) as [[]|e] eqn:E; [reflexivity|].
    apply Htolerated in E. cbn [tolerated] in E. now rewrite E.
Qed.

Lemma bootstrapper_ignores_what_exists_witness :
  fst (Bootstrapper.bootstrap
         {| Bootstrapper.host := "localhost";
            Bootstrapper.port := "5432";
            Bootstrapper.database := "streamsource";
            Bootstrapper.schema := "streamsource";
            Bootstrapper.user := "postgres";
            Bootstrapper.password := "";
            Bootstrapper.dropIfTest := None |}
         (fun _ q =>
            match q with
            | Bootstrapper.CreateDatabase _ =>
                Thrown
                  (DriverError "database streamsource already exists"
                     JUndefined)
            | _ => Returned tt
            end) [])
  = Returned tt.
Proof.
  refine (proj1 (bootstrapper_ignores_what_exists _ _ [] _)).
  intros n q e H. destruct q; try discriminate H.
  inversion H. reflexivity.
Defined.

(* ===================================================================== *)
(** * The management tool *)
(* ===================================================================== *)

Lemma find_first {A} (f : A -> bool) (before after : list A) (x : A) :
  Forall (fun y => f y = false) before -> f x = true ->
  find f (before ++ x :: after) = Some x.
Proof.
  intros Hbefore Hx. induction Hbefore as [|y before Hy _ IH]; simpl.
  - now rewrite Hx.
  - now rewrite Hy.
Qed.

Lemma find_nothing {A} (f : A -> bool) (l : list A) :
  Forall (fun y => f y = false) l -> find f l = None.
Proof.
  induction 1 as [|y l Hy _ IH]; simpl; [reflexivity | now rewrite Hy].
Qed.

Lemma indexOfChar_first (key rest : string) :
  allChars notEquals key = true ->
  forall i,
    Cli.indexOfChar "=" (key ++ String "=" rest) i
    = i + Z.of_nat (String.length key).
Proof.
  induction key as [|c key IH]; intros Hkey i; simpl.
  - lia.
  - simpl in Hkey. apply andb_prop in Hkey. destruct Hkey as [Hc Hkey].
    unfold notEquals in Hc. apply negb_true_iff in Hc. rewrite Hc.
    rewrite IH by assumption. lia.
Qed.

Lemma indexOfChar_absent (s : string) :
  allChars notEquals s = true -> forall i, Cli.indexOfChar "=" s i = -1.
Proof.
  induction s as [|c s IH]; intros Hs i; simpl; [reflexivity|].
  simpl in Hs. apply andb_prop in Hs. destruct Hs as [Hc Hs].
  unfold notEquals in Hc. apply negb_true_iff in Hc. rewrite Hc.
  now apply IH.
Qed.

Lemma substringFrom_after (key rest : string) :
  Cli.substringFrom (S (String.length key)) (key ++ String "=" rest) = rest.
Proof. induction key as [|c key IH]; simpl; [now destruct rest | exact IH]. Qed.

Lemma startsWith_nonempty (s name : string) :
  startsWith s ("--" ++ name) = true -> s <> "".
Proof. intros H ->. discriminate H. Qed.

(** [getArg] reads the first argument that starts with [--name], and no
    later one.  When that argument holds an equals sign, the value is all
    that follows the first one, further equals signs included, and an
    empty value gives the default; when it holds none, the default is
    returned; so is it when no argument starts with [--name].  The match
    is on the prefix: the argument may name a longer option. *)
Theorem getArg_reads_the_first_match (name defaultValue : string)
  (argv : list string) :
  (Forall (fun x => startsWith x ("--" ++ name) = false) argv ->
   Cli.getArg argv name defaultValue = defaultValue)
  /\ (forall before arg after,
        argv = (before ++ arg :: after)%list ->
        Forall (fun x => startsWith x ("--" ++ name) = false) before ->
        startsWith arg ("--" ++ name) = true ->
        (allChars notEquals arg = true ->
         Cli.getArg argv name defaultValue = defaultValue)
        /\ (forall key value,
              arg = key ++ "=" ++ value ->
              allChars notEquals key = true ->
              Cli.getArg argv name defaultValue
              = if String.eqb value "" then defaultValue else value)).
Proof.
  split.
  - intros Hnone. unfold Cli.getArg. now rewrite find_nothing.
  - intros before arg after -> Hbefore Harg.
    unfold Cli.getArg. rewrite (find_first _ before after arg Hbefore Harg).
    apply startsWith_nonempty in Harg. apply String.eqb_neq in Harg.
    rewrite Harg. split.
    + intros Hbare. now rewrite indexOfChar_absent.
    + intros key value -> Hkey.
      change (key ++ "=" ++ value) with (key ++ String "=" value).
      rewrite indexOfChar_first by assumption.
      destruct (Z.ltb_spec (0 + Z.of_nat (String.length key)) 0) as [H|_];
        [lia|].
      replace (Z.to_nat (0 + Z.of_nat (String.length key) + 1))
        with (S (String.length key)) by lia.
      now rewrite substringFrom_after.
Qed.

Lemma getArg_reads_the_first_match_witness :
  Cli.getArg
    ["node"; "cli.js"; "setup"; "--password-file=x"; "--pass=a=b";
     "--pass=other"]
    "pass" ""
  = "x".
Proof.
  refine (proj2 (proj2 (getArg_reads_the_first_match "pass" "" _)
                   ["node"; "cli.js"; "setup"] "--password-file=x"
                   ["--pass=a=b"; "--pass=other"] eq_refl _ _)
            "--password-file" "x" eq_refl _).
  - repeat constructor.
  - reflexivity.
  - reflexivity.
Defined.

(** The [--verbose] option as the help text shows it, without a value,
    does not raise the log level: unless an argument that starts with
    [--verbose] holds an equals sign, the console logger is made with the
    level [info]. *)
Theorem verbose_without_a_value_is_info (argv : list string) :
  Forall
    (fun x => startsWith x "--verbose" = true -> allChars notEquals x = true)
    argv ->
  Cli.logLevel argv = "info".
Proof.
  intros Hbare. unfold Cli.logLevel.
  assert (H : Cli.getArg argv "verbose" "false" = "false");
    [|now rewrite H].
  induction Hbare as [|x argv Hx _ IH].
  - reflexivity.
  - unfold Cli.getArg in *. cbn [find].
    change ("--" ++ "verbose") with "--verbose" in *.
    destruct (startsWith x "--verbose") eqn:Hstarts; [|exact IH].
    rewrite (indexOfChar_absent x (Hx eq_refl)).
    now destruct (String.eqb x "").
Qed.

Lemma verbose_without_a_value_is_info_witness :
  Cli.logLevel ["node"; "cli.js"; "setup"; "--verbose"; "--db=orders"]
  = "info".
Proof.
  apply verbose_without_a_value_is_info.
  repeat constructor; intros H; try discriminate H; reflexivity.
Defined.

Lemma poolsEnded_log (e : Bootstrapper.Event) :
  (forall q, e <> Bootstrapper.Sent q) ->
  (forall o, e <> Bootstrapper.PoolCreated o) ->
  e <> Bootstrapper.PoolEnded ->
  forall t open, poolsEnded open (t ++ [e]) = poolsEnded open t.
Proof.
  intros Hsent Hcreated Hended.
  induction t as [|x t IH]; intros open.
  - destruct e; simpl; try reflexivity.
    + now destruct (Hcreated options).
    + now destruct (Hsent statement).
    + now destruct Hended.
  - destruct x; simpl; now rewrite ?IH.
Qed.

Lemma poolsEnded_after_log (e : Bootstrapper.Event)
  (t : list Bootstrapper.Event) :
  (forall q, e <> Bootstrapper.Sent q) ->
  (forall o, e <> Bootstrapper.PoolCreated o) ->
  e <> Bootstrapper.PoolEnded ->
  poolsEnded false (e :: t) = poolsEnded false t.
Proof.
  intros Hsent Hcreated Hended. destruct e; simpl; try reflexivity.
  - now destruct (Hcreated options).
  - now destruct (Hsent statement).
  - now destruct Hended.
Qed.

(** The management tool never fails and never drops a database.  Whatever
    the arguments and whatever the server answers, the script settles
    normally, because the rejection of [runCommand] is caught and
    dropped; it never closes the connections to a database nor drops one,
    because the options it builds carry no [dropIfTest]; and it ends
    every pool it makes. *)
Theorem main_never_fails_and_never_drops (server : Bootstrapper.Server)
  (argv : list string) (t0 : list Bootstrapper.Event) :
  fst (Cli.main server argv t0) = Returned tt
  /\ exists t,
       snd (Cli.main server argv t0) = (t0 ++ t)%list
       /\ Forall (fun q => destructive q = false) (Bootstrapper.sent t)
       /\ poolsEnded false t = true.
Proof.
  unfold Cli.main, Cli.printHelp.
  destruct (nth_error argv 2) as [cmd|];
    [|split; [reflexivity | exists [Bootstrapper.HelpPrinted];
                            repeat split; constructor]].
  destruct (String.eqb cmd "");
    [split; [reflexivity | exists [Bootstrapper.HelpPrinted];
                           repeat split; constructor]|].
  unfold Cli.runCommand, Cli.printHelp, Bootstrapper.catch,
    Bootstrapper.seq, Bootstrapper.bind, Bootstrapper.emit.
  settle.
  set (t1 := (t0 ++ [Bootstrapper.LoggerCreated (Cli.logLevel argv)])%list).
  destruct (String.eqb cmd "setup").
  { destruct (bootstrap_run (Cli.pgOptions argv) server t1)
      as [t [Ht [_ [Hoff [_ [Hended _]]]]]].
    destruct (Hoff eq_refl) as [rest [_ Hsafe]].
    destruct (Bootstrapper.bootstrap (Cli.pgOptions argv) server t1)
      as [[[]|e] t2]; cbn [snd] in Ht; subst t2 t1; settle.
    - split; [reflexivity|].
      exists (Bootstrapper.LoggerCreated (Cli.logLevel argv)
              :: t ++ [Bootstrapper.LoggedInfo
                         "StreamSource database is ready."])%list.
      split; [now rewrite <- !app_assoc|]. split.
      + cbn [Bootstrapper.sent].
        now rewrite sent_after_event by discriminate.
      + rewrite poolsEnded_after_log by discriminate.
        now rewrite poolsEnded_log by discriminate.
    - split; [reflexivity|].
      exists (Bootstrapper.LoggerCreated (Cli.logLevel argv) :: t).
      split; [now rewrite <- !app_assoc|]. split; [exact Hsafe|].
      now rewrite poolsEnded_after_log by discriminate. }
  destruct (String.eqb cmd "teardown").
  { rewrite teardown_eq. subst t1.
    destruct (server _ _) as [[]|e]; settle;
      [|destruct (includes (message e) "does not exist"); settle];
      (split; [reflexivity|]); eexists;
      (split; [rewrite <- !app_assoc; reflexivity|]);
      split; try reflexivity; repeat constructor. }
  subst t1.
  destruct (String.eqb cmd "help"); settle;
    (split; [reflexivity|]); eexists;
    (split; [rewrite <- !app_assoc; reflexivity|]);
    split; try reflexivity; constructor.
Qed.

(* ===================================================================== *)
(** * The subscription registry *)
(* ===================================================================== *)

Lemma sameRegistry_trans (a b c : Store) :
  sameRegistry a b -> sameRegistry b c -> sameRegistry a c.
Proof. unfold sameRegistry. congruence. Qed.

Ltac registry_side :=
  first
    [ apply sameRegistry_trans
    | intros ?; reflexivity
    | intros ? ?; reflexivity
    | intros ? ? ?; reflexivity
    | intros ? ? ? ? ?; reflexivity
    | intros; exact I ].

(** Appends, reads, metadata calls and deletions leave the registry as it
    is. *)
Lemma perform_keeps_registry (Position_End : Z)
  (config : PgStreamStoreConfig.t) (pool : Driver) (v4 : nat -> string)
  (c : Call) (s : Store) :
  touchesRegistry c = false ->
  sameRegistry s (perform Position_End config pool v4 c s).
Proof.
  intros Hc. destruct c; try discriminate; cbn [perform].
  - apply steps_appendToStream with (allowed := fun _ => True);
      registry_side.
  - apply steps_readHeadPosition with (allowed := fun _ => True);
      registry_side.
  - apply steps_readAll with (allowed := fun _ => True); registry_side.
  - apply steps_readStream with (allowed := fun _ => True); registry_side.
  - apply steps_getStreamMetadata with (allowed := fun _ => True);
      registry_side.
  - apply steps_setStreamMetadata with (allowed := fun _ => True);
      registry_side.
  - apply steps_deleteMessage with (allowed := fun _ => True);
      registry_side.
  - apply steps_deleteStream with (allowed := fun _ => True);
      registry_side.
Qed.

(** A subscribe call tracks one more subscription, a new object, at the
    end of the registry, and returns it. *)
Lemma subscribe_registry (config : PgStreamStoreConfig.t)
  (stream : option JsVal) (s : Store) :
  let call :=
    match stream with
    | Some streamId => subscribeToStream config streamId
    | None => subscribeToAll config
    end in
  exists sub,
    fst (call s) = Returned sub
    /\ subscription_ref sub = length (subscriptionsCreated (trace s))
    /\ subscriptions (snd (call s)) = (subscriptions s ++ [sub])%list
    /\ subscriptionsCreated (trace (snd (call s)))
       = (subscriptionsCreated (trace s) ++ [sub])%list.
Proof.
  intros call. subst call.
  destruct stream as [streamId|];
    unfold subscribeToStream, subscribeToAll, bind;
    destruct (notifier s) as [n|] eqn:Hn;
    rewrite ?(getNotifier_cached config s n Hn),
      ?(getNotifier_fresh config s Hn);
    unfold createSubscription, pushSubscription, modify, ret;
    cbn [fst snd subscriptions setSubscriptions record setNotifier trace];
    eexists; (split; [reflexivity|]);
    cbn [subscription_ref]; rewrite ?subscriptionsCreated_app;
    cbn [subscriptionsCreated]; rewrite ?app_nil_r;
    repeat split; reflexivity.
Qed.

Lemma removeAt_Forall {A} (P : A -> Prop) (l : list A) :
  Forall P l -> forall i, Forall P (removeAt i l).
Proof.
  induction 1 as [|x l Hx Hl IH]; intros i; [destruct i; constructor|].
  destruct i; simpl; [exact Hl | constructor; [exact Hx | apply IH]].
Qed.

Lemma removeAt_In {A} (l : list A) :
  forall i x, In x (removeAt i l) -> In x l.
Proof.
  induction l as [|y l IH]; intros i x H; [now destruct i|].
  destruct i; simpl in H; [now right|].
  destruct H as [H|H]; [now left | right; eapply IH; exact H].
Qed.

Lemma removeAt_map {A B} (f : A -> B) (l : list A) :
  forall i, map f (removeAt i l) = removeAt i (map f l).
Proof.
  induction l as [|y l IH]; intros i; [now destruct i|].
  destruct i; simpl; [reflexivity | now rewrite IH].
Qed.

Lemma removeAt_NoDup {A} (l : list A) :
  NoDup l -> forall i, NoDup (removeAt i l).
Proof.
  induction 1 as [|x l Hx Hl IH]; intros i; [destruct i; constructor|].
  destruct i; simpl; [exact Hl|].
  constructor; [|apply IH].
  intros H. apply Hx. eapply removeAt_In. exact H.
Qed.

Lemma Forall_created_more (l : list Subscription) (n m : nat) :
  (n <= m)%nat ->
  Forall (fun x => (subscription_ref x < n)%nat) l ->
  Forall (fun x => (subscription_ref x < m)%nat) l.
Proof.
  intros Hle H. eapply Forall_impl; [|exact H]. cbv beta. intros. lia.
Qed.

Lemma perform_registryInvariant (Position_End : Z)
  (config : PgStreamStoreConfig.t) (pool : Driver) (v4 : nat -> string)
  (c : Call) (s : Store) :
  registryInvariant s ->
  registryInvariant (perform Position_End config pool v4 c s).
Proof.
  intros [Hdistinct Hmade].
  destruct (touchesRegistry c) eqn:Hc.
  - destruct c; try discriminate; cbn [perform].
    + destruct (subscribe_registry config (Some streamId) s)
        as [sub [_ [Href [Hsubs Hcreated]]]].
      cbv zeta in Hsubs, Hcreated. unfold registryInvariant.
      rewrite Hsubs, Hcreated, map_app, length_app. split.
      * apply NoDup_app; [exact Hdistinct | repeat constructor; now simpl|].
        intros r Hr [Hin|[]]. cbn [map] in Hin. subst r.
        apply in_map_iff in Hr. destruct Hr as [x [Hx Hin]].
        rewrite Forall_forall in Hmade. specialize (Hmade x Hin). lia.
      * apply Forall_app. split.
        -- eapply Forall_created_more; [|exact Hmade]. lia.
        -- repeat constructor. simpl. lia.
    + destruct (subscribe_registry config None s)
        as [sub [_ [Href [Hsubs Hcreated]]]].
      cbv zeta in Hsubs, Hcreated. unfold registryInvariant.
      rewrite Hsubs, Hcreated, map_app, length_app. split.
      * apply NoDup_app; [exact Hdistinct | repeat constructor; now simpl|].
        intros r Hr [Hin|[]]. cbn [map] in Hin. subst r.
        apply in_map_iff in Hr. destruct Hr as [x [Hx Hin]].
        rewrite Forall_forall in Hmade. specialize (Hmade x Hin). lia.
      * apply Forall_app. split.
        -- eapply Forall_created_more; [|exact Hmade]. lia.
        -- repeat constructor. simpl. lia.
    + rewrite dispose_eq. split; constructor.
    + unfold disposeSubscription, bind, emit, modify, registryInvariant.
      cbn [snd subscriptions setSubscriptions record trace].
      rewrite subscriptionsCreated_app. cbn [subscriptionsCreated].
      rewrite app_nil_r. unfold spliceOne. split.
      * rewrite removeAt_map. now apply removeAt_NoDup.
      * now apply removeAt_Forall.
  - assert (Hkept := perform_keeps_registry Position_End config pool v4 c s
                       Hc).
    assert (Hsame : sameNotifiers s (perform Position_End config pool v4 c s)).
    { apply perform_keeps_notifiers. now destruct c. }
    destruct Hsame as [_ [_ Hcreated]].
    unfold registryInvariant, sameRegistry in *.
    now rewrite Hkept, Hcreated.
Qed.

Lemma runCalls_registryInvariant (Position_End : Z)
  (config : PgStreamStoreConfig.t) (pool : Driver) (v4 : nat -> string)
  (calls : list Call) :
  forall s,
    registryInvariant s ->
    registryInvariant (runCalls Position_End config pool v4 calls s).
Proof.
  induction calls as [|c calls IH]; intros s Hs; [exact Hs|].
  change (runCalls Position_End config pool v4 (c :: calls) s)
    with (runCalls Position_End config pool v4 calls
            (perform Position_End config pool v4 c s)).
  apply IH. now apply perform_registryInvariant.
Qed.

Lemma untracked_before (sub : Subscription) (pre post : list Subscription) :
  NoDup (map subscription_ref (pre ++ sub :: post)) ->
  untracked sub pre /\ untracked sub post.
Proof.
  intros Hdistinct. rewrite map_app in Hdistinct. cbn [map] in Hdistinct.
  apply NoDup_remove_2 in Hdistinct.
  unfold untracked. rewrite !Forall_forall.
  split; intros x Hx; apply Nat.eqb_neq; intros Heq; apply Hdistinct;
    apply in_or_app; [left | right]; rewrite <- Heq; now apply in_map.
Qed.

(** In every state that a new store reaches by a sequence of calls, the
    tracked subscriptions are distinct objects, and disposing one of them
    takes that subscription out of the registry and leaves the others in
    their order.  The removal of another subscription than the one
    disposed happens only for a subscription that is not tracked. *)
Theorem tracked_subscription_removes_itself (Position_End : Z)
  (config : PgStreamStoreConfig.t) (pool : Driver) (v4 : nat -> string)
  (calls : list Call) (sub : Subscription) :
  let s :=
    runCalls Position_End config pool v4 calls createPostgresStreamStore in
  In sub (subscriptions s) ->
  exists pre post,
    subscriptions s = (pre ++ sub :: post)%list
    /\ subscriptions (snd (disposeSubscription sub s)) = (pre ++ post)%list
    /\ untracked sub (pre ++ post).
Proof.
  intros s Hin.
  assert (Hinv : registryInvariant s).
  { apply runCalls_registryInvariant. split; constructor. }
  destruct Hinv as [Hdistinct _].
  destruct (in_split _ _ Hin) as [pre [post Hs]].
  rewrite Hs in Hdistinct.
  destruct (untracked_before sub pre post Hdistinct) as [Hpre Hpost].
  exists pre, post. split; [exact Hs|]. split.
  - unfold disposeSubscription, bind, emit, modify.
    cbn [snd subscriptions setSubscriptions record].
    rewrite Hs, (indexOfFrom_tracked sub sub pre post Hpre (Nat.eqb_refl _)).
    apply spliceOne_middle.
  - apply Forall_app. now split.
Qed.

Lemma tracked_subscription_removes_itself_witness :
  let first :=
    {| subscription_ref := 0; subscription_stream := None;
       subscription_notifier :=
         {| notifier_ref := 0; notifier_kind := PollingNotifier 500 |} |} in
  let second :=
    {| subscription_ref := 1; subscription_stream := Some (JStr "orders");
       subscription_notifier :=
         {| notifier_ref := 0; notifier_kind := PollingNotifier 500 |} |} in
  let s :=
    runCalls (-1) Sample.config Sample.emptyPool (fun _ => Sample.uuid)
      [CallSubscribeToAll; CallReadHeadPosition;
       CallSubscribeToStream (JStr "orders")]
      createPostgresStreamStore in
  subscriptions s = [first; second]
  /\ subscriptions (snd (disposeSubscription first s)) = [second].
Proof.
  intros first second s.
  destruct (tracked_subscription_removes_itself (-1) Sample.config
              Sample.emptyPool (fun _ => Sample.uuid)
              [CallSubscribeToAll; CallReadHeadPosition;
               CallSubscribeToStream (JStr "orders")]
              first (or_introl eq_refl))
    as [pre [post [Hs [Hremoved _]]]].
  split; [reflexivity|].
  fold s in Hremoved. rewrite Hremoved.
  fold s in Hs. change (subscriptions s) with [first; second] in Hs.
  destruct pre as [|x pre].
  - inversion Hs. reflexivity.
  - inversion Hs as [[Hx Hrest]]. destruct pre as [|y pre].
    + inversion Hrest.
    + inversion Hrest as [[Hy Hrest']]. now destruct pre.
Defined.

(* ===================================================================== *)
(** * Deleting a stream under [ExpectedVersion.Any] *)
(* ===================================================================== *)

Lemma pauses_app (t u : list Event) :
  pauses (t ++ u) = (pauses t + pauses u)%nat.
Proof.
  induction t as [|e t IH]; [reflexivity|].
  destruct e; simpl; now rewrite ?IH.
Qed.

(** Attempts of the deletion that meet a violated stream constraint under
    [ExpectedVersion.Any] are run again, each after one statement and one
    pause. *)
Lemma deleteStream_conflicts (config : PgStreamStoreConfig.t)
  (pool : Driver) (v4 : nat -> string) (streamId expectedVersion : JsVal)
  (k : nat) :
  strictEqNum expectedVersion ExpectedVersion.Any = true ->
  forall (retriesLeft attempt : nat) (st : Store),
    (forall i, (i < k)%nat ->
       forall q,
       exists e,
         run_deleteStream pool (length (issued (trace st)) + i) q = Thrown e
         /\ isConcurrencyUniqueConstraintViolation e = true) ->
    exists st' t,
      Fejl.retryLoop
        (retryableDeleteStream config pool v4 streamId expectedVersion)
        retryOpts (k + retriesLeft) attempt st
      = Fejl.retryLoop
          (retryableDeleteStream config pool v4 streamId expectedVersion)
          retryOpts retriesLeft (k + attempt) st'
      /\ trace st' = (trace st ++ t)%list
      /\ length (issued t) = k
      /\ pauses t = k.
Proof.
  intros Hany. induction k as [|k IH]; intros retriesLeft attempt st Hconf.
  - exists st, []. rewrite app_nil_r. now repeat split.
  - set (q := deleteQuery config v4 streamId expectedVersion st).
    destruct (Hconf 0%nat (Nat.lt_0_succ k) q) as [e [Hanswer He]].
    rewrite Nat.add_0_r in Hanswer.
    change (S k + retriesLeft)%nat with (S (k + retriesLeft)).
    rewrite retryLoop_again with (cause := e) (s' := record (Issued q) st).
    + destruct (IH retriesLeft (S attempt)
                  (record (Backoff attempt retryOpts) (record (Issued q) st)))
        as [st' [t [Hloop [Htrace [Hissued Hpauses]]]]].
      * intros i Hi q'. rewrite !trace_record, !issued_app. cbn [issued].
        rewrite app_nil_r, length_app. cbn [length].
        replace (length (issued (trace st)) + 1 + i)%nat
          with (length (issued (trace st)) + S i)%nat by lia.
        apply Hconf. lia.
      * exists st', (Issued q :: Backoff attempt retryOpts :: t).
        rewrite Hloop, Nat.add_succ_r. split; [reflexivity|].
        rewrite Htrace, !trace_record, <- !app_assoc. cbn [app].
        split; [reflexivity|]. cbn [issued pauses length].
        now rewrite Hissued, Hpauses.
    + rewrite retryableDeleteStream_eq. cbv zeta. fold q.
      unfold nextAnswer. rewrite Hanswer.
      unfold deleteAttemptOutcome, handlePotentialConcurrencyError.
      now rewrite He, Hany.
Qed.

(** [deleteStream] under [ExpectedVersion.Any] retries a violated stream
    constraint.  Let the first [k] statements of the call, [k] below 200,
    be answered with such a violation.  When the next statement is
    answered with a code other than the conflict sentinel, the call
    returns; when [k] is 199 and the 200th statement is answered with a
    violation too, the call fails with the error the pool gave to that
    statement, and not with [ConcurrencyError].  In both cases the call
    has sent [k + 1] statements and paused [k] times, all of it after the
    latch was entered and left. *)
Theorem deleteStream_retries_under_Any (config : PgStreamStoreConfig.t)
  (pool : Driver) (v4 : nat -> string) (sid : string)
  (expectedVersion : JsVal) (s : Store) (k : nat) :
  sid <> "" -> startsWith sid "$" = false ->
  strictEqNum expectedVersion ExpectedVersion.Any = true ->
  (k < 200)%nat ->
  (forall i, (i < k)%nat ->
     forall q,
     exists e,
       run_deleteStream pool (length (issued (trace s)) + i) q = Thrown e
       /\ isConcurrencyUniqueConstraintViolation e = true) ->
  let result := deleteStream config pool v4 (JStr sid) expectedVersion s in
  let last := (length (issued (trace s)) + k)%nat in
  let sentAndPaused :=
    exists t,
      trace (snd result) = (trace s ++ LatchEnter :: LatchExit :: t)%list
      /\ length (issued t) = S k
      /\ pauses t = k in
  (forall code,
     (forall q, run_deleteStream pool last q = Returned code) ->
     code <> AppendResultCodes.ConcurrencyIssue ->
     fst result = Returned tt /\ sentAndPaused)
  /\ (k = 199%nat ->
      forall e,
        (forall q, run_deleteStream pool last q = Thrown e) ->
        isConcurrencyUniqueConstraintViolation e = true ->
        fst result = Thrown e /\ sentAndPaused).
Proof.
  intros Hsid Hdollar Hany Hk Hconf result last sentAndPaused.
  subst sentAndPaused result.
  assert (Hversion :
            Invariant.required "expectedVersion" expectedVersion
            = Returned tt).
  { destruct expectedVersion; try discriminate Hany. reflexivity. }
  rewrite deleteStream_accepted by assumption. unfold Fejl.retry.
  cbn [retryOpts RetryOptions.tries Nat.pred].
  assert (Hstart : length (issued (trace (deleteStart s)))
                   = length (issued (trace s))).
  { unfold deleteStart. cbn [latchExit latchEnter trace].
    rewrite !issued_app. cbn [issued]. now rewrite !app_nil_r. }
  destruct (deleteStream_conflicts config pool v4 (JStr sid)
              expectedVersion k Hany (199 - k) 0 (deleteStart s))
    as [st' [t [Hloop [Htrace [Hissued Hpauses]]]]].
  { intros i Hi q. rewrite Hstart. now apply Hconf. }
  replace (k + (199 - k))%nat with 199%nat in Hloop by lia.
  rewrite Hloop. clear Hloop.
  set (q := deleteQuery config v4 (JStr sid) expectedVersion st').
  assert (Hattempt := retryableDeleteStream_eq config pool v4 (JStr sid)
                        expectedVersion st').
  cbv zeta in Hattempt. fold q in Hattempt. unfold nextAnswer in Hattempt.
  assert (Hindex : length (issued (trace st')) = last).
  { rewrite Htrace, issued_app, length_app, Hstart, Hissued. reflexivity. }
  rewrite Hindex in Hattempt.
  assert (Hshape :
            exists t',
              trace (record (Issued q) st')
              = (trace s ++ LatchEnter :: LatchExit :: t')%list
              /\ length (issued t') = S k /\ pauses t' = k).
  { exists (t ++ [Issued q])%list.
    rewrite trace_record, Htrace. unfold deleteStart.
    cbn [latchExit latchEnter trace]. rewrite <- !app_assoc. cbn [app].
    split; [reflexivity|].
    rewrite issued_app, length_app, pauses_app, Hissued, Hpauses.
    cbn [issued pauses length]. lia. }
  split.
  - intros code Hcode Hne. rewrite (Hcode q) in Hattempt.
    cbn [deleteAttemptOutcome] in Hattempt.
    apply Z.eqb_neq in Hne. rewrite Hne in Hattempt.
    rewrite (retryLoop_settles _ _ _ _ _ _ _ Hattempt) by discriminate.
    split; [reflexivity | exact Hshape].
  - intros -> e He Hviolation. rewrite (He q) in Hattempt.
    unfold deleteAttemptOutcome, handlePotentialConcurrencyError
      in Hattempt.
    rewrite Hviolation, Hany in Hattempt. cbn [Nat.sub].
    rewrite (retryLoop_exhausted _ _ _ _ _ _ Hattempt).
    split; [reflexivity | exact Hshape].
Qed.

Lemma deleteStream_retries_under_Any_witness :
  let violation := Sample.uniqueViolation "stream_id_key" Sample.uuid in
  let pool :=
    {| run_append := run_append Sample.emptyPool;
       run_readHeadPosition := run_readHeadPosition Sample.emptyPool;
       run_readStream := run_readStream Sample.emptyPool;
       run_readAllMessages := run_readAllMessages Sample.emptyPool;
       run_setStreamMetadata := run_setStreamMetadata Sample.emptyPool;
       run_deleteStream :=
         fun n _ => if (n <? 2)%nat then Thrown violation else Returned 0;
       run_deleteMessages := run_deleteMessages Sample.emptyPool |} in
  fst (deleteStream Sample.config pool (fun _ => Sample.uuid) (JStr "orders")
         (JNum ExpectedVersion.Any) createPostgresStreamStore)
  = Returned tt.
Proof.
  intros violation pool.
  refine (proj1 (proj1 (deleteStream_retries_under_Any Sample.config pool
                          (fun _ => Sample.uuid) "orders"
                          (JNum ExpectedVersion.Any)
                          createPostgresStreamStore 2 _ _ _ _ _)
                   0 _ _)).
  - discriminate.
  - reflexivity.
  - reflexivity.
  - lia.
  - intros i Hi q. exists violation. split; [|reflexivity].
    destruct i as [|[|i]]; [reflexivity | reflexivity | lia].
  - intros q. reflexivity.
  - discriminate.
Defined.
